(** * httpx: retry executor, backoff calculator and middleware chain

    A shallow embedding of [retry.go] (DefaultRetryIf, retryTransport.RoundTrip,
    retryTransport.calculateBackoff), of the middleware file
    (middlewareTransport, buildMiddlewareChain, TimeoutMiddleware) and of the
    [Options] record they read.

    - Durations, status codes and counters are Go integers, embedded in [Z].
    - [float64] is IEEE 754 binary64, embedded with the executable
      specification [SpecFloat] (precision 53, emax 1024); every operation is
      rounded on its own, to nearest even (no fused multiply-add, as on
      amd64).
    - Effects (polling the context, calling the wrapped transport, the
      [select] of the backoff wait, closing a body, a cancel function) are
      made explicit: a computation reads the history of effects performed so
      far, asks the environment what happens next and appends the effect to
      the history. *)

From Stdlib Require Import ZArith List Bool Lia String.
From Stdlib Require Import Floats.SpecFloat.
From Stdlib Require Import DecimalString.
Import ListNotations.
Local Open Scope Z_scope.

(* ================================================================== *)
(** ** float64 *)

Module Float64.

Definition prec : Z := 53.
Definition emax : Z := 1024.

Definition float64 := spec_float.

Definition mul : float64 -> float64 -> float64 := SFmul prec emax.
Definition add : float64 -> float64 -> float64 := SFadd prec emax.
Definition sub : float64 -> float64 -> float64 := SFsub prec emax.
(** [gt x y] is Go's [x > y]; it is false as soon as one side is NaN. *)
Definition gt (x y : float64) : bool := SFltb y x.

(** Conversion [float64(n)] of an integer, rounded to nearest even. *)
Definition of_int (n : Z) : float64 := binary_normalize prec emax n 0 false.

(** [math.Pow(2, float64(n))] for an attempt index [n >= 0]: with an
    integral exponent Go's [math.Pow] returns the exact power of two, and
    [+Inf] once it overflows (from [n = 1024] on). *)
Definition pow2 (n : Z) : float64 := binary_normalize prec emax 1 n false.

(** The literal [0.25]. *)
Definition quarter : float64 := S754_finite false 4503599627370496 (-54).

Definition div : float64 -> float64 -> float64 := SFdiv prec emax.

(** The constants [1 << 63] and [1]. *)
Definition two63 : float64 := S754_finite false 4503599627370496 11.
Definition one : float64 := S754_finite false 4503599627370496 (-52).

(** One round of [rand.Float64()] of [math/rand]:
    [float64(r.Int63()) / (1 << 63)], for the value [0 <= k < 2^63] that
    [Int63()] returns. *)
Definition of_draw (k : Z) : float64 := div (of_int k) two63.

(** [rand.Float64()] draws again while the quotient is [1].  It is [1]
    exactly for the [Int63] values from [2^63 - 512] on, which the
    conversion rounds up to [2^63]: the round that is kept has a value
    below [kept_draws]. *)
Definition kept_draws : Z := 2 ^ 63 - 512.

Definition min_int64 : Z := - 2 ^ 63.
Definition max_int64 : Z := 2 ^ 63 - 1.

(** Integer part of a finite float, rounded toward zero. *)
Definition trunc (x : float64) : option Z :=
  match x with
  | S754_zero _ => Some 0
  | S754_finite s m e => Some (cond_Zopp s (Z.shiftl (Zpos m) e))
  | S754_infinity _ | S754_nan => None
  end.

(** Conversion [int64(x)] (and so [time.Duration(x)]): truncation toward
    zero.  When the value is NaN, infinite or outside int64 the Go
    specification leaves the result implementation-dependent: [None]. *)
Definition to_int64 (x : float64) : option Z :=
  match trunc x with
  | Some v => if (min_int64 <=? v) && (v <=? max_int64) then Some v else None
  | None => None
  end.

(** The mantissa and the exponent of the binary64 number equal to the
    positive integer [x], for [x < 2^53]: the integer shifted left until
    it has 53 digits, and the opposite of the shift. *)
Definition canon_m (x : positive) : positive :=
  Z.to_pos (Zpos x * 2 ^ (53 - Zpos (digits2_pos x))).

Definition canon_e (x : positive) : Z := Zpos (digits2_pos x) - 53.

(** The binary64 number [x * 2^e], for [|x| < 2^53]. *)
Definition scaled (x e : Z) : float64 :=
  match x with
  | Z0 => S754_zero false
  | Zpos p => S754_finite false (canon_m p) (e + canon_e p)
  | Zneg p => S754_finite true (canon_m p) (e + canon_e p)
  end.

(** The binary64 number equal to the integer [x], for [|x| < 2^53]. *)
Definition repr (x : Z) : float64 :=
  match x with
  | Z0 => S754_zero false
  | Zpos p => S754_finite false (canon_m p) (canon_e p)
  | Zneg p => S754_finite true (canon_m p) (canon_e p)
  end.

(** A number that is not zero, of magnitude at most one and at least
    [2^-53]. *)
Definition unit_factor (g : float64) : Prop :=
  exists sg mg eg,
    g = S754_finite sg mg eg /\
    Zpos (digits2_pos mg) = 53 /\
    -105 <= eg <= -52 /\
    Zpos mg <= 2 ^ (- eg).

End Float64.

(* ================================================================== *)
(** ** Requests, responses, errors, contexts *)

(** The two errors a [context.Context] reports from [Err()]. *)
Inductive ctx_error : Type :=
| Canceled
| DeadlineExceeded.

(** A Go [error] value: a context error, or any other error (identified by
    a number), typically a network failure of the transport. *)
Inductive error : Type :=
| CtxError (c : ctx_error)
| TransportError (n : nat).


(** [time.Duration] and points in time, in nanoseconds. *)
Definition Duration := Z.

(** A [context.Context]: its identity and its deadline, if it has one. *)
Record Context : Type := mkContext {
  ctx_id : nat;
  Deadline : option Z
}.

(** [*http.Response]: the status code and the body.  [Body] is the identity
    of the [io.ReadCloser], [None] for a nil body. *)
Record Response : Type := mkResponse {
  StatusCode : Z;
  Body : option nat
}.

(** [*http.Request]: what the pipeline reads, and the header list an
    interceptor may extend. *)
Record Request : Type := mkRequest {
  Method : string;
  URL : string;
  Header : list (string * string);
  req_ctx : Context
}.

(** [req.WithContext(ctx)]: a copy of the request with the context changed. *)
Definition WithContext (req : Request) (ctx : Context) : Request :=
  {| Method := Method req; URL := URL req; Header := Header req; req_ctx := ctx |}.

(** What a [RoundTrip] returns: [(resp, err)], either of which may be nil. *)
Definition Outcome : Type := option Response * option error.

(** The branch taken by the [select] of the backoff wait.  Once [Done()] is
    closed [ctx.Err()] is not nil; the branch carries that error. *)
Inductive wait_result : Type :=
| TimerFired
| CtxDone (e : ctx_error).

(** The effects of the pipeline, in the order they happen. *)
Inductive event : Type :=
| EvCtxErr (c : Context) (r : option ctx_error)
| EvTransport (req : Request) (out : Outcome)
| EvSelect (d : option Duration) (c : Context) (r : wait_result)
| EvBodyClose (b : nat)
| EvWithTimeout (parent : Context) (timeout : Duration) (now : Z) (child : Context)
| EvCancel (c : Context)
| EvNote (s : string).

Definition History := list event.

(** The environment: the network, the clock, the scheduler, the random
    source and whoever cancels contexts.  Each answer may depend on all that
    happened before. *)
Record Env : Type := mkEnv {
  env_ctx_err : History -> Context -> option ctx_error;
  env_transport : History -> Request -> Outcome;
  env_select : History -> option Duration -> Context -> wait_result;
  env_rand : History -> Z;
  env_now : History -> Z
}.

(** ** A state monad over the history *)

Definition M (A : Type) : Type := History -> A * History.

Definition ret {A} (a : A) : M A := fun h => (a, h).

Definition bind {A B} (c : M A) (k : A -> M B) : M B :=
  fun h => let (a, h') := c h in k a h'.

Notation "x <- c ;; k" := (bind c (fun x => k))
  (at level 61, c at next level, right associativity).
Notation "c ;;; k" := (bind c (fun _ => k))
  (at level 61, right associativity).

Definition emit (e : event) : M unit := fun h => (tt, h ++ [e]).

(** [http.RoundTripper]: one operation. *)
Definition RoundTripper : Type := Request -> M Outcome.

Definition Middleware : Type := RoundTripper -> RoundTripper.

(** [RoundTripFunc]: a function used as a [RoundTripper]; its [RoundTrip]
    calls the function. *)
Definition RoundTripFunc : Type := Request -> M Outcome.

Definition RoundTripFunc_RoundTrip (f : RoundTripFunc) : RoundTripper :=
  fun req => f req.

Section Primitives.
Variable env : Env.

(** [ctx.Err()] *)
Definition ctx_Err (c : Context) : M (option ctx_error) :=
  fun h => let r := env_ctx_err env h c in (r, h ++ [EvCtxErr c r]).

(** The transport at the bottom of the chain. *)
Definition network : RoundTripper :=
  fun req h => let out := env_transport env h req in (out, h ++ [EvTransport req out]).

(** [select { case <-time.After(d): ; case <-ctx.Done(): }] *)
Definition select_wait (d : option Duration) (c : Context) : M wait_result :=
  fun h => let r := env_select env h d c in (r, h ++ [EvSelect d c r]).

(** [rand.Float64()], by the [Int63] value of the round that is kept. *)
Definition rand_draw : M Z := fun h => (env_rand env h mod Float64.kept_draws, h).

(** [resp.Body.Close()] *)
Definition body_Close (b : nat) : M unit := emit (EvBodyClose b).

(** [context.WithTimeout(parent, timeout)], as the context package
    documents it: the child's deadline is [now + timeout] unless the
    parent's deadline is earlier, in which case the parent's stays.  The
    result is the child and its cancel function. *)
Definition context_WithTimeout (parent : Context) (timeout : Duration)
  : M (Context * M unit) :=
  fun h =>
    let now := env_now env h in
    let d := now + timeout in
    let dl := match Deadline parent with
              | Some cur => if cur <? d then cur else d
              | None => d
              end in
    let child := {| ctx_id := S (List.length h); Deadline := Some dl |} in
    ((child, emit (EvCancel child)), h ++ [EvWithTimeout parent timeout now child]).
End Primitives.

(* ================================================================== *)
(** ** retry.go *)

Definition RetryConditionFunc : Type := option Response -> option error -> bool.

Definition DefaultRetryIf : RetryConditionFunc :=
  fun resp err =>
    match err with
    | Some _ => true
    | None =>
      match resp with
      | None => false
      | Some r => (StatusCode r >=? 500) || (StatusCode r =? 429)
      end
    end.

Record retryTransport : Type := mkRetryTransport {
  base : RoundTripper;
  maxRetries : Z;
  minBackoff : Duration;
  maxBackoff : Duration;
  retryIf : RetryConditionFunc
}.

Module Backoff.
Import Float64.

(** The value of [backoff] after the cap and before the jitter. *)
Definition capped (minB maxB : Duration) (attempt : Z) : float64 :=
  let backoff := mul (of_int minB) (pow2 attempt) in
  if gt backoff (of_int maxB) then of_int maxB else backoff.

(** [backoff * 0.25 * (rand.Float64()*2 - 1)] *)
Definition jitter (backoff : float64) (draw : Z) : float64 :=
  mul (mul backoff quarter) (sub (mul (of_draw draw) (of_int 2)) (of_int 1)).

(** [calculateBackoff], the random draw made explicit. *)
Definition calculateBackoff_with (minB maxB : Duration) (attempt : Z) (draw : Z)
  : option Duration :=
  let backoff := capped minB maxB attempt in
  let backoff := add backoff (jitter backoff draw) in
  to_int64 backoff.
End Backoff.

Section Retry.
Variable env : Env.

Definition calculateBackoff (rt : retryTransport) (attempt : Z) : M (option Duration) :=
  draw <- rand_draw env ;;
  ret (Backoff.calculateBackoff_with (minBackoff rt) (maxBackoff rt) attempt draw).

(** The body of the [for] loop of [RoundTrip], [n] iterations before the
    guard [attempt <= rt.maxRetries] fails; [prev] is the current value of
    [(resp, err)]. *)
Fixpoint retry_loop (rt : retryTransport) (req : Request) (n : nat)
         (attempt : Z) (prev : Outcome) : M Outcome :=
  match n with
  | O => ret prev
  | S n' =>
    ce <- ctx_Err env (req_ctx req) ;;
    match ce with
    | Some e => ret (None, Some (CtxError e))
    | None =>
      out <- base rt req ;;
      let shouldRetry := retryIf rt (fst out) (snd out) in
      if negb shouldRetry || (attempt =? maxRetries rt) then ret out
      else
        backoff <- calculateBackoff rt attempt ;;
        w <- select_wait env backoff (req_ctx req) ;;
        match w with
        | CtxDone e => ret (None, Some (CtxError e))
        | TimerFired =>
          match fst out with
          | Some resp =>
            match Body resp with
            | Some b => body_Close b
            | None => ret tt
            end
          | None => ret tt
          end ;;;
          retry_loop rt req n' (attempt + 1) out
        end
    end
  end.

(** [retryTransport.RoundTrip]: [attempt] runs from [0] to [maxRetries]. *)
Definition RoundTrip (rt : retryTransport) : RoundTripper :=
  fun req => retry_loop rt req (Z.to_nat (maxRetries rt + 1)) 0 (None, None).
End Retry.

(* ================================================================== *)
(** ** Options and the middleware chain *)

(** [Options], with the fields the chain composer reads; [RetryIf] is
    [None] when the function value is nil. *)
Record Options : Type := mkOptions {
  Timeout : Duration;
  MaxRetries : Z;
  RetryMinBackoff : Duration;
  RetryMaxBackoff : Duration;
  RetryIf : option RetryConditionFunc;
  Headers : list (string * string);
  Middlewares : list Middleware
}.

Definition defaultOptions : Options :=
  {| Timeout := 10 * 1000000000;
     MaxRetries := 0;
     RetryMinBackoff := 100 * 1000000;
     RetryMaxBackoff := 5 * 1000000000;
     RetryIf := None;
     Headers := [];
     Middlewares := [] |}.

Record middlewareTransport : Type := mkMiddlewareTransport {
  mt_base : RoundTripper
}.

Definition middlewareTransport_RoundTrip (mt : middlewareTransport) : RoundTripper :=
  fun req => mt_base mt req.

(** [for i := len(mws) - 1; i >= 0; i-- { rt = mws[i](rt) }], started with
    [k = len(mws)]: the next index is [k - 1]. *)
Fixpoint wrap_down (mws : list Middleware) (k : nat) (rt : RoundTripper) : RoundTripper :=
  match k with
  | O => rt
  | S i =>
    match nth_error mws i with
    | Some mw => wrap_down mws i (mw rt)
    | None => wrap_down mws i rt
    end
  end.

Section Chain.
Variable env : Env.

Definition buildMiddlewareChain (base0 : RoundTripper) (opts : Options) : RoundTripper :=
  let rt := base0 in
  let rt :=
    if MaxRetries opts >? 0 then
      let retryIf0 := match RetryIf opts with
                      | Some f => f
                      | None => DefaultRetryIf
                      end in
      RoundTrip env {| base := rt;
                       maxRetries := MaxRetries opts;
                       minBackoff := RetryMinBackoff opts;
                       maxBackoff := RetryMaxBackoff opts;
                       retryIf := retryIf0 |}
    else rt in
  let rt := wrap_down (Middlewares opts) (List.length (Middlewares opts)) rt in
  middlewareTransport_RoundTrip {| mt_base := rt |}.

(** [TimeoutMiddleware]; the deferred [cancel()] runs when the function
    returns, after [next.RoundTrip] has. *)
Definition TimeoutMiddleware (timeout : Duration) : Middleware :=
  fun next =>
    RoundTripFunc_RoundTrip (fun req =>
      let ctx := req_ctx req in
      cc <- context_WithTimeout env ctx timeout ;;
      let (ctx', cancel) := cc in
      out <- next (WithContext req ctx') ;;
      cancel ;;;
      ret out).
End Chain.

(** An interceptor used to observe the order of the chain: it notes its
    name on the way in, appends its marker to the request's headers,
    delegates, and notes its name again on the way out. *)
Definition marker (name : string) : Middleware :=
  fun next req =>
    emit (EvNote (String.append "in:" name)) ;;;
    out <- next {| Method := Method req; URL := URL req;
                   Header := Header req ++ [("X-Marker"%string, name)];
                   req_ctx := req_ctx req |} ;;
    emit (EvNote (String.append "out:" name)) ;;;
    ret out.

(** The innermost layer the composer builds: the retry executor around the
    base transport when [MaxRetries > 0], the base transport itself
    otherwise. *)
Definition retry_layer (env : Env) (base0 : RoundTripper) (opts : Options) : RoundTripper :=
  if MaxRetries opts >? 0 then
    RoundTrip env {| base := base0;
                     maxRetries := MaxRetries opts;
                     minBackoff := RetryMinBackoff opts;
                     maxBackoff := RetryMaxBackoff opts;
                     retryIf := match RetryIf opts with
                                | Some f => f
                                | None => DefaultRetryIf
                                end |}
  else base0.

(** [opts] with its interceptor list replaced. *)
Definition with_middlewares (opts : Options) (mws : list Middleware) : Options :=
  {| Timeout := Timeout opts;
     MaxRetries := MaxRetries opts;
     RetryMinBackoff := RetryMinBackoff opts;
     RetryMaxBackoff := RetryMaxBackoff opts;
     RetryIf := RetryIf opts;
     Headers := Headers opts;
     Middlewares := mws |}.

Definition add_markers (req : Request) (names : list string) : Request :=
  {| Method := Method req; URL := URL req;
     Header := Header req ++ map (fun n => ("X-Marker"%string, n)) names;
     req_ctx := req_ctx req |}.

(** ** Reading a trace *)

Definition is_transport (e : event) : bool :=
  match e with
  | EvTransport _ _ => true
  | _ => false
  end.

(** Number of invocations of the transport recorded in a trace. *)
Definition transport_calls (tr : list event) : nat :=
  List.length (filter is_transport tr).

(** The outcome of the last invocation of the transport in a trace. *)
Fixpoint last_transport (tr : list event) : option Outcome :=
  match tr with
  | [] => None
  | e :: tr' =>
    match last_transport tr' with
    | Some o => Some o
    | None => match e with
              | EvTransport _ o => Some o
              | _ => None
              end
    end
  end.

Definition closes_of (b : nat) (e : event) : bool :=
  match e with
  | EvBodyClose b' => Nat.eqb b b'
  | _ => false
  end.

(** How many times body [b] is closed in a trace. *)
Definition close_count (b : nat) (tr : list event) : nat :=
  List.length (filter (closes_of b) tr).

Definition is_select (e : event) : bool :=
  match e with
  | EvSelect _ _ _ => true
  | _ => false
  end.

(** Number of backoff waits recorded in a trace. *)
Definition select_count (tr : list event) : nat :=
  List.length (filter is_select tr).

(** The close performed for a discarded outcome. *)
Definition close_events (out : Outcome) : list event :=
  match fst out with
  | Some resp =>
    match Body resp with
    | Some b => [EvBodyClose b]
    | None => []
    end
  | None => []
  end.

(** ** The runs of the retry executor over the network

    [run env rt req h a tr res]: started in iteration [a] of the loop with
    history [h], [RoundTrip] performs the effects [tr] and returns [res]. *)

Section Runs.
Variables (env : Env) (rt : retryTransport) (req : Request).

Definition backoff_at (h : History) (a : Z) : option Duration :=
  Backoff.calculateBackoff_with (minBackoff rt) (maxBackoff rt) a
                                (env_rand env h mod Float64.kept_draws).

Inductive run : History -> Z -> list event -> Outcome -> Prop :=
| run_ctx_cancelled h a e :
    env_ctx_err env h (req_ctx req) = Some e ->
    run h a [EvCtxErr (req_ctx req) (Some e)] (None, Some (CtxError e))
| run_final h a out :
    env_ctx_err env h (req_ctx req) = None ->
    out = env_transport env (h ++ [EvCtxErr (req_ctx req) None]) req ->
    retryIf rt (fst out) (snd out) = false \/ a = maxRetries rt ->
    run h a [EvCtxErr (req_ctx req) None; EvTransport req out] out
| run_wait_cancelled h a out d e :
    env_ctx_err env h (req_ctx req) = None ->
    out = env_transport env (h ++ [EvCtxErr (req_ctx req) None]) req ->
    retryIf rt (fst out) (snd out) = true ->
    a <> maxRetries rt ->
    d = backoff_at (h ++ [EvCtxErr (req_ctx req) None; EvTransport req out]) a ->
    env_select env (h ++ [EvCtxErr (req_ctx req) None; EvTransport req out])
               d (req_ctx req) = CtxDone e ->
    run h a [EvCtxErr (req_ctx req) None; EvTransport req out;
             EvSelect d (req_ctx req) (CtxDone e)]
        (None, Some (CtxError e))
| run_again h a out d tr res :
    env_ctx_err env h (req_ctx req) = None ->
    out = env_transport env (h ++ [EvCtxErr (req_ctx req) None]) req ->
    retryIf rt (fst out) (snd out) = true ->
    a <> maxRetries rt ->
    d = backoff_at (h ++ [EvCtxErr (req_ctx req) None; EvTransport req out]) a ->
    env_select env (h ++ [EvCtxErr (req_ctx req) None; EvTransport req out])
               d (req_ctx req) = TimerFired ->
    run (h ++ [EvCtxErr (req_ctx req) None; EvTransport req out;
               EvSelect d (req_ctx req) TimerFired] ++ close_events out)
        (a + 1) tr res ->
    run h a ([EvCtxErr (req_ctx req) None; EvTransport req out;
              EvSelect d (req_ctx req) TimerFired] ++ close_events out ++ tr)
        res.
End Runs.

(** What a run guarantees about each event of its trace: a poll that sees
    the context cancelled and a wait cut short by the context are the last
    event and fix the result; the transport is only invoked right after a
    poll that saw no cancellation. *)
Definition event_ok (req : Request) (res : Outcome) (pre : list event) (x : event)
           (post : list event) : Prop :=
  match x with
  | EvCtxErr _ (Some e) => post = [] /\ res = (None, Some (CtxError e))
  | EvSelect _ _ (CtxDone e) => post = [] /\ res = (None, Some (CtxError e))
  | EvTransport _ _ => exists pre', pre = pre' ++ [EvCtxErr (req_ctx req) None]
  | _ => True
  end.

(* ================================================================== *)
(** ** Concrete environments and transports

    Used to run the definitions on concrete inputs. *)

Module Sample.
Definition ms : Z := 1000000.

Definition ctx0 : Context := {| ctx_id := 0; Deadline := None |}.

Definition req0 : Request :=
  {| Method := "GET"; URL := "http://example.test/"; Header := []; req_ctx := ctx0 |}.

(** No cancellation; every invocation of the transport fails; the jitter
    draw is one half. *)
Definition env_failing : Env :=
  {| env_ctx_err := fun _ _ => None;
     env_transport := fun h _ => (None, Some (TransportError (List.length h)));
     env_select := fun _ _ _ => TimerFired;
     env_rand := fun _ => 2 ^ 62;
     env_now := fun _ => 0 |}.

Definition rt_failing : retryTransport :=
  {| base := network env_failing;
     maxRetries := 2;
     minBackoff := 100 * ms;
     maxBackoff := 5000 * ms;
     retryIf := fun _ _ => true |}.

(** The context is cancelled before the call. *)
Definition env_cancelled : Env :=
  {| env_ctx_err := fun _ _ => Some Canceled;
     env_transport := fun h _ => (Some {| StatusCode := 200; Body := Some (List.length h) |}, None);
     env_select := fun _ _ _ => TimerFired;
     env_rand := fun _ => 2 ^ 62;
     env_now := fun _ => 0 |}.

(** The server answers 503 with a body; the context is cancelled while
    the executor waits after the first attempt. *)
Definition env_cancel_in_wait : Env :=
  {| env_ctx_err := fun _ _ => None;
     env_transport := fun h _ => (Some {| StatusCode := 503; Body := Some (List.length h) |}, None);
     env_select := fun _ _ _ => CtxDone Canceled;
     env_rand := fun _ => 2 ^ 62;
     env_now := fun _ => 0 |}.

Definition rt_default (env : Env) (n : Z) : retryTransport :=
  {| base := network env;
     maxRetries := n;
     minBackoff := 100 * ms;
     maxBackoff := 5000 * ms;
     retryIf := DefaultRetryIf |}.

(** The server answers 503 with a body; nothing is cancelled. *)
Definition env_503 : Env :=
  {| env_ctx_err := fun _ _ => None;
     env_transport := fun h _ => (Some {| StatusCode := 503; Body := Some (List.length h) |}, None);
     env_select := fun _ _ _ => TimerFired;
     env_rand := fun _ => 2 ^ 62;
     env_now := fun _ => 0 |}.
End Sample.

(* ================================================================== *)
(** ** The client: options, [New] and the methods that reconfigure it *)

(** [Options] together with its [Transport] field; [None] is a nil
    [*http.Transport]. *)
Record OptionsT : Type := mkOptionsT {
  options : Options;
  Transport : option RoundTripper
}.

(** [Option]: a function that updates the options in place. *)
Definition Option : Type := OptionsT -> OptionsT.

Definition set_Timeout (d : Duration) (o : Options) : Options :=
  {| Timeout := d; MaxRetries := MaxRetries o;
     RetryMinBackoff := RetryMinBackoff o; RetryMaxBackoff := RetryMaxBackoff o;
     RetryIf := RetryIf o; Headers := Headers o; Middlewares := Middlewares o |}.

Definition set_MaxRetries (n : Z) (o : Options) : Options :=
  {| Timeout := Timeout o; MaxRetries := n;
     RetryMinBackoff := RetryMinBackoff o; RetryMaxBackoff := RetryMaxBackoff o;
     RetryIf := RetryIf o; Headers := Headers o; Middlewares := Middlewares o |}.

Definition set_RetryBackoff (lo hi : Duration) (o : Options) : Options :=
  {| Timeout := Timeout o; MaxRetries := MaxRetries o;
     RetryMinBackoff := lo; RetryMaxBackoff := hi;
     RetryIf := RetryIf o; Headers := Headers o; Middlewares := Middlewares o |}.

Definition set_RetryIf (f : option RetryConditionFunc) (o : Options) : Options :=
  {| Timeout := Timeout o; MaxRetries := MaxRetries o;
     RetryMinBackoff := RetryMinBackoff o; RetryMaxBackoff := RetryMaxBackoff o;
     RetryIf := f; Headers := Headers o; Middlewares := Middlewares o |}.

Definition on_options (f : Options -> Options) : Option :=
  fun o => {| options := f (options o); Transport := Transport o |}.

Definition WithTimeout (d : Duration) : Option := on_options (set_Timeout d).
Definition WithRetry (maxRetries0 : Z) : Option := on_options (set_MaxRetries maxRetries0).
Definition WithRetryBackoff (lo hi : Duration) : Option := on_options (set_RetryBackoff lo hi).
Definition WithRetryIf (fn : option RetryConditionFunc) : Option := on_options (set_RetryIf fn).

(** [o.Middlewares = append(o.Middlewares, mw...)] *)
Definition WithMiddleware (mw : list Middleware) : Option :=
  on_options (fun o => with_middlewares o (Middlewares o ++ mw)).

Definition WithTransport (t : option RoundTripper) : Option :=
  fun o => {| options := options o; Transport := t |}.

(** [*http.Client], with the two fields the package sets.  [Transport] only
    ever holds a [*middlewareTransport]. *)
Record httpClient : Type := mkHttpClient {
  hc_Timeout : Duration;
  hc_Transport : middlewareTransport
}.

Record Client : Type := mkClient {
  client_http : httpClient;
  client_opts : OptionsT;
  baseURL : string
}.

Section ClientOps.
Variable env : Env.

(** [defaultTransport()]: the [*http.Transport] with the package's pool and
    timeout settings, which have no counterpart here: the network. *)
Definition defaultTransport : RoundTripper := network env.

(** [buildMiddlewareChain], returning the [*middlewareTransport] itself. *)
Definition buildMiddlewareChain_transport (base0 : RoundTripper) (opts : Options)
  : middlewareTransport :=
  let rt := base0 in
  let rt :=
    if MaxRetries opts >? 0 then
      let retryIf0 := match RetryIf opts with
                      | Some f => f
                      | None => DefaultRetryIf
                      end in
      RoundTrip env {| base := rt;
                       maxRetries := MaxRetries opts;
                       minBackoff := RetryMinBackoff opts;
                       maxBackoff := RetryMaxBackoff opts;
                       retryIf := retryIf0 |}
    else rt in
  let rt := wrap_down (Middlewares opts) (List.length (Middlewares opts)) rt in
  {| mt_base := rt |}.

Definition New (opts0 : list Option) : Client :=
  let opts := fold_left (fun o opt => opt o)
                        opts0 {| options := defaultOptions; Transport := None |} in
  let transport := match Transport opts with
                   | Some t => t
                   | None => defaultTransport
                   end in
  {| client_http := {| hc_Timeout := Timeout (options opts);
                       hc_Transport := buildMiddlewareChain_transport transport (options opts) |};
     client_opts := opts;
     baseURL := EmptyString |}.

Definition Client_WithBaseURL (c : Client) (u : string) : Client :=
  {| client_http := client_http c; client_opts := client_opts c; baseURL := u |}.

(** [Client.WithTimeout]: a new client from a copy of the options. *)
Definition Client_WithTimeout (c : Client) (d : Duration) : Client :=
  let newOpts := on_options (set_Timeout d) (client_opts c) in
  New [fun _ => newOpts].

Definition Client_WithRetry (c : Client) (maxRetries0 : Z) : Client :=
  {| client_http := client_http c;
     client_opts := WithRetry maxRetries0 (client_opts c);
     baseURL := baseURL c |}.

Definition Client_WithRetryBackoff (c : Client) (lo hi : Duration) : Client :=
  {| client_http := client_http c;
     client_opts := WithRetryBackoff lo hi (client_opts c);
     baseURL := baseURL c |}.

Definition Client_WithRetryIf (c : Client) (fn : option RetryConditionFunc) : Client :=
  {| client_http := client_http c;
     client_opts := WithRetryIf fn (client_opts c);
     baseURL := baseURL c |}.

(** [Client.WithMiddleware]: appends and rebuilds the chain over the [base]
    of the current [*middlewareTransport]. *)
Definition Client_WithMiddleware (c : Client) (mw : list Middleware) : Client :=
  let opts := WithMiddleware mw (client_opts c) in
  {| client_http :=
       {| hc_Timeout := hc_Timeout (client_http c);
          hc_Transport :=
            buildMiddlewareChain_transport (mt_base (hc_Transport (client_http c)))
                                           (options opts) |};
     client_opts := opts;
     baseURL := baseURL c |}.

(** The [RoundTrip] of the client's transport. *)
Definition Client_RoundTrip (c : Client) : RoundTripper :=
  middlewareTransport_RoundTrip (hc_Transport (client_http c)).
End ClientOps.

(* ================================================================== *)
(** ** Errors, the response handler and the request builder *)

(** *** errors.go *)

Record HTTPError : Type := mkHTTPError {
  err_StatusCode : Z;
  err_Status : string;
  err_Body : list Byte.byte
}.

(** Go errors, as far as [errors.As] tells them apart: an error of the
    context or an error of the transport that has no [Unwrap] and no [As]
    method; an [*HTTPError]; an error wrapped by [fmt.Errorf] with one
    [%w]; or any other error.  Of another error the model keeps what
    [errors.As] reads: the [*HTTPError] found at the error itself (its
    [As] method can supply one), whether a [Timeout() bool] method is found
    at the error itself and its answer, and the errors its [Unwrap] method
    returns: at most one for [Unwrap() error], any number for
    [Unwrap() []error] ([errors.Join], [fmt.Errorf] with several [%w]);
    nil entries are left out. *)
#[warnings="-register-all"]
Inductive Err : Type :=
| ErrBase (e : error)
| ErrHTTP (h : HTTPError)
| ErrWrap (msg : string) (inner : Err)
| ErrOther (n : nat) (http : option HTTPError) (timeout : option bool)
           (unwrap : list Err).

(** [errors.As(err, &httpErr)]: the error itself is looked at first, then
    what it unwraps to, depth first and in order; the first [*HTTPError]
    found is the result. *)
Fixpoint as_HTTPError (e : Err) : option HTTPError :=
  match e with
  | ErrHTTP h => Some h
  | ErrWrap _ inner => as_HTTPError inner
  | ErrBase _ => None
  | ErrOther _ http _ unwrap =>
    match http with
    | Some h => Some h
    | None =>
      (fix first (l : list Err) : option HTTPError :=
         match l with
         | [] => None
         | x :: l' => match as_HTTPError x with
                      | Some h => Some h
                      | None => first l'
                      end
         end) unwrap
    end
  end.

Definition IsHTTPError (err : option Err) : bool :=
  match err with
  | Some e => match as_HTTPError e with Some _ => true | None => false end
  | None => false
  end.

Definition GetHTTPError (err : option Err) : option HTTPError * bool :=
  match err with
  | Some e => match as_HTTPError e with
              | Some h => (Some h, true)
              | None => (None, false)
              end
  | None => (None, false)
  end.

Definition IsStatusCode (err : option Err) (code : Z) : bool :=
  let (httpErr, ok) := GetHTTPError err in
  ok && match httpErr with
        | Some h => err_StatusCode h =? code
        | None => false
        end.

Section Timeouts.
(** Whether a transport error has a [Timeout()] method, and its answer. *)
Variable net_timeout : nat -> option bool.

(** The [Timeout()] method of an error value, if it has one:
    [context.DeadlineExceeded] has one and answers true,
    [context.Canceled] has none. *)
Definition timeout_method (e : error) : option bool :=
  match e with
  | CtxError DeadlineExceeded => Some true
  | CtxError Canceled => None
  | TransportError n => net_timeout n
  end.

(** [errors.As(err, &t)] for the interface with [Timeout() bool]: the first
    error, in the same order, that has the method; the result is its
    answer. *)
Fixpoint as_timeout (e : Err) : option bool :=
  match e with
  | ErrBase b => timeout_method b
  | ErrHTTP _ => None
  | ErrWrap _ inner => as_timeout inner
  | ErrOther _ _ timeout unwrap =>
    match timeout with
    | Some t => Some t
    | None =>
      (fix first (l : list Err) : option bool :=
         match l with
         | [] => None
         | x :: l' => match as_timeout x with
                      | Some t => Some t
                      | None => first l'
                      end
         end) unwrap
    end
  end.

Definition IsTimeout (err : option Err) : bool :=
  match err with
  | Some e => match as_timeout e with Some t => t | None => false end
  | None => false
  end.
End Timeouts.

(** *** response.go *)

(** [*http.Response] with its status line. *)
Record FullResponse : Type := mkFullResponse {
  response : Response;
  Status : string
}.

Record ResponseHandler : Type := mkResponseHandler {
  rh_resp : option FullResponse;
  rh_err : option Err
}.

(** A Go value of any type, by its identity. *)
Definition GoValue := nat.

(** A call either returns or panics (a nil dereference). *)
Inductive may_panic (A : Type) : Type :=
| Returns (a : A)
| Panics.
Arguments Returns {A} a.
Arguments Panics {A}.

(** [io.Reader] values handed to the builder. *)
Inductive Reader : Type :=
| BytesReader (data : list Byte.byte)
| OtherReader (id : nat).

(** The functions of the Go standard library the request builder and the
    response handler call. *)
Record GoLib : Type := mkGoLib {
  (** [textproto.CanonicalMIMEHeaderKey] *)
  CanonicalHeaderKey : string -> string;
  strings_ToUpper : string -> string;
  (** [json.Marshal(v)]: the encoding, or the error, which can be any
      error (a [MarshalJSON] method of the value can return it) *)
  json_Marshal : GoValue -> list Byte.byte + Err;
  (** [url.Parse(s)], then every value added to [u.Query()], the result
      encoded into [u.RawQuery], and [u.String()]; the error is that of
      [url.Parse] *)
  url_with_queries : string -> list (string * list string) -> string + Err;
  http_NewRequestWithContext :
    Context -> string -> string -> option Reader -> Request + Err;
  (** [Do] of [http.Client] *)
  http_Client_Do : httpClient -> Request -> option Reader
                   -> M (option FullResponse * option Err);
  (** [io.ReadAll] of the body with this identity: what was read, and the
      error that stopped the reading *)
  io_ReadAll : nat -> list Byte.byte * option Err;
  (** [json.NewDecoder(body).Decode(v)]: what is stored in [v], if
      anything, and the error, if any; a decoding that fails can have
      stored a value, and the error can be any error (of the reader of the
      body, of an [UnmarshalJSON] method) *)
  json_Decode : nat -> option GoValue * option Err
}.

Definition is_success (code : Z) : bool := negb ((code <? 200) || (code >=? 300)).

Section Response.
Variable lib : GoLib.

Definition http_error (resp : FullResponse) (b : nat) : Err :=
  ErrHTTP {| err_StatusCode := StatusCode (response resp);
             err_Status := Status resp;
             err_Body := fst (io_ReadAll lib b) |}.

(** [ResponseHandler.Into]; the result is what was stored in [v], if
    anything, and the error. *)
Definition Into (rh : ResponseHandler) : M (may_panic (option GoValue * option Err)) :=
  match rh_err rh with
  | Some e => ret (Returns (None, Some e))
  | None =>
    match rh_resp rh with
    | None => ret Panics
    | Some resp =>
      match Body (response resp) with
      | None => ret Panics
      | Some b =>
        if (StatusCode (response resp) <? 200) || (StatusCode (response resp) >=? 300)
        then
          let result := Returns (None, Some (http_error resp b)) in
          body_Close b ;;; ret result
        else
          match snd (json_Decode lib b) with
          | Some e =>
            let result :=
              Returns (fst (json_Decode lib b),
                       Some (ErrWrap "decode json response" e)) in
            body_Close b ;;; ret result
          | None =>
            body_Close b ;;; ret (Returns (fst (json_Decode lib b), None))
          end
      end
    end
  end.

Definition Raw (rh : ResponseHandler) : option FullResponse * option Err :=
  (rh_resp rh, rh_err rh).

Definition Bytes (rh : ResponseHandler)
  : M (may_panic (option (list Byte.byte) * option Err)) :=
  match rh_err rh with
  | Some e => ret (Returns (None, Some e))
  | None =>
    match rh_resp rh with
    | None => ret Panics
    | Some resp =>
      match Body (response resp) with
      | None => ret Panics
      | Some b =>
        if (StatusCode (response resp) <? 200) || (StatusCode (response resp) >=? 300)
        then
          let result := Returns (None, Some (http_error resp b)) in
          body_Close b ;;; ret result
        else
          let result := Returns (Some (fst (io_ReadAll lib b)), snd (io_ReadAll lib b)) in
          body_Close b ;;; ret result
      end
    end
  end.

(** [ResponseHandler.String]: [string(b)] is empty for a nil slice. *)
Definition ResponseHandler_String (rh : ResponseHandler) : M (may_panic (string * option Err)) :=
  r <- Bytes rh ;;
  ret match r with
      | Returns (b, err) =>
        Returns (match b with
                 | Some bs => string_of_list_byte bs
                 | None => EmptyString
                 end, err)
      | Panics => Panics
      end.

Definition ResponseHandler_StatusCode (rh : ResponseHandler) : Z :=
  match rh_resp rh with
  | None => 0
  | Some resp => StatusCode (response resp)
  end.
End Response.

(** *** request.go *)

(** Go maps with string keys, as association lists without repeated
    keys. *)
Fixpoint assoc_get {A} (k : string) (m : list (string * A)) : option A :=
  match m with
  | [] => None
  | (k', v) :: m' => if String.eqb k' k then Some v else assoc_get k m'
  end.

(** [m[k] = v] *)
Definition assoc_put {A} (k : string) (v : A) (m : list (string * A)) : list (string * A) :=
  (k, v) :: filter (fun kv => negb (String.eqb (fst kv) k)) m.

Record RequestBuilder : Type := mkRequestBuilder {
  rb_client : Client;
  rb_method : string;
  rb_url : string;
  rb_headers : list (string * string);
  rb_queries : list (string * list string);
  rb_body : option Reader;
  rb_err : option Err
}.

(** [Client.NewRequest] *)
Definition NewRequest (c : Client) : RequestBuilder :=
  {| rb_client := c; rb_method := EmptyString; rb_url := EmptyString;
     rb_headers := []; rb_queries := []; rb_body := None; rb_err := None |}.

Definition set_method_url (rb : RequestBuilder) (m u : string) : RequestBuilder :=
  {| rb_client := rb_client rb; rb_method := m; rb_url := u;
     rb_headers := rb_headers rb; rb_queries := rb_queries rb;
     rb_body := rb_body rb; rb_err := rb_err rb |}.

Definition set_headers (rb : RequestBuilder) (hs : list (string * string)) : RequestBuilder :=
  {| rb_client := rb_client rb; rb_method := rb_method rb; rb_url := rb_url rb;
     rb_headers := hs; rb_queries := rb_queries rb;
     rb_body := rb_body rb; rb_err := rb_err rb |}.

Definition set_queries (rb : RequestBuilder) (qs : list (string * list string))
  : RequestBuilder :=
  {| rb_client := rb_client rb; rb_method := rb_method rb; rb_url := rb_url rb;
     rb_headers := rb_headers rb; rb_queries := qs;
     rb_body := rb_body rb; rb_err := rb_err rb |}.

Definition set_body (rb : RequestBuilder) (b : option Reader) : RequestBuilder :=
  {| rb_client := rb_client rb; rb_method := rb_method rb; rb_url := rb_url rb;
     rb_headers := rb_headers rb; rb_queries := rb_queries rb;
     rb_body := b; rb_err := rb_err rb |}.

Definition set_err (rb : RequestBuilder) (e : option Err) : RequestBuilder :=
  {| rb_client := rb_client rb; rb_method := rb_method rb; rb_url := rb_url rb;
     rb_headers := rb_headers rb; rb_queries := rb_queries rb;
     rb_body := rb_body rb; rb_err := e |}.

(** The values recorded under a key of the query map. *)
Definition query_values (k : string) (m : list (string * list string)) : list string :=
  match assoc_get k m with
  | Some vs => vs
  | None => []
  end.

Section Request.
Variable lib : GoLib.

(** [http.Header.Set] *)
Definition header_Set (h : list (string * string)) (key value : string)
  : list (string * string) :=
  assoc_put (CanonicalHeaderKey lib key) value h.

Definition rb_Method (rb : RequestBuilder) (method : string) : RequestBuilder :=
  set_method_url rb (strings_ToUpper lib method) (rb_url rb).

Definition rb_Get (rb : RequestBuilder) (url : string) : RequestBuilder :=
  set_method_url rb "GET" url.
Definition rb_Post (rb : RequestBuilder) (url : string) : RequestBuilder :=
  set_method_url rb "POST" url.
Definition rb_Put (rb : RequestBuilder) (url : string) : RequestBuilder :=
  set_method_url rb "PUT" url.
Definition rb_Delete (rb : RequestBuilder) (url : string) : RequestBuilder :=
  set_method_url rb "DELETE" url.
Definition rb_URL (rb : RequestBuilder) (u : string) : RequestBuilder :=
  set_method_url rb (rb_method rb) u.

Definition rb_Header (rb : RequestBuilder) (key value : string) : RequestBuilder :=
  set_headers rb (header_Set (rb_headers rb) key value).

(** [Headers]: the pairs in the order the map is ranged over. *)
Definition rb_Headers (rb : RequestBuilder) (headers : list (string * string))
  : RequestBuilder :=
  fold_left (fun r kv => rb_Header r (fst kv) (snd kv)) headers rb.

(** [rb.queries[key] = append(rb.queries[key], value)] *)
Definition rb_Query (rb : RequestBuilder) (key value : string) : RequestBuilder :=
  let old := match assoc_get key (rb_queries rb) with
             | Some vs => vs
             | None => []
             end in
  set_queries rb (assoc_put key (old ++ [value]) (rb_queries rb)).

Definition rb_QueryParams (rb : RequestBuilder) (params : list (string * string))
  : RequestBuilder :=
  fold_left (fun r kv => rb_Query r (fst kv) (snd kv)) params rb.

Definition rb_Body (rb : RequestBuilder) (body : option Reader) : RequestBuilder :=
  set_body rb body.

Definition rb_JSONBody (rb : RequestBuilder) (v : GoValue) : RequestBuilder :=
  match json_Marshal lib v with
  | inr e => set_err rb (Some (ErrWrap "marshal json body" e))
  | inl data =>
    set_headers (set_body rb (Some (BytesReader data)))
                (header_Set (rb_headers rb) "Content-Type" "application/json")
  end.

(** The two loops of [Do] that copy the client's headers and then the
    builder's into the request. *)
Definition merge_headers (req : Request) (client_headers builder_headers : list (string * string))
  : Request :=
  let h := fold_left (fun acc kv => assoc_put (fst kv) (snd kv) acc)
                     client_headers (Header req) in
  let h := fold_left (fun acc kv => assoc_put (fst kv) (snd kv) acc)
                     builder_headers h in
  {| Method := Method req; URL := URL req; Header := h; req_ctx := req_ctx req |}.

Definition Do (rb : RequestBuilder) (ctx : Context) : M ResponseHandler :=
  match rb_err rb with
  | Some e => ret {| rh_resp := None; rh_err := Some e |}
  | None =>
    let fullURL := rb_url rb in
    let fullURL := if String.eqb (baseURL (rb_client rb)) EmptyString
                   then fullURL
                   else String.append (baseURL (rb_client rb)) (rb_url rb) in
    let withQuery :=
      match rb_queries rb with
      | [] => inl fullURL
      | _ :: _ =>
        match url_with_queries lib fullURL (rb_queries rb) with
        | inr e => inr (ErrWrap "parse url" e)
        | inl u => inl u
        end
      end in
    match withQuery with
    | inr e => ret {| rh_resp := None; rh_err := Some e |}
    | inl fullURL =>
      match http_NewRequestWithContext lib ctx (rb_method rb) fullURL (rb_body rb) with
      | inr e => ret {| rh_resp := None; rh_err := Some (ErrWrap "create request" e) |}
      | inl req =>
        let req := merge_headers req (Headers (options (client_opts (rb_client rb))))
                                 (rb_headers rb) in
        out <- http_Client_Do lib (client_http (rb_client rb)) req (rb_body rb) ;;
        ret {| rh_resp := fst out; rh_err := snd out |}
      end
    end
  end.

Definition PostJSON (c : Client) (ctx : Context) (url : string) (reqBody : GoValue) :=
  rh <- Do (rb_JSONBody (rb_Post (NewRequest c) url) reqBody) ctx ;; Into lib rh.

Definition GetJSON (c : Client) (ctx : Context) (url : string) :=
  rh <- Do (rb_Get (NewRequest c) url) ctx ;; Into lib rh.

Definition PutJSON (c : Client) (ctx : Context) (url : string) (reqBody : GoValue) :=
  rh <- Do (rb_JSONBody (rb_Put (NewRequest c) url) reqBody) ctx ;; Into lib rh.

Definition DeleteJSON (c : Client) (ctx : Context) (url : string) :=
  rh <- Do (rb_Delete (NewRequest c) url) ctx ;; Into lib rh.

Definition set_Headers (hs : list (string * string)) (o : Options) : Options :=
  {| Timeout := Timeout o; MaxRetries := MaxRetries o;
     RetryMinBackoff := RetryMinBackoff o; RetryMaxBackoff := RetryMaxBackoff o;
     RetryIf := RetryIf o; Headers := hs; Middlewares := Middlewares o |}.

(** The options [WithHeader] and [WithHeaders], and [Client.WithHeader]. *)
Definition WithHeader (key value : string) : Option :=
  on_options (fun o => set_Headers (header_Set (Headers o) key value) o).

Definition WithHeaders (headers : list (string * string)) : Option :=
  on_options (fun o =>
    fold_left (fun o' kv => set_Headers (header_Set (Headers o') (fst kv) (snd kv)) o')
              headers o).

Definition Client_WithHeader (c : Client) (key value : string) : Client :=
  {| client_http := client_http c;
     client_opts := WithHeader key value (client_opts c);
     baseURL := baseURL c |}.

(** A call on the builder, to speak of sequences of calls. *)
Inductive builder_call : Type :=
| CallMethod (m : string)
| CallGet (u : string)
| CallPost (u : string)
| CallPut (u : string)
| CallDelete (u : string)
| CallURL (u : string)
| CallHeader (k v : string)
| CallHeaders (l : list (string * string))
| CallQuery (k v : string)
| CallQueryParams (l : list (string * string))
| CallBody (b : option Reader)
| CallJSONBody (v : GoValue).

Definition apply_call (rb : RequestBuilder) (c : builder_call) : RequestBuilder :=
  match c with
  | CallMethod m => rb_Method rb m
  | CallGet u => rb_Get rb u
  | CallPost u => rb_Post rb u
  | CallPut u => rb_Put rb u
  | CallDelete u => rb_Delete rb u
  | CallURL u => rb_URL rb u
  | CallHeader k v => rb_Header rb k v
  | CallHeaders l => rb_Headers rb l
  | CallQuery k v => rb_Query rb k v
  | CallQueryParams l => rb_QueryParams rb l
  | CallBody b => rb_Body rb b
  | CallJSONBody v => rb_JSONBody rb v
  end.
End Request.

(* ================================================================== *)
(** ** The metrics interceptor and the default client *)

Section Metrics.
Variable env : Env.

(** [time.Now()] and [time.Since(start)]: readings of the clock, which
    leave no trace. *)
Definition time_Now : M Z := fun h => (env_now env h, h).
Definition time_Since (start : Z) : M Duration := fun h => (env_now env h - start, h).

(** [MetricsMiddleware]: the status label and the duration are computed
    and dropped. *)
Definition MetricsMiddleware (serviceName : string) : Middleware :=
  fun next =>
    RoundTripFunc_RoundTrip (fun req =>
      start <- time_Now ;;
      out <- next req ;;
      duration <- time_Since start ;;
      let status := match fst out with
                    | Some resp => NilZero.string_of_int (Z.to_int (StatusCode resp))
                    | None => "error"%string
                    end in
      let _ := status in
      let _ := duration in
      ret out).
End Metrics.

(** The package variables [defaultClient] and [defaultClientOnce]; the
    flag tells whether the [sync.Once] has run. *)
Record Globals : Type := mkGlobals {
  defaultClient : option Client;
  defaultClientOnce : bool
}.

(** The values of the variables when the program starts. *)
Definition initial_globals : Globals :=
  {| defaultClient := None; defaultClientOnce := false |}.

Definition SetDefault (client : option Client) (g : Globals) : Globals :=
  {| defaultClient := client; defaultClientOnce := defaultClientOnce g |}.

Section GlobalClient.
Variable env : Env.

Definition getDefaultClient (g : Globals) : option Client * Globals :=
  let g := if defaultClientOnce g then g
           else {| defaultClient := Some (New env []); defaultClientOnce := true |} in
  (defaultClient g, g).
End GlobalClient.

(** The error [JSONBody] records when marshalling fails: the wrapped error
    of [json.Marshal] for one of the values in [P]. *)
Definition marshal_error (lib : GoLib) (P : GoValue -> Prop) (e : option Err) : Prop :=
  exists v inner,
    P v /\ json_Marshal lib v = inr inner /\
    e = Some (ErrWrap "marshal json body" inner).

(** A standard library to run the builder and the handler on concrete
    inputs. *)
Module SampleLib.
Definition resp404 : FullResponse :=
  {| response := {| StatusCode := 404; Body := Some 7%nat |};
     Status := "404 Not Found" |}.

(** Header keys and methods are taken as written; marshalling fails on the
    value 0; every exchange is answered by 404 with a body. *)
Definition lib : GoLib :=
  {| CanonicalHeaderKey := fun k => k;
     strings_ToUpper := fun s => s;
     json_Marshal := fun v => match v with
                              | O => inr (ErrOther 0 None None [])
                              | S _ => inl []
                              end;
     url_with_queries := fun u _ => inl u;
     http_NewRequestWithContext := fun ctx m u _ =>
       inl {| Method := m; URL := u; Header := []; req_ctx := ctx |};
     http_Client_Do := fun _ _ _ => ret (Some resp404, None);
     io_ReadAll := fun _ => ([], None);
     json_Decode := fun b => (Some b, None) |}.
End SampleLib.

Module SampleServer.
(** The server answers 404 with a body; nothing is cancelled. *)
Definition env_404 : Env :=
  {| env_ctx_err := fun _ _ => None;
     env_transport := fun h _ => (Some {| StatusCode := 404; Body := Some (List.length h) |}, None);
     env_select := fun _ _ _ => TimerFired;
     env_rand := fun _ => 2 ^ 62;
     env_now := fun _ => 0 |}.
End SampleServer.

(* ================================================================== *)
(** * Properties *)

(** ** The retry loop and its runs *)

Section RunFacts.
Variables (env : Env) (rt : retryTransport) (req : Request).
Hypothesis base_is_network : base rt = network env.

Lemma close_step (out : Outcome) (h : History) :
  (match fst out with
   | Some resp => match Body resp with
                  | Some b => body_Close b
                  | None => ret tt
                  end
   | None => ret tt
   end) h = (tt, h ++ close_events out).
Proof.
  unfold close_events.
  destruct (fst out) as [resp|]; [destruct (Body resp) as [b|]|];
    cbn; now rewrite ?app_nil_r.
Qed.

Lemma retry_loop_run (n : nat) :
  forall a prev h,
    Z.of_nat n = maxRetries rt + 1 - a ->
    n <> O ->
    exists tr res,
      retry_loop env rt req n a prev h = (res, h ++ tr) /\ run env rt req h a tr res.
Proof.
  induction n as [|n IH]; intros a prev h Hn Hpos; [congruence|].
  cbn [retry_loop]. unfold bind at 1. unfold ctx_Err at 1.
  destruct (env_ctx_err env h (req_ctx req)) as [e|] eqn:Hctx.
  - exists [EvCtxErr (req_ctx req) (Some e)], (None, Some (CtxError e)).
    split; [reflexivity | now constructor].
  - unfold bind at 1. rewrite base_is_network. unfold network at 1.
    set (h1 := h ++ [EvCtxErr (req_ctx req) None]).
    set (out := env_transport env h1 req).
    destruct (retryIf rt (fst out) (snd out)) eqn:Hretry; cbn [negb orb].
    + destruct (Z.eqb_spec a (maxRetries rt)) as [Ha|Ha].
      * exists [EvCtxErr (req_ctx req) None; EvTransport req out], out.
        split; [unfold ret, h1; now rewrite <- app_assoc|].
        constructor; auto.
      * unfold bind at 1. unfold calculateBackoff, bind, rand_draw, ret, select_wait.
        set (h2 := h1 ++ [EvTransport req out]).
        assert (Hh2 : h2 = h ++ [EvCtxErr (req_ctx req) None; EvTransport req out]).
        { unfold h2, h1. now rewrite <- app_assoc. }
        set (d := Backoff.calculateBackoff_with _ _ a _).
        destruct (env_select env h2 d (req_ctx req)) as [|e] eqn:Hsel.
        -- rewrite close_step.
           destruct (IH (a + 1) out ((h2 ++ [EvSelect d (req_ctx req) TimerFired]) ++ close_events out))
             as (tr & res & Hrun & Hshape); [lia | lia |].
           exists ([EvCtxErr (req_ctx req) None; EvTransport req out;
                    EvSelect d (req_ctx req) TimerFired] ++ close_events out ++ tr), res.
           split.
           ++ rewrite Hrun, Hh2. f_equal. now rewrite <- !app_assoc.
           ++ apply run_again; auto.
              ** unfold backoff_at. now rewrite <- Hh2.
              ** now rewrite <- Hh2.
              ** rewrite Hh2 in Hshape. rewrite <- !app_assoc in Hshape. exact Hshape.
        -- exists [EvCtxErr (req_ctx req) None; EvTransport req out;
                   EvSelect d (req_ctx req) (CtxDone e)], (None, Some (CtxError e)).
           split; [rewrite Hh2; now rewrite <- app_assoc|].
           apply run_wait_cancelled; auto.
           ++ unfold backoff_at. now rewrite <- Hh2.
           ++ now rewrite <- Hh2.
    + exists [EvCtxErr (req_ctx req) None; EvTransport req out], out.
      split; [unfold ret, h1; now rewrite <- app_assoc|].
      constructor; auto.
Qed.

(** Every call of [RoundTrip] with [maxRetries >= 0] is a run from
    iteration 0; in particular it returns. *)
Lemma RoundTrip_run (h : History) :
  0 <= maxRetries rt ->
  exists tr res, RoundTrip env rt req h = (res, h ++ tr) /\ run env rt req h 0 tr res.
Proof.
  intros Hmax. unfold RoundTrip.
  apply retry_loop_run; lia.
Qed.
End RunFacts.

(** ** Lists of events *)

Lemma transport_calls_app (l1 l2 : list event) :
  transport_calls (l1 ++ l2) = (transport_calls l1 + transport_calls l2)%nat.
Proof. unfold transport_calls. now rewrite filter_app, length_app. Qed.

Lemma transport_calls_close_events (out : Outcome) :
  transport_calls (close_events out) = O.
Proof.
  unfold close_events.
  destruct (fst out) as [resp|]; [destruct (Body resp)|]; reflexivity.
Qed.

Lemma last_transport_app (l1 l2 : list event) :
  last_transport (l1 ++ l2) =
  match last_transport l2 with
  | Some o => Some o
  | None => last_transport l1
  end.
Proof.
  induction l1 as [|e l1 IH]; cbn.
  - now destruct (last_transport l2).
  - rewrite IH. now destruct (last_transport l2).
Qed.

(** Where an element of [l1 ++ l2] sits. *)
Lemma app_split_cases {A} (l1 : list A) :
  forall l2 pre x post,
    l1 ++ l2 = pre ++ x :: post ->
    (exists post1, l1 = pre ++ x :: post1 /\ post = post1 ++ l2) \/
    (exists pre2, pre = l1 ++ pre2 /\ l2 = pre2 ++ x :: post).
Proof.
  induction l1 as [|a l1 IH]; intros l2 pre x post H.
  - right. now exists pre.
  - destruct pre as [|p pre]; cbn in H; injection H as -> H.
    + left. exists l1. now subst.
    + destruct (IH _ _ _ _ H) as [(post1 & -> & ->) | (pre2 & -> & ->)].
      * left. now exists post1.
      * right. now exists pre2.
Qed.

Lemma close_events_split (out : Outcome) pre x post :
  close_events out = pre ++ x :: post ->
  exists b, x = EvBodyClose b /\ pre = [] /\ post = [].
Proof.
  unfold close_events.
  destruct (fst out) as [resp|]; [destruct (Body resp) as [b|]|]; intros H.
  - destruct pre as [|p pre]; cbn in H.
    + injection H as <- <-. now exists b.
    + injection H as _ H. now destruct pre.
  - now destruct pre.
  - now destruct pre.
Qed.

Section RunInvariants.
Variables (env : Env) (rt : retryTransport) (req : Request).

Lemma run_event_ok h a tr res :
  run env rt req h a tr res ->
  forall pre x post, tr = pre ++ x :: post -> event_ok req res pre x post.
Proof.
  induction 1 as [h a e Hc | h a out Hc Ho Hlast
                  | h a out d e Hc Ho Hr Ha Hd Hs
                  | h a out d tr res Hc Ho Hr Ha Hd Hs Hrun IH];
    intros pre x post Hsplit.
  - destruct pre as [|p pre]; cbn in Hsplit.
    + injection Hsplit as <- <-. cbn. auto.
    + injection Hsplit as _ Hsplit. now destruct pre.
  - destruct pre as [|p pre]; cbn in Hsplit; [injection Hsplit as <- _; exact I|].
    injection Hsplit as <- Hsplit.
    destruct pre as [|p pre]; cbn in Hsplit.
    + injection Hsplit as <- _. cbn. now exists [].
    + injection Hsplit as _ Hsplit. now destruct pre.
  - destruct pre as [|p pre]; cbn in Hsplit; [injection Hsplit as <- _; exact I|].
    injection Hsplit as <- Hsplit.
    destruct pre as [|p pre]; cbn in Hsplit;
      [injection Hsplit as <- _; cbn; now exists []|].
    injection Hsplit as <- Hsplit.
    destruct pre as [|p pre]; cbn in Hsplit.
    + injection Hsplit as <- <-. cbn. auto.
    + injection Hsplit as _ Hsplit. now destruct pre.
  - destruct pre as [|p pre]; cbn in Hsplit; [injection Hsplit as <- _; exact I|].
    injection Hsplit as <- Hsplit.
    destruct pre as [|p pre]; cbn in Hsplit;
      [injection Hsplit as <- _; cbn; now exists []|].
    injection Hsplit as <- Hsplit.
    destruct pre as [|p pre]; cbn in Hsplit;
      [injection Hsplit as <- _; exact I|].
    injection Hsplit as <- Hsplit.
    apply app_split_cases in Hsplit.
    destruct Hsplit as [(post1 & Hcl & _) | (pre2 & -> & Htr)].
    + apply close_events_split in Hcl. destruct Hcl as (b & -> & _). exact I.
    + specialize (IH _ _ _ Htr).
      destruct x as [c [e|] | r o | d' c [|e] | b | | |]; cbn in IH |- *; auto.
      destruct IH as (pre' & ->).
      exists (EvCtxErr (req_ctx req) None :: EvTransport req out
                :: EvSelect d (req_ctx req) TimerFired :: close_events out ++ pre').
      cbn. now rewrite <- app_assoc.
Qed.

(** The last event of a run decides whether its result is the context's
    error with a nil response or the transport's own outcome. *)
Lemma run_result h a tr res :
  run env rt req h a tr res ->
  (exists pre e, tr = pre ++ [EvCtxErr (req_ctx req) (Some e)]
                 /\ res = (None, Some (CtxError e))) \/
  (exists pre d e, tr = pre ++ [EvSelect d (req_ctx req) (CtxDone e)]
                   /\ res = (None, Some (CtxError e))) \/
  (exists pre, tr = pre ++ [EvTransport req res]).
Proof.
  induction 1 as [h a e Hc | h a out Hc Ho Hlast
                  | h a out d e Hc Ho Hr Ha Hd Hs
                  | h a out d tr res Hc Ho Hr Ha Hd Hs Hrun IH].
  - left. now exists [], e.
  - right. right. now exists [EvCtxErr (req_ctx req) None].
  - right. left. now exists [EvCtxErr (req_ctx req) None; EvTransport req out], d, e.
  - set (l := [EvCtxErr (req_ctx req) None; EvTransport req out;
               EvSelect d (req_ctx req) TimerFired] ++ close_events out).
    destruct IH as [(pre & e & -> & ->) | [(pre & d' & e & -> & ->) | (pre & ->)]].
    + left. exists (l ++ pre), e. split; [|reflexivity].
      unfold l. now rewrite <- !app_assoc.
    + right. left. exists (l ++ pre), d', e. split; [|reflexivity].
      unfold l. now rewrite <- !app_assoc.
    + right. right. exists (l ++ pre).
      unfold l. now rewrite <- !app_assoc.
Qed.

(** When a backoff wait starts, the transport has been invoked once more
    than the executor has waited. *)
Lemma run_calls_before_wait h a tr res :
  run env rt req h a tr res ->
  forall pre d c w post,
    tr = pre ++ EvSelect d c w :: post ->
    transport_calls pre = S (select_count pre).
Proof.
  induction 1 as [h a e Hc | h a out Hc Ho Hlast
                  | h a out d e Hc Ho Hr Ha Hd Hs
                  | h a out d tr res Hc Ho Hr Ha Hd Hs Hrun IH];
    intros pre d0 c0 w0 post Hsplit.
  - destruct pre as [|p pre]; cbn in Hsplit; [discriminate|].
    injection Hsplit as _ Hsplit. now destruct pre.
  - destruct pre as [|p pre]; cbn in Hsplit; [discriminate|].
    injection Hsplit as <- Hsplit.
    destruct pre as [|p pre]; cbn in Hsplit; [discriminate|].
    injection Hsplit as _ Hsplit. now destruct pre.
  - destruct pre as [|p pre]; cbn in Hsplit; [discriminate|].
    injection Hsplit as <- Hsplit.
    destruct pre as [|p pre]; cbn in Hsplit; [discriminate|].
    injection Hsplit as <- Hsplit.
    destruct pre as [|p pre]; cbn in Hsplit; [reflexivity|].
    injection Hsplit as _ Hsplit. now destruct pre.
  - destruct pre as [|p pre]; cbn in Hsplit; [discriminate|].
    injection Hsplit as <- Hsplit.
    destruct pre as [|p pre]; cbn in Hsplit; [discriminate|].
    injection Hsplit as <- Hsplit.
    destruct pre as [|p pre]; cbn in Hsplit; [reflexivity|].
    injection Hsplit as <- Hsplit.
    apply app_split_cases in Hsplit.
    destruct Hsplit as [(post1 & Hcl & _) | (pre2 & -> & Htr)].
    + apply close_events_split in Hcl. destruct Hcl as (b & Hb & _). discriminate.
    + specialize (IH _ _ _ _ _ Htr).
      unfold transport_calls, select_count in IH |- *.
      cbn [filter is_transport is_select List.length].
      rewrite !filter_app, !length_app.
      fold (transport_calls (close_events out)). rewrite transport_calls_close_events.
      assert (Hsel0 : List.length (filter is_select (close_events out)) = O).
      { unfold close_events.
        destruct (fst out) as [resp|]; [destruct (Body resp)|]; reflexivity. }
      rewrite Hsel0, IH. cbn. reflexivity.
Qed.

(** Without cancellation and with a predicate that always asks for a
    retry, a run from iteration [a] invokes the transport once per
    remaining iteration and returns the last outcome. *)
Lemma run_exhausts h a tr res :
  run env rt req h a tr res ->
  (forall r e, retryIf rt r e = true) ->
  (forall h' c, env_ctx_err env h' c = None) ->
  (forall h' d c, env_select env h' d c = TimerFired) ->
  a <= maxRetries rt ->
  Z.of_nat (transport_calls tr) = maxRetries rt - a + 1 /\
  last_transport tr = Some res /\
  exists h', res = env_transport env h' req.
Proof.
  intros Hrun Hretry Hctx Hsel.
  induction Hrun as [h a e Hc | h a out Hc Ho Hlast
                     | h a out d e Hc Ho Hr Ha Hd Hs
                     | h a out d tr res Hc Ho Hr Ha Hd Hs Hrun IH];
    intros Hle.
  - rewrite Hctx in Hc. discriminate.
  - destruct Hlast as [Hf | ->].
    + rewrite Hretry in Hf. discriminate.
    + split; [cbn; lia | split; [reflexivity | eauto]].
  - rewrite Hsel in Hs. discriminate.
  - destruct IH as (IHn & IHl & IHo); [lia|].
    split; [|split; [|exact IHo]].
    + rewrite 2!transport_calls_app, transport_calls_close_events.
      cbn [transport_calls filter is_transport List.length Nat.add]. lia.
    + rewrite app_assoc, last_transport_app, IHl. reflexivity.
Qed.
End RunInvariants.

(* ================================================================== *)
(** ** binary64 arithmetic

    Facts about the operations of [SpecFloat] at precision 53: when a
    conversion, a product with a power of two or a difference is exact, and
    how far rounding to nearest can move a result. *)

Module Float64Facts.
Import Float64.

Lemma digits2_pos_bounds (p : positive) :
  2 ^ (Zpos (digits2_pos p) - 1) <= Zpos p < 2 ^ Zpos (digits2_pos p).
Proof.
  induction p as [p IH | p IH |]; cbn [digits2_pos].
  - rewrite Pos2Z.inj_succ, (Pos2Z.inj_xI p).
    replace (Z.succ (Zpos (digits2_pos p)) - 1) with (Z.succ (Zpos (digits2_pos p) - 1)) by lia.
    rewrite !Z.pow_succ_r by lia. lia.
  - rewrite Pos2Z.inj_succ, (Pos2Z.inj_xO p).
    replace (Z.succ (Zpos (digits2_pos p)) - 1) with (Z.succ (Zpos (digits2_pos p) - 1)) by lia.
    rewrite !Z.pow_succ_r by lia. lia.
  - cbn. lia.
Qed.

Lemma digits2_pos_unique (p : positive) (d : Z) :
  2 ^ (d - 1) <= Zpos p < 2 ^ d -> Zpos (digits2_pos p) = d.
Proof.
  intros [Hlo Hhi].
  pose proof (digits2_pos_bounds p) as [Hlo' Hhi'].
  set (d' := Zpos (digits2_pos p)) in *.
  assert (Hd : 1 <= d).
  { destruct (Z.le_gt_cases 1 d) as [|Hlt]; [assumption|].
    destruct (Z.eq_dec d 0) as [->|Hne]; [cbn in Hhi; lia|].
    rewrite (Z.pow_neg_r 2 d) in Hhi by lia. lia. }
  destruct (Z.lt_trichotomy d' d) as [Hlt | [Heq | Hgt]]; [|assumption|].
  - pose proof (Z.pow_le_mono_r 2 d' (d - 1) ltac:(lia) ltac:(lia)). lia.
  - pose proof (Z.pow_le_mono_r 2 d (d' - 1) ltac:(lia) ltac:(lia)). lia.
Qed.

Lemma iter_xO_pow (m k : positive) : Zpos (Pos.iter xO m k) = Zpos m * 2 ^ Zpos k.
Proof.
  induction k as [|k IH] using Pos.peano_ind.
  - cbn. lia.
  - rewrite Pos.iter_succ, Pos2Z.inj_xO, IH, Pos2Z.inj_succ, Z.pow_succ_r by lia. lia.
Qed.

Lemma iter_pos_nat {A} (f : A -> A) (p : positive) :
  forall x, iter_pos f p x = Nat.iter (Pos.to_nat p) f x.
Proof.
  induction p as [p IH | p IH |]; intros x; cbn [iter_pos].
  - rewrite !IH, Pos2Nat.inj_xI.
    replace (2 * Pos.to_nat p)%nat with (Pos.to_nat p + Pos.to_nat p)%nat by lia.
    rewrite Nat.iter_succ_r, Nat.iter_add. reflexivity.
  - rewrite !IH, Pos2Nat.inj_xO.
    replace (2 * Pos.to_nat p)%nat with (Pos.to_nat p + Pos.to_nat p)%nat by lia.
    rewrite Nat.iter_add. reflexivity.
  - reflexivity.
Qed.

Lemma shr_1_spec (m : Z) (r s : bool) :
  0 <= m ->
  shr_1 (Build_shr_record m r s) = Build_shr_record (m / 2) (Z.odd m) (r || s).
Proof.
  intros Hm. rewrite <- Z.div2_div.
  destruct m as [|p|p]; [reflexivity| |lia].
  now destruct p.
Qed.

Lemma shr_iter_spec (k : nat) (m : Z) :
  0 <= m ->
  exists r s,
    Nat.iter k shr_1 (Build_shr_record m false false)
    = Build_shr_record (m / 2 ^ Z.of_nat k) r s /\
    (m mod 2 ^ Z.of_nat k = 0 -> r = false /\ s = false).
Proof.
  intros Hm. induction k as [|k IH].
  - exists false, false. change (2 ^ Z.of_nat 0) with 1. rewrite Z.div_1_r. cbn. auto.
  - destruct IH as (r & s & Hrec & Hex).
    exists (Z.odd (m / 2 ^ Z.of_nat k)), (r || s).
    rewrite Nat.iter_succ, Hrec.
    assert (Hp : 0 < 2 ^ Z.of_nat k) by (apply Z.pow_pos_nonneg; lia).
    rewrite shr_1_spec by (apply Z.div_pos; lia).
    rewrite Nat2Z.inj_succ, Z.pow_succ_r by lia.
    split.
    + f_equal. rewrite Z.div_div by lia. f_equal. lia.
    + intros Hmod.
      assert (Hm2 : m = 2 ^ Z.of_nat k * (2 * (m / (2 * 2 ^ Z.of_nat k)))).
      { pose proof (Z.div_mod m (2 * 2 ^ Z.of_nat k) ltac:(lia)). lia. }
      set (q := m / (2 * 2 ^ Z.of_nat k)) in *.
      assert (Hmodk : m mod 2 ^ Z.of_nat k = 0).
      { rewrite Hm2, Z.mul_comm. apply Z.mod_mul. lia. }
      assert (Hdivk : m / 2 ^ Z.of_nat k = 2 * q).
      { rewrite Hm2 at 1. rewrite Z.mul_comm. apply Z.div_mul. lia. }
      destruct (Hex Hmodk) as [-> ->].
      rewrite Hdivk, Z.odd_mul. auto.
Qed.

Lemma fexp_normal (x : Z) : -1021 <= x -> fexp prec emax x = x - 53.
Proof. unfold fexp, emin, prec, emax. lia. Qed.

Lemma shr_exact (m : positive) (e n : Z) :
  0 <= n -> Zpos m mod 2 ^ n = 0 ->
  shr (Build_shr_record (Zpos m) false false) e n
  = (Build_shr_record (Zpos m / 2 ^ n) false false, e + n).
Proof.
  intros Hn Hmod. destruct n as [|p|p]; [| |lia].
  - cbn [shr]. rewrite Z.div_1_r, Z.add_0_r. reflexivity.
  - cbn [shr]. rewrite iter_pos_nat.
    destruct (shr_iter_spec (Pos.to_nat p) (Zpos m) ltac:(lia)) as (r & s & Heq & Hex).
    rewrite positive_nat_Z in Heq, Hex.
    destruct (Hex Hmod) as [-> ->]. now rewrite Heq.
Qed.

Lemma binary_round_aux_exact (s : bool) (m : positive) (e n : Z) :
  0 <= n ->
  Zpos (digits2_pos m) = 53 + n ->
  Zpos m mod 2 ^ n = 0 ->
  -1074 <= e + n ->
  binary_round_aux prec emax s (Zpos m) e loc_Exact =
  if e + n <=? 971 then S754_finite s (Z.to_pos (Zpos m / 2 ^ n)) (e + n)
  else S754_infinity s.
Proof.
  intros Hn Hd Hmod He.
  unfold binary_round_aux, shr_fexp.
  cbn [Zdigits2 shr_record_of_loc].
  rewrite Hd, fexp_normal by lia.
  replace (53 + n + e - 53 - e) with n by lia.
  rewrite shr_exact by assumption.
  cbn [shr_m loc_of_shr_record round_nearest_even].
  pose proof (digits2_pos_bounds m) as Hb. rewrite Hd in Hb.
  assert (Hpn : 0 < 2 ^ n) by (apply Z.pow_pos_nonneg; lia).
  assert (Hq : 2 ^ 52 <= Zpos m / 2 ^ n < 2 ^ 53).
  { replace (53 + n - 1) with (52 + n) in Hb by lia.
    rewrite !Z.pow_add_r in Hb by lia.
    split.
    - apply Z.div_le_lower_bound; lia.
    - apply Z.div_lt_upper_bound; lia. }
  destruct (Zpos m / 2 ^ n) as [|q|q] eqn:Eq; try lia.
  cbn [Zdigits2]. rewrite (digits2_pos_unique q 53) by (change (53 - 1) with 52; lia).
  rewrite fexp_normal by lia.
  replace (53 + (e + n) - 53 - (e + n)) with 0 by lia.
  cbn [shr shr_m Z.to_pos]. reflexivity.
Qed.

Lemma digits_le_53 (x : positive) : Zpos x < 2 ^ 53 -> Zpos (digits2_pos x) <= 53.
Proof.
  intros Hx. pose proof (digits2_pos_bounds x) as [Hlo _].
  destruct (Z.le_gt_cases (Zpos (digits2_pos x)) 53) as [|Hgt]; [assumption|].
  pose proof (Z.pow_le_mono_r 2 53 (Zpos (digits2_pos x) - 1) ltac:(lia) ltac:(lia)). lia.
Qed.

Lemma canon_m_val (x : positive) :
  Zpos x < 2 ^ 53 ->
  Zpos (canon_m x) = Zpos x * 2 ^ (53 - Zpos (digits2_pos x)).
Proof.
  intros Hx. pose proof (digits_le_53 x Hx).
  unfold canon_m. rewrite Z2Pos.id; [reflexivity|].
  apply Z.mul_pos_pos; [lia | apply Z.pow_pos_nonneg; lia].
Qed.

Lemma canon_m_range (x : positive) :
  Zpos x < 2 ^ 53 -> 2 ^ 52 <= Zpos (canon_m x) < 2 ^ 53.
Proof.
  intros Hx. rewrite canon_m_val by assumption.
  pose proof (digits_le_53 x Hx) as Hd.
  pose proof (digits2_pos_bounds x) as [Hlo Hhi].
  set (d := Zpos (digits2_pos x)) in *.
  assert (Hk : 0 < 2 ^ (53 - d)) by (apply Z.pow_pos_nonneg; lia).
  replace (2 ^ 52) with (2 ^ (d - 1) * 2 ^ (53 - d))
    by (rewrite <- Z.pow_add_r by lia; f_equal; lia).
  replace (2 ^ 53) with (2 ^ d * 2 ^ (53 - d))
    by (rewrite <- Z.pow_add_r by lia; f_equal; lia).
  split; [apply Z.mul_le_mono_nonneg_r | apply Z.mul_lt_mono_pos_r]; lia.
Qed.

Lemma canon_m_digits (x : positive) :
  Zpos x < 2 ^ 53 -> Zpos (digits2_pos (canon_m x)) = 53.
Proof.
  intros Hx. apply digits2_pos_unique. change (53 - 1) with 52.
  now apply canon_m_range.
Qed.

Lemma binary_round_small (s : bool) (x : positive) (e : Z) :
  Zpos x < 2 ^ 53 ->
  -1074 <= e + canon_e x ->
  binary_round prec emax s x e =
  if e + canon_e x <=? 971 then S754_finite s (canon_m x) (e + canon_e x)
  else S754_infinity s.
Proof.
  intros Hx He. unfold canon_e in *.
  pose proof (digits_le_53 x Hx) as Hd.
  pose proof (canon_m_val x Hx) as Hv.
  pose proof (canon_m_digits x Hx) as Hcd.
  set (d := Zpos (digits2_pos x)) in *.
  unfold binary_round. fold d.
  rewrite fexp_normal by lia. unfold shl_align.
  replace (d + e - 53 - e) with (d - 53) by lia.
  assert (Hres : binary_round_aux prec emax s (Zpos (canon_m x)) (e + (d - 53)) loc_Exact
                 = if e + (d - 53) <=? 971 then S754_finite s (canon_m x) (e + (d - 53))
                   else S754_infinity s).
  { rewrite (binary_round_aux_exact s (canon_m x) (e + (d - 53)) 0);
      rewrite ?Z.add_0_r, ?Z.div_1_r, ?Pos2Z.id; try lia.
    - reflexivity.
    - apply Z.mod_1_r. }
  destruct (d - 53) as [|k|k] eqn:Hk; try lia.
  - assert (Hcm : canon_m x = x).
    { apply Pos2Z.inj. rewrite Hv. replace (53 - d) with 0 by lia. lia. }
    rewrite Hcm, Z.add_0_r in *. exact Hres.
  - assert (Hcm : Pos.iter xO x k = canon_m x).
    { apply Pos2Z.inj. rewrite Hv, iter_xO_pow. f_equal. f_equal. lia. }
    rewrite Hcm. replace (d + e - 53) with (e + Zneg k) by lia. exact Hres.
Qed.

Lemma of_int_repr (x : Z) : Z.abs x < 2 ^ 53 -> of_int x = repr x.
Proof.
  intros Hx. unfold of_int, binary_normalize, repr.
  destruct x as [|p|p]; [reflexivity| |].
  - rewrite binary_round_small by (unfold canon_e; lia).
    pose proof (digits_le_53 p ltac:(lia)). unfold canon_e.
    destruct (Z.leb_spec (0 + (Zpos (digits2_pos p) - 53)) 971); [reflexivity | lia].
  - rewrite binary_round_small by (unfold canon_e; lia).
    pose proof (digits_le_53 p ltac:(lia)). unfold canon_e.
    destruct (Z.leb_spec (0 + (Zpos (digits2_pos p) - 53)) 971); [reflexivity | lia].
Qed.

Lemma pow2_val (a : Z) :
  -1022 <= a ->
  pow2 a = if a <=? 1023 then S754_finite false 4503599627370496 (a - 52)
           else S754_infinity false.
Proof.
  intros Ha. unfold pow2, binary_normalize.
  rewrite binary_round_small by (cbn; lia).
  change (canon_e 1) with (-52). change (canon_m 1) with 4503599627370496%positive.
  replace (a + -52) with (a - 52) by lia.
  destruct (Z.leb_spec (a - 52) 971), (Z.leb_spec a 1023); try lia; reflexivity.
Qed.

Lemma mul_pow2 (s : bool) (m : positive) (e e2 : Z) :
  Zpos (digits2_pos m) = 53 ->
  -1074 <= e + e2 + 52 ->
  mul (S754_finite s m e) (S754_finite false 4503599627370496 e2) =
  if e + e2 + 52 <=? 971 then S754_finite s m (e + e2 + 52) else S754_infinity s.
Proof.
  intros Hd He. unfold mul, SFmul. rewrite xorb_false_r.
  assert (Hprod : Zpos (m * 4503599627370496) = Zpos m * 2 ^ 52) by (rewrite Pos2Z.inj_mul; reflexivity).
  pose proof (digits2_pos_bounds m) as Hb. rewrite Hd in Hb. change (53 - 1) with 52 in Hb.
  rewrite (binary_round_aux_exact s _ (e + e2) 52).
  - replace (e + e2 + 52) with (e + e2 + 52) by lia.
    rewrite Hprod, Z.div_mul, Pos2Z.id by lia. reflexivity.
  - lia.
  - apply digits2_pos_unique. rewrite Hprod.
    change (53 + 52 - 1) with (52 + 52). change (53 + 52) with (53 + 52).
    rewrite !Z.pow_add_r by lia. lia.
  - rewrite Hprod. apply Z.mod_mul. lia.
  - lia.
Qed.

Lemma gt_canon (x y : positive) (a : Z) :
  Zpos x < 2 ^ 53 -> Zpos y < 2 ^ 53 -> 0 <= a ->
  gt (S754_finite false (canon_m x) (canon_e x + a))
     (S754_finite false (canon_m y) (canon_e y))
  = (Zpos y <? Zpos x * 2 ^ a).
Proof.
  intros Hx Hy Ha.
  pose proof (canon_m_val x Hx) as Hmx. pose proof (canon_m_val y Hy) as Hmy.
  pose proof (digits_le_53 x Hx) as Hdx. pose proof (digits_le_53 y Hy) as Hdy.
  pose proof (digits2_pos_bounds x) as [Hxlo Hxhi].
  pose proof (digits2_pos_bounds y) as [Hylo Hyhi].
  unfold gt, SFltb, SFcompare, canon_e.
  set (dx := Zpos (digits2_pos x)) in *. set (dy := Zpos (digits2_pos y)) in *.
  assert (Hpa : 0 < 2 ^ a) by (apply Z.pow_pos_nonneg; lia).
  destruct (Z.compare_spec (dy - 53) (dx - 53 + a)) as [Heq | Hlt | Hgt].
  - assert (Hk : 0 < 2 ^ (53 - dy)) by (apply Z.pow_pos_nonneg; lia).
    assert (Hmx' : Zpos (canon_m x) = Zpos x * 2 ^ a * 2 ^ (53 - dy)).
    { rewrite Hmx, <- Z.mul_assoc, <- Z.pow_add_r by lia. do 2 f_equal. lia. }
    change (Pos.compare_cont Eq (canon_m y) (canon_m x))
      with (Pos.compare (canon_m y) (canon_m x)).
    rewrite (Pos2Z.inj_compare (canon_m y) (canon_m x)), Hmy, Hmx'.
    destruct (Z.compare_spec (Zpos y * 2 ^ (53 - dy)) (Zpos x * 2 ^ a * 2 ^ (53 - dy)))
      as [H | H | H]; symmetry.
    + apply Z.ltb_ge. apply Z.mul_reg_r in H; lia.
    + apply Z.ltb_lt. apply Z.mul_lt_mono_pos_r in H; lia.
    + apply Z.ltb_ge. apply Z.mul_lt_mono_pos_r in H; lia.
  - symmetry. apply Z.ltb_lt.
    pose proof (Z.pow_le_mono_r 2 dy (dx - 1 + a) ltac:(lia) ltac:(lia)) as Hp.
    rewrite Z.pow_add_r in Hp by lia.
    assert (2 ^ (dx - 1) * 2 ^ a <= Zpos x * 2 ^ a) by (apply Z.mul_le_mono_nonneg_r; lia).
    lia.
  - symmetry. apply Z.ltb_ge.
    pose proof (Z.pow_le_mono_r 2 (dx + a) (dy - 1) ltac:(lia) ltac:(lia)) as Hp.
    rewrite Z.pow_add_r in Hp by lia.
    assert (Zpos x * 2 ^ a < 2 ^ dx * 2 ^ a) by (apply Z.mul_lt_mono_pos_r; lia).
    lia.
Qed.

Lemma trunc_repr (x : Z) : Z.abs x < 2 ^ 53 -> trunc (repr x) = Some x.
Proof.
  intros Hx. destruct x as [|p|p]; [reflexivity| |];
    cbn [repr trunc cond_Zopp]; f_equal;
    pose proof (digits_le_53 p ltac:(lia)) as Hd;
    unfold canon_e; rewrite Z.shiftl_div_pow2 by lia;
    rewrite canon_m_val by lia;
    replace (- (Zpos (digits2_pos p) - 53)) with (53 - Zpos (digits2_pos p)) by lia;
    (rewrite Z.div_mul by (apply Z.pow_nonzero; lia)); reflexivity.
Qed.

Lemma to_int64_repr (x : Z) : Z.abs x < 2 ^ 53 -> to_int64 (repr x) = Some x.
Proof.
  intros Hx. unfold to_int64. rewrite trunc_repr by assumption.
  unfold min_int64, max_int64.
  destruct (Z.leb_spec (- 2 ^ 63) x), (Z.leb_spec x (2 ^ 63 - 1)); try lia; reflexivity.
Qed.

(** Jitter for the draw one half is a zero. *)
Lemma jitter_half (x : Z) :
  Z.abs x < 2 ^ 53 ->
  add (repr x) (Backoff.jitter (repr x) (2 ^ 62)) = repr x.
Proof.
  intros Hx. unfold Backoff.jitter.
  replace (sub (mul (of_draw (2 ^ 62)) (of_int 2)) (of_int 1)) with (S754_zero false)
    by (vm_compute; reflexivity).
  change quarter with (S754_finite false 4503599627370496 (-54)).
  destruct x as [|p|p]; [reflexivity| |]; cbn [repr];
    pose proof (digits_le_53 p ltac:(lia)) as Hd;
    pose proof (digits2_pos_bounds p) as Hb;
    (rewrite mul_pow2 by (try apply canon_m_digits; unfold canon_e; lia));
    unfold canon_e;
    destruct (Z.leb_spec (Zpos (digits2_pos p) - 53 + -54 + 52) 971); try lia;
    reflexivity.
Qed.

Lemma pow_ge_of_digits (x : positive) (a : Z) :
  0 <= a -> 2 ^ (Zpos (digits2_pos x) - 1 + a) <= Zpos x * 2 ^ a.
Proof.
  intros Ha. pose proof (digits2_pos_bounds x) as [Hlo _].
  assert (0 < 2 ^ a) by (apply Z.pow_pos_nonneg; lia).
  rewrite Z.pow_add_r by lia. apply Z.mul_le_mono_nonneg_r; lia.
Qed.

Lemma capped_exact (minB maxB a : Z) :
  0 <= minB < 2 ^ 53 ->
  Z.abs maxB < 2 ^ 53 ->
  0 <= a ->
  0 < minB \/ a <= 1023 ->
  Backoff.capped minB maxB a = repr (Z.min (minB * 2 ^ a) maxB).
Proof.
  intros Hmin Hmax Ha Hdom.
  unfold Backoff.capped.
  rewrite (of_int_repr minB), (of_int_repr maxB) by lia.
  rewrite pow2_val by lia.
  destruct minB as [|x|x]; [| |lia].
  - (* minBackoff = 0 *)
    destruct (Z.leb_spec a 1023); [|lia].
    cbn [repr mul SFmul xorb]. rewrite Z.mul_0_l.
    destruct maxB as [|y|y]; cbn; reflexivity.
  - pose proof (digits_le_53 x ltac:(lia)) as Hdx.
    pose proof (pow_ge_of_digits x a Ha) as Hge.
    assert (Hover : 971 < canon_e x + a -> maxB < Zpos x * 2 ^ a).
    { unfold canon_e. intros Hov.
      pose proof (Z.pow_le_mono_r 2 53 (Zpos (digits2_pos x) - 1 + a) ltac:(lia) ltac:(lia)).
      lia. }
    assert (Hprod : mul (repr (Zpos x)) (if a <=? 1023
                                          then S754_finite false 4503599627370496 (a - 52)
                                          else S754_infinity false)
                    = if canon_e x + a <=? 971
                      then S754_finite false (canon_m x) (canon_e x + a)
                      else S754_infinity false).
    { destruct (Z.leb_spec a 1023).
      - cbn [repr]. rewrite mul_pow2 by (try apply canon_m_digits; unfold canon_e; lia).
        replace (canon_e x + (a - 52) + 52) with (canon_e x + a) by lia. reflexivity.
      - cbn [repr mul SFmul xorb].
        destruct (Z.leb_spec (canon_e x + a) 971); [unfold canon_e in *; lia | reflexivity]. }
    rewrite Hprod. clear Hprod.
    destruct (Z.leb_spec (canon_e x + a) 971) as [Hfin | Hinf].
    + destruct maxB as [|y|y].
      * cbn [repr gt SFltb SFcompare]. rewrite Z.min_r by lia. reflexivity.
      * cbn [repr]. rewrite gt_canon by lia.
        destruct (Z.ltb_spec (Zpos y) (Zpos x * 2 ^ a)) as [Hlt | Hle].
        -- rewrite Z.min_r by lia. reflexivity.
        -- rewrite Z.min_l by lia.
           assert (Hxa : exists z, Zpos x * 2 ^ a = Zpos z).
           { destruct (Zpos x * 2 ^ a) as [|z|z] eqn:E; [lia | now exists z | lia]. }
           destruct Hxa as (z & Hz). rewrite Hz. cbn [repr].
           assert (Hdz : Zpos (digits2_pos z) = Zpos (digits2_pos x) + a).
           { apply digits2_pos_unique. rewrite <- Hz.
             pose proof (digits2_pos_bounds x) as [_ Hhi].
             assert (0 < 2 ^ a) by (apply Z.pow_pos_nonneg; lia).
             split.
             - replace (Zpos (digits2_pos x) + a - 1) with (Zpos (digits2_pos x) - 1 + a) by lia.
               exact Hge.
             - rewrite Z.pow_add_r by lia. apply Z.mul_lt_mono_pos_r; lia. }
           assert (Hz53 : Zpos z < 2 ^ 53) by lia.
           f_equal.
           ++ apply Pos2Z.inj. rewrite !canon_m_val by lia.
              rewrite Hdz, <- Hz.
              replace (53 - Zpos (digits2_pos x)) with (a + (53 - (Zpos (digits2_pos x) + a))) by lia.
              pose proof (digits_le_53 z Hz53).
              rewrite (Z.pow_add_r 2 a) by lia. lia.
           ++ unfold canon_e. lia.
      * cbn [repr gt SFltb SFcompare]. rewrite Z.min_r by lia. reflexivity.
    + specialize (Hover ltac:(lia)).
      rewrite Z.min_r by lia.
      destruct maxB as [|y|y]; cbn; reflexivity.
Qed.

Lemma shr_general (m : positive) (e n : Z) :
  0 <= n ->
  exists r s,
    shr (Build_shr_record (Zpos m) false false) e n
    = (Build_shr_record (Zpos m / 2 ^ n) r s, e + n) /\
    (Zpos m mod 2 ^ n = 0 -> r = false /\ s = false).
Proof.
  intros Hn. destruct n as [|p|p]; [| |lia].
  - exists false, false. cbn [shr]. rewrite Z.div_1_r, Z.add_0_r. auto.
  - cbn [shr]. rewrite iter_pos_nat.
    destruct (shr_iter_spec (Pos.to_nat p) (Zpos m) ltac:(lia)) as (r & s & Heq & Hex).
    rewrite positive_nat_Z in Heq, Hex.
    exists r, s. now rewrite Heq.
Qed.

Lemma round_nearest_even_bounds (m1 : Z) (r s : bool) :
  m1 <= round_nearest_even m1 (loc_of_shr_record (Build_shr_record m1 r s)) <= m1 + 1.
Proof. destruct r, s; cbn; try destruct (Z.even m1); lia. Qed.

Lemma binary_round_aux_bounds (s : bool) (m : positive) (e n : Z) :
  0 <= n ->
  Zpos (digits2_pos m) = 53 + n ->
  -1074 <= e + n ->
  e + n + 1 <= 971 ->
  exists m' e',
    binary_round_aux prec emax s (Zpos m) e loc_Exact = S754_finite s m' e' /\
    Zpos (digits2_pos m') = 53 /\
    e + n <= e' <= e + n + 1 /\
    Zpos m / 2 ^ n <= Zpos m' * 2 ^ (e' - (e + n)) <= Zpos m / 2 ^ n + 1 /\
    (Zpos m mod 2 ^ n = 0 -> e' = e + n /\ Zpos m' = Zpos m / 2 ^ n).
Proof.
  intros Hn Hd Hlo Hhi.
  unfold binary_round_aux, shr_fexp.
  cbn [Zdigits2 shr_record_of_loc].
  rewrite Hd, fexp_normal by lia.
  replace (53 + n + e - 53 - e) with n by lia.
  destruct (shr_general m e n Hn) as (r & s0 & Hshr & Hex).
  rewrite Hshr. cbn [shr_m].
  pose proof (digits2_pos_bounds m) as Hb. rewrite Hd in Hb.
  assert (Hpn : 0 < 2 ^ n) by (apply Z.pow_pos_nonneg; lia).
  assert (Hq : 2 ^ 52 <= Zpos m / 2 ^ n < 2 ^ 53).
  { replace (53 + n - 1) with (52 + n) in Hb by lia.
    rewrite !Z.pow_add_r in Hb by lia.
    split.
    - apply Z.div_le_lower_bound; lia.
    - apply Z.div_lt_upper_bound; lia. }
  set (m1 := Zpos m / 2 ^ n) in *.
  pose proof (round_nearest_even_bounds m1 r s0) as Hr.
  assert (Hexact : Zpos m mod 2 ^ n = 0 ->
                   round_nearest_even m1 (loc_of_shr_record (Build_shr_record m1 r s0)) = m1).
  { intros Hmod. destruct (Hex Hmod) as [-> ->]. reflexivity. }
  set (m2 := round_nearest_even m1 (loc_of_shr_record (Build_shr_record m1 r s0))) in *.
  destruct (Z.eq_dec m2 (2 ^ 53)) as [Hcarry | Hnocarry].
  - rewrite Hcarry.
    change (Zdigits2 (2 ^ 53)) with 54.
    rewrite fexp_normal by lia.
    replace (54 + (e + n) - 53 - (e + n)) with 1 by lia.
    change (shr {| shr_m := 2 ^ 53; shr_r := false; shr_s := false |} (e + n) 1)
      with ({| shr_m := Zpos 4503599627370496; shr_r := false; shr_s := false |}, e + n + 1).
    cbn [shr_m].
    exists 4503599627370496%positive, (e + n + 1).
    unfold emax, prec.
    destruct (Z.leb_spec (e + n + 1) (1024 - 53)); [|lia].
    split; [reflexivity|]. split; [reflexivity|]. split; [lia|].
    replace (e + n + 1 - (e + n)) with 1 by lia.
    split; [change (Zpos 4503599627370496 * 2 ^ 1) with (2 ^ 53); lia|].
    intros Hmod. specialize (Hexact Hmod). lia.
  - destruct m2 as [|q|q] eqn:Em2; try lia.
    cbn [Zdigits2].
    assert (Hdq : Zpos (digits2_pos q) = 53)
      by (apply digits2_pos_unique; change (53 - 1) with 52; lia).
    rewrite Hdq, fexp_normal by lia.
    replace (53 + (e + n) - 53 - (e + n)) with 0 by lia.
    cbn [shr shr_m].
    exists q, (e + n).
    unfold emax, prec.
    destruct (Z.leb_spec (e + n) (1024 - 53)); [|lia].
    split; [reflexivity|]. split; [assumption|]. split; [lia|].
    rewrite Z.sub_diag, Z.mul_1_r.
    split; [lia|]. intros Hmod. specialize (Hexact Hmod). split; [reflexivity | lia].
Qed.

Lemma repr_scaled (x : Z) : repr x = scaled x 0.
Proof. now destruct x. Qed.

Lemma binary_round_scaled (s : bool) (p m : positive) (e k : Z) :
  Zpos p < 2 ^ 53 ->
  0 <= k ->
  Zpos m = Zpos p * 2 ^ k ->
  -1074 <= e + k + canon_e p <= 971 ->
  binary_round prec emax s m e = S754_finite s (canon_m p) (e + k + canon_e p).
Proof.
  intros Hp Hk Hm He.
  pose proof (digits_le_53 p Hp) as Hdp.
  pose proof (digits2_pos_bounds p) as [Hplo Hphi].
  assert (Hpk : 0 < 2 ^ k) by (apply Z.pow_pos_nonneg; lia).
  assert (Hdm : Zpos (digits2_pos m) = Zpos (digits2_pos p) + k).
  { apply digits2_pos_unique. rewrite Hm.
    replace (Zpos (digits2_pos p) + k - 1) with (Zpos (digits2_pos p) - 1 + k) by lia.
    rewrite !Z.pow_add_r by lia.
    split; [apply Z.mul_le_mono_nonneg_r | apply Z.mul_lt_mono_pos_r]; lia. }
  unfold canon_e in *.
  set (dp := Zpos (digits2_pos p)) in *.
  destruct (Z.le_gt_cases (dp + k) 53) as [Hsmall | Hbig].
  - assert (Hm53 : Zpos m < 2 ^ 53).
    { pose proof (digits2_pos_bounds m) as [_ Hhi]. rewrite Hdm in Hhi.
      pose proof (Z.pow_le_mono_r 2 (dp + k) 53 ltac:(lia) ltac:(lia)). lia. }
    rewrite binary_round_small by (unfold canon_e; lia).
    unfold canon_e. rewrite Hdm.
    destruct (Z.leb_spec (e + (dp + k - 53)) 971); [|lia].
    f_equal; [|lia].
    apply Pos2Z.inj. rewrite !canon_m_val by assumption. rewrite Hdm, Hm. fold dp.
    replace (53 - dp) with (k + (53 - (dp + k))) by lia.
    rewrite (Z.pow_add_r 2 k) by lia. lia.
  - unfold binary_round. rewrite Hdm, fexp_normal by lia.
    unfold shl_align.
    destruct (dp + k + e - 53 - e) as [|q|q] eqn:Hq; try lia.
    set (n := dp + k - 53) in *.
    assert (Hsplit : Zpos m = Zpos p * 2 ^ (53 - dp) * 2 ^ n).
    { rewrite Hm, <- Z.mul_assoc, <- Z.pow_add_r by lia. do 2 f_equal. lia. }
    assert (Hpn : 0 < 2 ^ n) by (apply Z.pow_pos_nonneg; lia).
    rewrite (binary_round_aux_exact s m e n); try lia.
    + replace (e + n) with (e + k + (dp - 53)) by lia.
      destruct (Z.leb_spec (e + k + (dp - 53)) 971); [|lia].
      f_equal. apply Pos2Z.inj. rewrite canon_m_val by assumption. fold dp.
      rewrite Z2Pos.id.
      * rewrite Hsplit, Z.div_mul by lia. reflexivity.
      * rewrite Hsplit, Z.div_mul by lia.
        apply Z.mul_pos_pos; [lia | apply Z.pow_pos_nonneg; lia].
    + rewrite Hsplit. apply Z.mod_mul. lia.
Qed.

Lemma binary_normalize_scaled (x e k : Z) :
  Z.abs x < 2 ^ 53 ->
  0 <= k ->
  -1074 <= e + k - 52 ->
  e + k <= 971 ->
  binary_normalize prec emax (x * 2 ^ k) e false = scaled x (e + k).
Proof.
  intros Hx Hk Hlo Hhi.
  assert (Hpk : 0 < 2 ^ k) by (apply Z.pow_pos_nonneg; lia).
  destruct x as [|p|p]; [reflexivity| |].
  - pose proof (digits_le_53 p ltac:(lia)). pose proof (Pos2Z.is_pos (digits2_pos p)).
    destruct (Zpos p * 2 ^ k) as [|m|m] eqn:Hm; try lia.
    cbn [binary_normalize scaled].
    apply (binary_round_scaled false p m e k); unfold canon_e; lia.
  - pose proof (digits_le_53 p ltac:(lia)). pose proof (Pos2Z.is_pos (digits2_pos p)).
    assert (Hneg : Zneg p * 2 ^ k = - (Zpos p * 2 ^ k)) by lia.
    destruct (Zpos p * 2 ^ k) as [|m|m] eqn:Hm; try lia.
    rewrite Hneg. cbn [Z.opp binary_normalize scaled].
    apply (binary_round_scaled true p m e k); unfold canon_e; lia.
Qed.



Lemma digits_between (p : positive) (lo hi : Z) :
  0 <= lo -> 2 ^ lo <= Zpos p < 2 ^ hi -> lo < Zpos (digits2_pos p) <= hi.
Proof.
  intros Hlo [H1 H2].
  pose proof (digits2_pos_bounds p) as [Hb1 Hb2].
  pose proof (Pos2Z.is_pos (digits2_pos p)).
  set (d := Zpos (digits2_pos p)) in *.
  split.
  - destruct (Z.lt_ge_cases lo d) as [|Hge]; [assumption|].
    pose proof (Z.pow_le_mono_r 2 d lo ltac:(lia) ltac:(lia)). lia.
  - destruct (Z.le_gt_cases d hi) as [|Hgt]; [assumption|].
    assert (0 <= hi).
    { destruct (Z.le_gt_cases 0 hi); [assumption|].
      rewrite (Z.pow_neg_r 2 hi) in H2 by lia. lia. }
    pose proof (Z.pow_le_mono_r 2 hi (d - 1) ltac:(lia) ltac:(lia)). lia.
Qed.

Lemma binary_round_big (s : bool) (m : positive) (e n : Z) :
  1 <= n ->
  Zpos (digits2_pos m) = 53 + n ->
  -1074 <= e + n ->
  e + n + 1 <= 971 ->
  exists m' e',
    binary_round prec emax s m e = S754_finite s m' e' /\
    Zpos (digits2_pos m') = 53 /\
    e + n <= e' <= e + n + 1 /\
    Zpos m / 2 ^ n <= Zpos m' * 2 ^ (e' - (e + n)) <= Zpos m / 2 ^ n + 1 /\
    (Zpos m mod 2 ^ n = 0 -> e' = e + n /\ Zpos m' = Zpos m / 2 ^ n).
Proof.
  intros Hn Hd Hlo Hhi.
  unfold binary_round. rewrite Hd, fexp_normal by lia. unfold shl_align.
  destruct (53 + n + e - 53 - e) as [|k|k] eqn:Hk; try lia.
  apply binary_round_aux_bounds; lia.
Qed.

(** Dividing by [1 << 63] lowers the exponent. *)
Lemma div_two63 (s : bool) (m : positive) (e : Z) :
  Zpos (digits2_pos m) = 53 ->
  -900 <= e <= 900 ->
  div (S754_finite s m e) two63 = S754_finite s m (e - 63).
Proof.
  intros Hd He. unfold div, two63, SFdiv, SFdiv_core_binary.
  cbn [Zdigits2]. rewrite Hd.
  change (Zpos (digits2_pos 4503599627370496)) with 53.
  rewrite fexp_normal by lia.
  replace (53 + e - (53 + 11) - 53) with (e - 64) by lia.
  rewrite Z.min_l by lia.
  replace (e - 11 - (e - 64)) with 53 by lia.
  rewrite Z.shiftl_mul_pow2 by lia.
  assert (Hdiv : Z.div_eucl (Zpos m * 2 ^ 53) (Zpos 4503599627370496) = (Zpos m * 2, 0)).
  { pose proof (Z.div_eucl_eq (Zpos m * 2 ^ 53) (Zpos 4503599627370496) ltac:(lia)) as Heq.
    pose proof (Z.mod_pos_bound (Zpos m * 2 ^ 53) (Zpos 4503599627370496) ltac:(lia)) as Hb.
    unfold Z.modulo in Hb.
    destruct (Z.div_eucl (Zpos m * 2 ^ 53) (Zpos 4503599627370496)) as [q r].
    change (2 ^ 53) with (4503599627370496 * 2) in Heq.
    f_equal; lia. }
  rewrite Hdiv.
  change (new_location (Zpos 4503599627370496) 0) with loc_Exact.
  rewrite xorb_false_r.
  assert (Hm2 : Zpos m * 2 = Zpos (m~0)) by lia.
  rewrite Hm2.
  rewrite (binary_round_aux_exact s (m~0) (e - 64) 1); try lia.
  - replace (e - 64 + 1) with (e - 63) by lia.
    destruct (Z.leb_spec (e - 63) 971); [|lia].
    f_equal. rewrite <- Hm2. change (2 ^ 1) with 2. rewrite Z.div_mul by lia.
    apply Pos2Z.id.
  - cbn [digits2_pos]. lia.
  - rewrite <- Hm2. change (2 ^ 1) with 2. apply Z.mod_mul. lia.
Qed.

(** The conversion of an [Int63] value. *)
Lemma of_int_shape (k : Z) :
  0 < k < 2 ^ 63 ->
  exists m e,
    of_int k = S754_finite false m e /\
    Zpos (digits2_pos m) = 53 /\
    -52 <= e <= 11 /\
    Zpos m <= 2 ^ (63 - e).
Proof.
  intros Hk. destruct k as [|p|p]; try lia.
  destruct (Z.lt_ge_cases (Zpos p) (2 ^ 53)) as [Hsmall | Hbig].
  - rewrite of_int_repr by lia. cbn [repr].
    exists (canon_m p), (canon_e p).
    pose proof (digits_le_53 p Hsmall) as Hd.
    pose proof (Pos2Z.is_pos (digits2_pos p)) as Hdpos.
    pose proof (canon_m_range p Hsmall) as Hr.
    split; [reflexivity|]. split; [apply canon_m_digits; assumption|].
    unfold canon_e. split; [lia|].
    pose proof (Z.pow_le_mono_r 2 53 (63 - (Zpos (digits2_pos p) - 53)) ltac:(lia) ltac:(lia)).
    lia.
  - pose proof (digits_between p 53 63 ltac:(lia) ltac:(lia)) as Hd.
    set (n := Zpos (digits2_pos p) - 53).
    unfold of_int. cbn [binary_normalize].
    destruct (binary_round_big false p 0 n) as (m' & e' & Heq & Hd' & He' & Hval & _);
      try (unfold n; lia).
    exists m', e'. split; [exact Heq|]. split; [exact Hd'|]. split; [unfold n in *; lia|].
    pose proof (digits2_pos_bounds p) as [_ Hphi].
    assert (Hpn : 0 < 2 ^ n) by (apply Z.pow_pos_nonneg; unfold n; lia).
    assert (Hq : Zpos p / 2 ^ n < 2 ^ 53).
    { apply Z.div_lt_upper_bound; [lia|].
      rewrite <- Z.pow_add_r by (unfold n; lia).
      replace (n + 53) with (Zpos (digits2_pos p)) by (unfold n; lia). exact Hphi. }
    set (u := e' - (0 + n)) in *.
    assert (Hu : u = 0 \/ u = 1) by lia.
    assert (Hmu : Zpos m' * 2 ^ u <= 2 ^ 53) by lia.
    assert (H53 : 2 ^ 53 = 2 ^ (53 - u) * 2 ^ u).
    { rewrite <- Z.pow_add_r by lia. f_equal. lia. }
    assert (Hpu : 0 < 2 ^ u) by (apply Z.pow_pos_nonneg; lia).
    rewrite H53 in Hmu. apply Z.mul_le_mono_pos_r in Hmu; [|assumption].
    pose proof (Z.pow_le_mono_r 2 (53 - u) (63 - e') ltac:(lia) ltac:(unfold u, n in *; lia)).
    lia.
Qed.

Lemma of_draw_zero : of_draw 0 = S754_zero false.
Proof. reflexivity. Qed.

(** One round of the random source gives a number between zero and one. *)
Lemma of_draw_shape (k : Z) :
  0 < k < 2 ^ 63 ->
  exists m e,
    of_draw k = S754_finite false m e /\
    Zpos (digits2_pos m) = 53 /\
    -115 <= e <= -52 /\
    Zpos m <= 2 ^ (- e).
Proof.
  intros Hk. destruct (of_int_shape k Hk) as (m & e & Heq & Hd & He & Hm).
  exists m, (e - 63). unfold of_draw. rewrite Heq, div_two63 by lia.
  split; [reflexivity|]. split; [exact Hd|]. split; [lia|].
  replace (- (e - 63)) with (63 - e) by lia. exact Hm.
Qed.

Lemma scaled_unit_factor (D e : Z) :
  D <> 0 ->
  -53 <= e <= -52 ->
  Z.abs D <= 2 ^ 52 ->
  unit_factor (scaled D e).
Proof.
  intros HD He Hle.
  assert (Hgen : forall (s : bool) (p : positive),
             Zpos p <= 2 ^ 52 ->
             unit_factor (S754_finite s (canon_m p) (e + canon_e p))).
  { intros s p Hp.
    assert (Hp53 : Zpos p < 2 ^ 53) by lia.
    pose proof (digits_le_53 p Hp53) as Hd.
    pose proof (Pos2Z.is_pos (digits2_pos p)) as Hdpos.
    pose proof (canon_m_val p Hp53) as Hv.
    exists s, (canon_m p), (e + canon_e p).
    split; [reflexivity|]. split; [apply canon_m_digits; assumption|].
    unfold canon_e. set (d := Zpos (digits2_pos p)) in *.
    split; [lia|].
    rewrite Hv.
    replace (- (e + (d - 53))) with (- e + (53 - d)) by lia.
    rewrite Z.pow_add_r by lia.
    apply Z.mul_le_mono_nonneg_r; [apply Z.pow_nonneg; lia|].
    pose proof (Z.pow_le_mono_r 2 52 (- e) ltac:(lia) ltac:(lia)). lia. }
  destruct D as [|p|p]; [congruence| |]; cbn [scaled]; apply Hgen; lia.
Qed.

Lemma shl_align_pow (m : positive) (e e' : Z) :
  e' <= e ->
  Zpos (fst (shl_align m e e')) = Zpos m * 2 ^ (e - e').
Proof.
  intros Hle. unfold shl_align.
  destruct (e' - e) as [|k|k] eqn:Hk; try lia; cbn [fst].
  - replace (e - e') with 0 by lia. lia.
  - rewrite iter_xO_pow. do 2 f_equal. lia.
Qed.

(** [f*2 - 1] for a number [f] between zero and one: zero, or a number of
    magnitude at most one. *)
Lemma factor_shape (m : positive) (e : Z) :
  Zpos (digits2_pos m) = 53 ->
  -115 <= e <= -52 ->
  Zpos m <= 2 ^ (- e) ->
  sub (mul (S754_finite false m e) (of_int 2)) (of_int 1) = S754_zero false \/
  unit_factor (sub (mul (S754_finite false m e) (of_int 2)) (of_int 1)).
Proof.
  intros Hd He Hm.
  pose proof (digits2_pos_bounds m) as Hbm. rewrite Hd in Hbm. change (53 - 1) with 52 in Hbm.
  change (of_int 2) with (S754_finite false 4503599627370496 (-51)).
  change (of_int 1) with (S754_finite false 4503599627370496 (-52)).
  rewrite mul_pow2 by lia.
  destruct (Z.leb_spec (e + -51 + 52) 971); [|lia].
  replace (e + -51 + 52) with (e + 1) by lia.
  unfold sub, SFsub. cbn [cond_Zopp].
  destruct (Z.le_gt_cases (-53) e) as [Hhigh | Hlow].
  - (* one half or more: the difference is exact *)
    rewrite Z.min_r by lia.
    rewrite (shl_align_pow m (e + 1) (-52)) by lia.
    rewrite (shl_align_pow 4503599627370496 (-52) (-52)) by lia.
    change (Zpos 4503599627370496 * 2 ^ (-52 - -52)) with (2 ^ 52).
    set (D := Zpos m * 2 ^ (e + 1 - -52) - 2 ^ 52).
    assert (HD : 0 <= D <= 2 ^ 52).
    { unfold D. assert (He2 : e = -53 \/ e = -52) by lia.
      destruct He2 as [-> | ->].
      - change (2 ^ (-53 + 1 - -52)) with 1. lia.
      - change (- -52) with 52 in Hm. change (2 ^ (-52 + 1 - -52)) with 2. lia. }
    destruct (Z.eq_dec D 0) as [HD0 | HD0].
    + left. rewrite HD0. reflexivity.
    + right.
      replace D with (D * 2 ^ 0) by (change (2 ^ 0) with 1; lia).
      rewrite binary_normalize_scaled by lia.
      apply scaled_unit_factor; lia.
  - right. rewrite Z.min_l by lia.
    rewrite (shl_align_pow m (e + 1) (e + 1)) by lia.
    rewrite (shl_align_pow 4503599627370496 (-52) (e + 1)) by lia.
    rewrite Z.sub_diag. change (2 ^ 0) with 1. rewrite Z.mul_1_r.
    change (Zpos 4503599627370496) with (2 ^ 52).
    rewrite <- Z.pow_add_r by lia.
    replace (52 + (-52 - (e + 1))) with (- e - 1) by lia.
    set (E := 2 ^ (- e - 1) - Zpos m).
    replace (Zpos m - 2 ^ (- e - 1)) with (- E) by (unfold E; lia).
    assert (Hpow53 : 2 ^ 53 <= 2 ^ (- e - 1))
      by (apply Z.pow_le_mono_r; lia).
    assert (HEpos : 0 < E) by (unfold E; lia).
    destruct (Z.eq_dec e (-54)) as [He54 | He54].
    + (* between a quarter and a half: exact *)
      assert (HE : E <= 2 ^ 52).
      { unfold E. rewrite He54. change (2 ^ (- -54 - 1)) with (2 * 2 ^ 52). lia. }
      replace (- E) with (- E * 2 ^ 0) by (change (2 ^ 0) with 1; lia).
      rewrite binary_normalize_scaled by lia.
      apply scaled_unit_factor; lia.
    + (* below a quarter: the difference is rounded *)
      destruct E as [|q|q] eqn:EE; try lia.
      cbn [Z.opp binary_normalize].
      assert (Hpow54 : 2 ^ 54 <= 2 ^ (- e - 1)) by (apply Z.pow_le_mono_r; lia).
      assert (Hhalf : 2 ^ (- e - 1) = 2 * 2 ^ (- e - 2)).
      { replace (- e - 1) with (1 + (- e - 2)) by lia.
        rewrite Z.pow_add_r by lia. reflexivity. }
      assert (Hq : 2 ^ (- e - 1 - 1) <= Zpos q < 2 ^ (- e - 1)).
      { replace (- e - 1 - 1) with (- e - 2) by lia.
        change (2 ^ 54) with (2 * 2 ^ 53) in Hpow54. unfold E in EE. lia. }
      assert (Hdq : Zpos (digits2_pos q) = - e - 1) by (apply digits2_pos_unique; exact Hq).
      set (n := - e - 54).
      destruct (binary_round_big true q (e + 1) n) as (m' & e' & Heq & Hd' & He' & Hval & _);
        try (unfold n; lia).
      rewrite Heq.
      exists true, m', e'. split; [reflexivity|]. split; [exact Hd'|].
      split; [unfold n in *; lia|].
      assert (Hpn : 0 < 2 ^ n) by (apply Z.pow_pos_nonneg; unfold n; lia).
      assert (Hqd : Zpos q / 2 ^ n < 2 ^ 53).
      { apply Z.div_lt_upper_bound; [lia|].
        rewrite <- Z.pow_add_r by (unfold n; lia).
        replace (n + 53) with (- e - 1) by (unfold n; lia). lia. }
      set (u := e' - (e + 1 + n)) in *.
      assert (Hu : u = 0 \/ u = 1) by lia.
      assert (Hmu : Zpos m' * 2 ^ u <= 2 ^ 53) by lia.
      assert (He'u : - e' = 53 - u) by (unfold u, n in *; lia).
      rewrite He'u.
      assert (H53 : 2 ^ 53 = 2 ^ (53 - u) * 2 ^ u).
      { rewrite <- Z.pow_add_r by lia. f_equal. lia. }
      assert (Hpu : 0 < 2 ^ u) by (apply Z.pow_pos_nonneg; lia).
      rewrite H53 in Hmu. apply Z.mul_le_mono_pos_r in Hmu; assumption.
Qed.

Lemma jitter_factor_cases (k : Z) :
  0 <= k < 2 ^ 63 ->
  sub (mul (of_draw k) (of_int 2)) (of_int 1) = S754_zero false \/
  unit_factor (sub (mul (of_draw k) (of_int 2)) (of_int 1)).
Proof.
  intros Hk. destruct (Z.eq_dec k 0) as [-> | Hk0].
  - right. exists true, 4503599627370496%positive, (-52).
    split; [reflexivity|]. split; [reflexivity|]. split; [lia|].
    change (- -52) with 52. change (2 ^ 52) with 4503599627370496. lia.
  - destruct (of_draw_shape k ltac:(lia)) as (m & e & -> & Hd & He & Hm).
    apply factor_shape; assumption.
Qed.

(** Multiplying by a factor of magnitude at most one does not increase the
    magnitude, rounding included. *)
Lemma mul_unit_factor_bound (s sg : bool) (m mg : positive) (e eg : Z) :
  Zpos (digits2_pos m) = 53 ->
  -900 <= e <= 900 ->
  Zpos (digits2_pos mg) = 53 ->
  -105 <= eg <= -52 ->
  Zpos mg <= 2 ^ (- eg) ->
  exists m' e',
    mul (S754_finite s m e) (S754_finite sg mg eg) = S754_finite (xorb s sg) m' e' /\
    Zpos (digits2_pos m') = 53 /\
    e - 53 <= e' <= e /\
    Zpos m' <= Zpos m * 2 ^ (e - e').
Proof.
  intros Hdm He Hdg Heg Hmg.
  pose proof (digits2_pos_bounds m) as Hbm. rewrite Hdm in Hbm. change (53 - 1) with 52 in Hbm.
  pose proof (digits2_pos_bounds mg) as Hbg. rewrite Hdg in Hbg. change (53 - 1) with 52 in Hbg.
  unfold mul, SFmul.
  set (P := (m * mg)%positive).
  assert (HP : Zpos P = Zpos m * Zpos mg) by (unfold P; apply Pos2Z.inj_mul).
  assert (HPr : 2 ^ 104 <= Zpos P < 2 ^ 106).
  { rewrite HP. change (2 ^ 104) with (2 ^ 52 * 2 ^ 52).
    change (2 ^ 106) with (2 ^ 53 * 2 ^ 53). split.
    - apply Z.mul_le_mono_nonneg; lia.
    - apply Z.mul_lt_mono_nonneg; lia. }
  pose proof (digits_between P 104 106 ltac:(lia) HPr) as HdP.
  set (n := Zpos (digits2_pos P) - 53).
  destruct (binary_round_aux_bounds (xorb s sg) P (e + eg) n)
    as (m' & e' & Heq & Hd' & He' & Hval & Hex); try (unfold n; lia).
  exists m', e'. split; [exact Heq|]. split; [exact Hd'|].
  pose proof (digits2_pos_bounds m') as Hbm'. rewrite Hd' in Hbm'.
  change (53 - 1) with 52 in Hbm'.
  assert (Hpn : 0 < 2 ^ n) by (apply Z.pow_pos_nonneg; unfold n; lia).
  set (u := e' - (e + eg + n)) in *.
  assert (Hu : u = 0 \/ u = 1) by lia.
  destruct (Z.eq_dec (Zpos mg) (2 ^ (- eg))) as [Hone | Hlt1].
  - (* the factor is one: the product is exact *)
    assert (Heg52 : eg = -52).
    { destruct (Z.eq_dec eg (-52)) as [|Hne]; [assumption|].
      pose proof (Z.pow_le_mono_r 2 53 (- eg) ltac:(lia) ltac:(lia)). lia. }
    rewrite Heg52 in *. change (- -52) with 52 in Hone.
    assert (HPd : Zpos (digits2_pos P) = 105).
    { apply digits2_pos_unique. rewrite HP, Hone.
      change (2 ^ (105 - 1)) with (2 ^ 52 * 2 ^ 52). change (2 ^ 105) with (2 ^ 53 * 2 ^ 52).
      split; [apply Z.mul_le_mono_nonneg_r | apply Z.mul_lt_mono_pos_r]; lia. }
    assert (Hn : n = 52) by (unfold n; lia).
    assert (Hmod : Zpos P mod 2 ^ n = 0).
    { rewrite HP, Hone, Hn. apply Z.mod_mul. lia. }
    destruct (Hex Hmod) as [He'eq Hm'eq].
    rewrite HP, Hone, Hn, Z.div_mul in Hm'eq by lia.
    assert (Hee : e - e' = 0) by lia.
    split; [lia|]. rewrite Hee. change (2 ^ 0) with 1. lia.
  - assert (Heg53 : eg <= -53).
    { destruct (Z.le_gt_cases eg (-53)); [assumption|].
      replace eg with (-52) in * by lia. change (- -52) with 52 in *. lia. }
    set (T := - eg - n).
    assert (HT : 0 <= T) by (unfold T, n; lia).
    assert (HpT : 0 < 2 ^ T) by (apply Z.pow_pos_nonneg; lia).
    assert (Hlt : Zpos P < Zpos m * 2 ^ T * 2 ^ n).
    { rewrite HP, <- Z.mul_assoc, <- Z.pow_add_r by (unfold n; lia).
      replace (T + n) with (- eg) by (unfold T; lia).
      apply Z.mul_lt_mono_pos_l; lia. }
    assert (Hdiv : Zpos P / 2 ^ n < Zpos m * 2 ^ T)
      by (apply Z.div_lt_upper_bound; lia).
    assert (Hmu : Zpos m' * 2 ^ u <= Zpos m * 2 ^ T) by lia.
    assert (HuT : u <= T).
    { destruct Hu as [Hu0 | Hu1]; [lia|].
      destruct (Z.eq_dec T 0) as [HT0|]; [|lia].
      rewrite HT0, Hu1 in Hmu. change (2 ^ 1) with 2 in Hmu. change (2 ^ 0) with 1 in Hmu. lia. }
    assert (HeT : e - e' = T - u) by (unfold u, T in *; lia).
    split; [unfold n in *; lia|]. rewrite HeT.
    assert (Hsplit : 2 ^ T = 2 ^ (T - u) * 2 ^ u).
    { rewrite <- Z.pow_add_r by lia. f_equal. lia. }
    rewrite Hsplit, Z.mul_assoc in Hmu.
    assert (0 < 2 ^ u) by (apply Z.pow_pos_nonneg; lia).
    apply Z.mul_le_mono_pos_r in Hmu; lia.
Qed.

(** Adding a jitter of magnitude at most a quarter of an integer backoff
    [b < 2^50] and truncating stays within a quarter of [b]. *)
Lemma add_jitter_bound (b : positive) (sj : bool) (m' : positive) (e' : Z) :
  Zpos b < 2 ^ 50 ->
  Zpos (digits2_pos m') = 53 ->
  canon_e b - 55 <= e' <= canon_e b - 2 ->
  Zpos m' <= Zpos (canon_m b) * 2 ^ (canon_e b - 2 - e') ->
  exists d,
    to_int64 (add (S754_finite false (canon_m b) (canon_e b)) (S754_finite sj m' e'))
    = Some d /\
    3 * Zpos b <= 4 * d + 3 /\ 4 * d <= 5 * Zpos b.
Proof.
  intros Hb Hd' He' Hm'.
  assert (Hb53 : Zpos b < 2 ^ 53) by lia.
  pose proof (canon_m_val b Hb53) as HmB.
  pose proof (canon_m_range b Hb53) as HrB.
  pose proof (Pos2Z.is_pos (digits2_pos b)) as Hdbpos.
  assert (HdB : Zpos (digits2_pos b) <= 50).
  { pose proof (digits_between b 0 50 ltac:(lia) ltac:(lia)). lia. }
  pose proof (digits2_pos_bounds m') as Hbm'. rewrite Hd' in Hbm'.
  change (53 - 1) with 52 in Hbm'.
  unfold canon_e in *. set (dB := Zpos (digits2_pos b)) in *.
  set (eB := dB - 53) in *.
  set (g0 := -2 - e').
  assert (Hg0 : 3 <= g0) by (unfold g0, eB in *; lia).
  set (Q := Zpos (canon_m b) * 2 ^ (eB - 2 - e')) in *.
  assert (HpQ : 0 < 2 ^ (eB - 2 - e')) by (apply Z.pow_pos_nonneg; lia).
  assert (HQB : Q = Zpos b * 2 ^ g0).
  { unfold Q. rewrite HmB, <- Z.mul_assoc, <- Z.pow_add_r by lia.
    do 2 f_equal. unfold g0, eB. lia. }
  assert (HQlo : 2 ^ 52 <= Q) by (unfold Q; nia).
  assert (HQhi : Q < 2 ^ (51 + eB - e')).
  { unfold Q. replace (51 + eB - e') with (53 + (eB - 2 - e')) by lia.
    rewrite Z.pow_add_r by lia. apply Z.mul_lt_mono_pos_r; lia. }
  (* the aligned sum *)
  unfold add, SFadd. rewrite Z.min_r by lia.
  assert (Hal : Zpos (fst (shl_align (canon_m b) eB e')) = 4 * Q).
  { unfold shl_align. destruct (e' - eB) as [|k|k] eqn:Hk; try lia. cbn [fst].
    rewrite iter_xO_pow. unfold Q.
    replace (Zpos k) with (2 + (eB - 2 - e')) by lia.
    rewrite Z.pow_add_r by lia. change (2 ^ 2) with 4. lia. }
  assert (Hal' : fst (shl_align m' e' e') = m').
  { unfold shl_align. now rewrite Z.sub_diag. }
  rewrite Hal, Hal'. cbn [cond_Zopp].
  set (S := 4 * Q + cond_Zopp sj (Zpos m')).
  assert (HS : 3 * Q <= S <= 5 * Q) by (unfold S; destruct sj; cbn [cond_Zopp]; lia).
  destruct S as [|sp|sp] eqn:ES; try lia.
  cbn [binary_normalize].
  assert (HSr : 2 ^ 53 <= Zpos sp < 2 ^ (54 + eB - e')).
  { split; [lia|].
    replace (54 + eB - e') with (3 + (51 + eB - e')) by lia.
    rewrite Z.pow_add_r by lia. change (2 ^ 3) with 8. lia. }
  pose proof (digits_between sp 53 (54 + eB - e') ltac:(lia) HSr) as HdS.
  set (n := Zpos (digits2_pos sp) - 53).
  assert (Hn : 1 <= n <= g0) by (unfold n, g0, eB in *; lia).
  unfold binary_round. rewrite fexp_normal by lia. unfold shl_align.
  destruct (Zpos (digits2_pos sp) + e' - 53 - e') as [|k|k] eqn:Hk; try lia.
  destruct (binary_round_aux_bounds false sp e' n)
    as (m2 & e2 & Heq & Hd2 & He2 & Hval & Hex); try (unfold n; lia).
  rewrite Heq. clear Heq.
  set (u := e2 - (e' + n)) in *.
  assert (Hu : 0 <= u <= 1) by lia.
  set (g := g0 - n).
  assert (Hg : 0 <= g) by (unfold g; lia).
  assert (Hpn : 0 < 2 ^ n) by (apply Z.pow_pos_nonneg; lia).
  assert (Hpg : 0 < 2 ^ g) by (apply Z.pow_pos_nonneg; lia).
  assert (Hpu : 0 < 2 ^ u) by (apply Z.pow_pos_nonneg; lia).
  assert (HQg : Q = Zpos b * 2 ^ g * 2 ^ n).
  { rewrite HQB, <- Z.mul_assoc, <- Z.pow_add_r by lia. do 2 f_equal. unfold g. lia. }
  set (W := Zpos m2 * 2 ^ u) in *.
  assert (HWlo : 3 * Zpos b * 2 ^ g <= W).
  { assert (3 * Zpos b * 2 ^ g <= Zpos sp / 2 ^ n); [|lia].
    apply Z.div_le_lower_bound; [lia|]. rewrite HQg in HS. lia. }
  assert (HWhi : W <= 5 * Zpos b * 2 ^ g).
  { destruct (Z.lt_ge_cases (Zpos sp / 2 ^ n) (5 * Zpos b * 2 ^ g)) as [Hlt | Hge]; [lia|].
    assert (Hsp : Zpos sp = 5 * Zpos b * 2 ^ g * 2 ^ n).
    { pose proof (Z.mul_div_le (Zpos sp) (2 ^ n) Hpn).
      pose proof (Z.mul_le_mono_nonneg_l _ _ (2 ^ n) ltac:(lia) Hge).
      rewrite HQg in HS. lia. }
    assert (Hmod : Zpos sp mod 2 ^ n = 0) by (rewrite Hsp; apply Z.mod_mul; lia).
    destruct (Hex Hmod) as [He2eq Hm2eq].
    unfold W. replace u with 0 by (unfold u; lia).
    rewrite Hm2eq, Hsp, Z.div_mul by lia. change (2 ^ 0) with 1. lia. }
  (* truncation *)
  assert (He2neg : - e2 = g + 2 - u) by (unfold u, g, g0 in *; lia).
  unfold to_int64, trunc. cbn [cond_Zopp].
  rewrite Z.shiftl_div_pow2 by lia. rewrite He2neg.
  set (d := Zpos m2 / 2 ^ (g + 2 - u)).
  assert (Hpd : 0 < 2 ^ (g + 2 - u)) by (apply Z.pow_pos_nonneg; lia).
  assert (Hd_lo : d * 2 ^ (g + 2 - u) <= Zpos m2).
  { unfold d. pose proof (Z.mul_div_le (Zpos m2) _ Hpd). lia. }
  assert (Hd_hi : Zpos m2 < (d + 1) * 2 ^ (g + 2 - u)).
  { unfold d. pose proof (Z.mul_succ_div_gt (Zpos m2) _ Hpd). lia. }
  assert (Hpow : 2 ^ (g + 2 - u) * 2 ^ u = 4 * 2 ^ g).
  { rewrite <- Z.pow_add_r by lia. replace (g + 2 - u + u) with (2 + g) by lia.
    rewrite Z.pow_add_r by lia. reflexivity. }
  assert (HdW_lo : d * (4 * 2 ^ g) <= W).
  { unfold W. rewrite <- Hpow, Z.mul_assoc. apply Z.mul_le_mono_nonneg_r; lia. }
  assert (HdW_hi : W < (d + 1) * (4 * 2 ^ g)).
  { unfold W. rewrite <- Hpow, Z.mul_assoc. apply Z.mul_lt_mono_pos_r; lia. }
  assert (Hres_hi : 4 * d <= 5 * Zpos b).
  { apply (Z.mul_le_mono_pos_r _ _ (2 ^ g)); lia. }
  assert (Hres_lo : 3 * Zpos b < 4 * d + 4).
  { apply (Z.mul_lt_mono_pos_r (2 ^ g)); lia. }
  assert (Hd0 : 0 <= d) by (apply Z.div_pos; lia).
  exists d. split; [|lia].
  unfold min_int64, max_int64.
  destruct (Z.leb_spec (- 2 ^ 63) d), (Z.leb_spec d (2 ^ 63 - 1)); try lia; reflexivity.
Qed.

Lemma of_int_below (k : Z) :
  0 < k < 2 ^ 63 - 1024 ->
  exists m e,
    of_int k = S754_finite false m e /\
    Zpos (digits2_pos m) = 53 /\
    -52 <= e <= 10.
Proof.
  intros Hk. destruct k as [|p|p]; try lia.
  destruct (Z.lt_ge_cases (Zpos p) (2 ^ 53)) as [Hsmall | Hbig].
  - rewrite of_int_repr by lia. cbn [repr].
    exists (canon_m p), (canon_e p).
    pose proof (digits_le_53 p Hsmall) as Hd.
    pose proof (Pos2Z.is_pos (digits2_pos p)) as Hdpos.
    split; [reflexivity|]. split; [apply canon_m_digits; assumption|].
    unfold canon_e. lia.
  - pose proof (digits_between p 53 63 ltac:(lia) ltac:(lia)) as Hd.
    set (n := Zpos (digits2_pos p) - 53).
    unfold of_int. cbn [binary_normalize].
    destruct (binary_round_big false p 0 n) as (m' & e' & Heq & Hd' & He' & Hval & _);
      try (unfold n; lia).
    exists m', e'. split; [exact Heq|]. split; [exact Hd'|]. split; [unfold n in *; lia|].
    destruct (Z.eq_dec n 10) as [Hn10 | Hn10]; [|unfold n in *; lia].
    rewrite Hn10 in *.
    pose proof (digits2_pos_bounds m') as Hbm'. rewrite Hd' in Hbm'.
    change (53 - 1) with 52 in Hbm'.
    assert (Hq : Zpos p / 2 ^ 10 < 2 ^ 53 - 1).
    { apply Z.div_lt_upper_bound; [lia|].
      change (2 ^ 10 * (2 ^ 53 - 1)) with (2 ^ 63 - 1024). lia. }
    destruct (Z.eq_dec e' 11) as [He11 | He11]; [|lia].
    rewrite He11 in Hval. change (2 ^ (11 - (0 + 10))) with 2 in Hval.
    change (2 ^ 53) with (2 * 2 ^ 52) in Hq. lia.
Qed.

Lemma SFeqb_lower_exponent (m : positive) (e : Z) :
  e < -52 -> SFeqb (S754_finite false m e) one = false.
Proof.
  intros He. unfold SFeqb, one. cbn [SFcompare].
  destruct (Z.compare_spec e (-52)); try lia; reflexivity.
Qed.

(** [rand.Float64] draws again when the quotient is one: this happens
    exactly for the [Int63] values from [2^63 - 512] on. *)
Lemma of_draw_is_one (k : Z) :
  0 <= k < 2 ^ 63 ->
  SFeqb (of_draw k) one = (kept_draws <=? k).
Proof.
  intros Hk. unfold kept_draws.
  destruct (Z.lt_ge_cases k (2 ^ 63 - 1024)) as [Hlow | Hhigh].
  - destruct (Z.leb_spec (2 ^ 63 - 512) k); [lia|].
    destruct (Z.eq_dec k 0) as [-> | Hk0]; [reflexivity|].
    destruct (of_int_below k ltac:(lia)) as (m & e & Heq & Hd & He).
    unfold of_draw. rewrite Heq, div_two63 by lia.
    apply SFeqb_lower_exponent. lia.
  - assert (Hall : forallb (fun i => Bool.eqb (SFeqb (of_draw (2 ^ 63 - 1024 + Z.of_nat i)) one)
                                              (2 ^ 63 - 512 <=? 2 ^ 63 - 1024 + Z.of_nat i))
                           (seq 0 1024) = true)
      by (vm_compute; reflexivity).
    rewrite forallb_forall in Hall.
    specialize (Hall (Z.to_nat (k - (2 ^ 63 - 1024)))).
    rewrite Z2Nat.id in Hall by lia.
    replace (2 ^ 63 - 1024 + (k - (2 ^ 63 - 1024))) with k in Hall by lia.
    apply eqb_prop. apply Hall. apply in_seq. lia.
Qed.

(** The conversion of an integer from [2^53] on: it is rounded, and stays
    at [2^53] or above. *)
Lemma of_int_large (k : Z) :
  2 ^ 53 <= k < 2 ^ 63 ->
  exists m e,
    of_int k = S754_finite false m e /\
    Zpos (digits2_pos m) = 53 /\
    1 <= e <= 11.
Proof.
  intros Hk. destruct k as [|p|p]; try lia.
  pose proof (digits_between p 53 63 ltac:(lia) ltac:(lia)) as Hd.
  set (n := Zpos (digits2_pos p) - 53).
  unfold of_int. cbn [binary_normalize].
  destruct (binary_round_big false p 0 n) as (m' & e' & Heq & Hd' & He' & _);
    try (unfold n; lia).
  exists m', e'. split; [exact Heq|]. split; [exact Hd'|]. unfold n in *; lia.
Qed.

(** From [2^53] on, [minBackoff] is above every [maxBackoff] that float64
    holds exactly, also after it was rounded: the cap applies. *)
Lemma capped_large_min (minB maxB a : Z) :
  2 ^ 53 <= minB < 2 ^ 63 ->
  Z.abs maxB < 2 ^ 53 ->
  0 <= a ->
  Backoff.capped minB maxB a = repr (Z.min (minB * 2 ^ a) maxB).
Proof.
  intros Hmin Hmax Ha.
  assert (Hpa : 1 <= 2 ^ a) by (pose proof (Z.pow_pos_nonneg 2 a ltac:(lia) Ha); lia).
  assert (Hprod : minB * 1 <= minB * 2 ^ a) by (apply Z.mul_le_mono_nonneg_l; lia).
  rewrite Z.min_r by lia.
  unfold Backoff.capped.
  destruct (of_int_large minB Hmin) as (m & e & -> & Hd & He).
  rewrite (of_int_repr maxB) by lia.
  rewrite pow2_val by lia.
  assert (Hgt : forall x, (x = S754_infinity false \/
                           exists e', x = S754_finite false m e' /\ 1 <= e') ->
                          gt x (repr maxB) = true).
  { intros x [-> | (e' & -> & He')].
    - destruct maxB as [|y|y]; reflexivity.
    - destruct maxB as [|y|y]; cbn [repr]; try reflexivity.
      unfold gt, SFltb. cbn [SFcompare].
      pose proof (digits_le_53 y ltac:(lia)).
      unfold canon_e.
      destruct (Z.compare_spec (Zpos (digits2_pos y) - 53) e'); try lia; reflexivity. }
  destruct (Z.leb_spec a 1023).
  - rewrite mul_pow2 by lia.
    replace (e + (a - 52) + 52) with (e + a) by lia.
    destruct (Z.leb_spec (e + a) 971).
    + rewrite Hgt; [reflexivity|]. right. exists (e + a). split; [reflexivity | lia].
    + rewrite Hgt; [reflexivity | left; reflexivity].
  - cbn [mul SFmul xorb]. rewrite Hgt; [reflexivity | left; reflexivity].
Qed.

(** The value of [backoff] after the cap is the integer
    [min (minBackoff * 2^attempt) maxBackoff] for every [minBackoff] that
    is not negative. *)
Lemma capped_repr (minB maxB a : Z) :
  0 <= minB < 2 ^ 63 ->
  Z.abs maxB < 2 ^ 53 ->
  0 <= a ->
  0 < minB \/ a <= 1023 ->
  Backoff.capped minB maxB a = repr (Z.min (minB * 2 ^ a) maxB).
Proof.
  intros Hmin Hmax Ha Hdom.
  destruct (Z.lt_ge_cases minB (2 ^ 53)).
  - apply capped_exact; lia.
  - apply capped_large_min; lia.
Qed.

(** Whatever the draw, the duration computed by [calculateBackoff] lies
    within a quarter of the capped value. *)
Lemma calculateBackoff_with_range (minB maxB a draw : Z) :
  0 <= minB < 2 ^ 63 ->
  0 <= maxB < 2 ^ 50 ->
  0 <= a ->
  0 < minB \/ a <= 1023 ->
  0 <= draw < 2 ^ 63 ->
  exists d,
    Backoff.calculateBackoff_with minB maxB a draw = Some d /\
    3 * Z.min (minB * 2 ^ a) maxB <= 4 * d + 3 /\
    4 * d <= 5 * Z.min (minB * 2 ^ a) maxB.
Proof.
  intros Hmin Hmax Ha Hdom Hdraw.
  assert (Hnn : 0 <= minB * 2 ^ a)
    by (apply Z.mul_nonneg_nonneg; [lia | apply Z.pow_nonneg; lia]).
  unfold Backoff.calculateBackoff_with, Backoff.jitter.
  rewrite capped_repr by lia.
  set (base := Z.min (minB * 2 ^ a) maxB).
  assert (Hb : 0 <= base < 2 ^ 50) by (unfold base; lia).
  change quarter with (S754_finite false 4503599627370496 (-54)).
  destruct base as [|b|b] eqn:Eb; [| |lia].
  - (* the capped value is zero *)
    exists 0. split; [|lia].
    destruct (jitter_factor_cases draw Hdraw) as [-> | (sg & mg & eg & -> & _)];
      [reflexivity | destruct sg; reflexivity].
  - cbn [repr].
    pose proof (digits_le_53 b ltac:(lia)) as Hdb.
    pose proof (Pos2Z.is_pos (digits2_pos b)) as Hdbpos.
    rewrite mul_pow2 by (try apply canon_m_digits; unfold canon_e; lia).
    assert (Hq : canon_e b + -54 + 52 <= 971) by (unfold canon_e; lia).
    apply Z.leb_le in Hq. rewrite Hq.
    replace (canon_e b + -54 + 52) with (canon_e b - 2) by lia.
    destruct (jitter_factor_cases draw Hdraw)
      as [-> | (sg & mg & eg & -> & Hdg & Heg & Hmg)].
    + cbn [mul SFmul xorb add SFadd].
      exists (Zpos b). split; [|lia].
      apply (to_int64_repr (Zpos b)). lia.
    + destruct (mul_unit_factor_bound false sg (canon_m b) mg (canon_e b - 2) eg)
        as (m' & e' & Hmul & Hd' & He' & Hm');
        [apply canon_m_digits; lia | unfold canon_e; lia
        | assumption | assumption | assumption |].
      rewrite Hmul.
      apply add_jitter_bound; try assumption; lia.
Qed.
End Float64Facts.

(* ================================================================== *)
(** ** DefaultRetryIf *)

(** C5. [DefaultRetryIf] answers true for every pair with a non-nil error,
    whatever the response (nil included); with a nil error it answers true
    exactly when there is a response whose status is at least 500 or is 429;
    it answers false otherwise, in particular for 200, 404 and 400 and when
    response and error are both nil. *)
Theorem DefaultRetryIf_spec :
  (forall resp e, DefaultRetryIf resp (Some e) = true) /\
  (forall r, DefaultRetryIf (Some r) None = true <->
             500 <= StatusCode r \/ StatusCode r = 429) /\
  DefaultRetryIf None None = false /\
  (forall b, DefaultRetryIf (Some {| StatusCode := 200; Body := b |}) None = false) /\
  (forall b, DefaultRetryIf (Some {| StatusCode := 404; Body := b |}) None = false) /\
  (forall b, DefaultRetryIf (Some {| StatusCode := 400; Body := b |}) None = false) /\
  (forall b, DefaultRetryIf (Some {| StatusCode := 500; Body := b |}) None = true) /\
  (forall b, DefaultRetryIf (Some {| StatusCode := 429; Body := b |}) None = true).
Proof.
  repeat split; try reflexivity.
  - cbn. intros H. apply orb_true_iff in H. destruct H as [H|H]; [left|right]; lia.
  - cbn. intros [H|H]; apply orb_true_iff; [left|right]; lia.
Qed.

(* ================================================================== *)
(** ** retryTransport.RoundTrip *)

(** C2. With [maxRetries = N >= 0], a predicate that always asks for a
    retry, a transport that fails on every invocation and no cancellation,
    [RoundTrip] invokes the transport exactly [N + 1] times and returns the
    outcome of the last invocation, whose error is not nil. *)
Theorem RoundTrip_exhausts_attempts (env : Env) (rt : retryTransport) (req : Request)
        (h : History) (N : Z) :
  maxRetries rt = N ->
  0 <= N ->
  base rt = network env ->
  (forall r e, retryIf rt r e = true) ->
  (forall h' r, fst (env_transport env h' r) = None /\ snd (env_transport env h' r) <> None) ->
  (forall h' c, env_ctx_err env h' c = None) ->
  (forall h' d c, env_select env h' d c = TimerFired) ->
  exists tr res,
    RoundTrip env rt req h = (res, h ++ tr) /\
    Z.of_nat (transport_calls tr) = N + 1 /\
    last_transport tr = Some res /\
    fst res = None /\ snd res <> None.
Proof.
  intros HN Hpos Hbase Hretry Hfail Hctx Hsel.
  destruct (RoundTrip_run env rt req Hbase h) as (tr & res & Heq & Hrun); [lia|].
  exists tr, res. split; [exact Heq|].
  destruct (run_exhausts env rt req h 0 tr res Hrun Hretry Hctx Hsel)
    as (Hn & Hl & h' & ->); [lia|].
  split; [lia|]. split; [exact Hl|]. apply Hfail.
Qed.

Lemma RoundTrip_exhausts_attempts_witness :
  exists tr res,
    RoundTrip Sample.env_failing Sample.rt_failing Sample.req0 [] = (res, [] ++ tr) /\
    Z.of_nat (transport_calls tr) = 2 + 1 /\
    last_transport tr = Some res /\
    fst res = None /\ snd res <> None.
Proof.
  apply (RoundTrip_exhausts_attempts Sample.env_failing Sample.rt_failing Sample.req0 [] 2).
  - reflexivity.
  - lia.
  - reflexivity.
  - reflexivity.
  - intros h' r. cbn. split; [reflexivity | discriminate].
  - reflexivity.
  - reflexivity.
Defined.

(** C3. When the context is already cancelled as [RoundTrip] is entered the
    transport is not invoked and the context's error is returned with a nil
    response; the same holds at the start of every iteration: a poll that
    sees the context cancelled ends the call, and the transport is only ever
    invoked right after a poll that saw no cancellation. *)
Theorem RoundTrip_cancelled_context (env : Env) (rt : retryTransport) (req : Request)
        (h : History) :
  0 <= maxRetries rt ->
  base rt = network env ->
  exists tr res,
    RoundTrip env rt req h = (res, h ++ tr) /\
    (forall e, env_ctx_err env h (req_ctx req) = Some e ->
               tr = [EvCtxErr (req_ctx req) (Some e)] /\
               transport_calls tr = O /\
               res = (None, Some (CtxError e))) /\
    (forall pre c e post,
        tr = pre ++ EvCtxErr c (Some e) :: post ->
        post = [] /\ res = (None, Some (CtxError e))) /\
    (forall pre r out post,
        tr = pre ++ EvTransport r out :: post ->
        exists pre', pre = pre' ++ [EvCtxErr (req_ctx req) None]).
Proof.
  intros Hmax Hbase.
  destruct (RoundTrip_run env rt req Hbase h Hmax) as (tr & res & Heq & Hrun).
  exists tr, res. split; [exact Heq|]. split; [|split].
  - intros e He. inversion Hrun; subst; try congruence.
    assert (e0 = e) by congruence. subst. auto.
  - intros pre c e post Hsplit.
    exact (run_event_ok env rt req h 0 tr res Hrun _ _ _ Hsplit).
  - intros pre r out post Hsplit.
    exact (run_event_ok env rt req h 0 tr res Hrun _ _ _ Hsplit).
Qed.

Lemma RoundTrip_cancelled_context_witness :
  exists tr res,
    RoundTrip Sample.env_cancelled (Sample.rt_default Sample.env_cancelled 3)
              Sample.req0 [] = (res, [] ++ tr) /\
    tr = [EvCtxErr Sample.ctx0 (Some Canceled)] /\
    transport_calls tr = O /\
    res = (None, Some (CtxError Canceled)).
Proof.
  destruct (RoundTrip_cancelled_context Sample.env_cancelled
              (Sample.rt_default Sample.env_cancelled 3) Sample.req0 [])
    as (tr & res & Heq & Hentry & _); [cbn; lia | reflexivity |].
  exists tr, res. split; [exact Heq|].
  apply (Hentry Canceled). reflexivity.
Defined.

(** C4. A backoff wait that the context cuts short is the last effect of
    the call: the context's error is returned and the transport is not
    invoked again; the transport has then been invoked once more than the
    executor had waited before.  With [maxRetries = 3] and the wait after
    the first attempt cut short, the transport has been invoked exactly
    once. *)
Theorem RoundTrip_cancelled_wait (env : Env) (rt : retryTransport) (req : Request)
        (h : History) :
  0 <= maxRetries rt ->
  base rt = network env ->
  exists tr res,
    RoundTrip env rt req h = (res, h ++ tr) /\
    (forall pre d c e post,
        tr = pre ++ EvSelect d c (CtxDone e) :: post ->
        post = [] /\
        res = (None, Some (CtxError e)) /\
        transport_calls tr = S (select_count pre)) /\
    (forall e,
        maxRetries rt = 3 ->
        env_ctx_err env h (req_ctx req) = None ->
        let out0 := env_transport env (h ++ [EvCtxErr (req_ctx req) None]) req in
        let h2 := h ++ [EvCtxErr (req_ctx req) None; EvTransport req out0] in
        retryIf rt (fst out0) (snd out0) = true ->
        env_select env h2 (backoff_at env rt h2 0) (req_ctx req) = CtxDone e ->
        tr = [EvCtxErr (req_ctx req) None; EvTransport req out0;
              EvSelect (backoff_at env rt h2 0) (req_ctx req) (CtxDone e)] /\
        transport_calls tr = 1%nat /\
        res = (None, Some (CtxError e))).
Proof.
  intros Hmax Hbase.
  destruct (RoundTrip_run env rt req Hbase h Hmax) as (tr & res & Heq & Hrun).
  exists tr, res. split; [exact Heq|]. split.
  - intros pre d c e post Hsplit.
    pose proof (run_calls_before_wait env rt req h 0 tr res Hrun _ _ _ _ _ Hsplit)
      as Hcalls.
    destruct (run_event_ok env rt req h 0 tr res Hrun _ _ _ Hsplit) as [Hpost Hres].
    split; [exact Hpost|]. split; [exact Hres|].
    rewrite Hsplit, transport_calls_app, Hcalls, Hpost.
    cbn. lia.
  - intros e H3 Hc out0 h2 Hr Hs.
    subst out0 h2.
    inversion Hrun; subst; try congruence.
    + match goal with
      | H : _ \/ _ |- _ => destruct H; [congruence | lia]
      end.
    + match goal with
      | H : env_select _ _ _ _ = CtxDone _ |- _ =>
        rewrite Hs in H; injection H as ->
      end.
      auto.
Qed.

Lemma RoundTrip_cancelled_wait_witness :
  exists tr res,
    RoundTrip Sample.env_cancel_in_wait (Sample.rt_default Sample.env_cancel_in_wait 3)
              Sample.req0 [] = (res, [] ++ tr) /\
    transport_calls tr = 1%nat /\
    res = (None, Some (CtxError Canceled)).
Proof.
  destruct (RoundTrip_cancelled_wait Sample.env_cancel_in_wait
              (Sample.rt_default Sample.env_cancel_in_wait 3) Sample.req0 [])
    as (tr & res & Heq & _ & Hfirst); [cbn; lia | reflexivity |].
  exists tr, res. split; [exact Heq|].
  apply (Hfirst Canceled); reflexivity.
Defined.



(** C1 (the code departs from it).  The server answers 503 with body [1];
    the context is cancelled during the backoff wait that follows.
    [RoundTrip] returns the context's error and a nil response, and body [1]
    has not been closed: the trace stops at the wait.  On the sibling path,
    where the timer fires, body [1] is closed once before the next attempt
    and only the returned response's body [5] stays open. *)
Theorem RoundTrip_cancelled_wait_leaves_body_open :
  RoundTrip Sample.env_cancel_in_wait (Sample.rt_default Sample.env_cancel_in_wait 3)
            Sample.req0 [] =
  ((None, Some (CtxError Canceled)),
   [EvCtxErr Sample.ctx0 None;
    EvTransport Sample.req0 (Some {| StatusCode := 503; Body := Some 1%nat |}, None);
    EvSelect (Some 100000000) Sample.ctx0 (CtxDone Canceled)]) /\
  close_count 1 (snd (RoundTrip Sample.env_cancel_in_wait
                        (Sample.rt_default Sample.env_cancel_in_wait 3)
                        Sample.req0 [])) = O /\
  RoundTrip Sample.env_503 (Sample.rt_default Sample.env_503 1) Sample.req0 [] =
  ((Some {| StatusCode := 503; Body := Some 5%nat |}, None),
   [EvCtxErr Sample.ctx0 None;
    EvTransport Sample.req0 (Some {| StatusCode := 503; Body := Some 1%nat |}, None);
    EvSelect (Some 100000000) Sample.ctx0 TimerFired;
    EvBodyClose 1;
    EvCtxErr Sample.ctx0 None;
    EvTransport Sample.req0 (Some {| StatusCode := 503; Body := Some 5%nat |}, None)]).
Proof. repeat split; vm_compute; reflexivity. Qed.

(* ================================================================== *)
(** ** The middleware chain *)

Lemma firstn_snoc {A} (l : list A) :
  forall i x, nth_error l i = Some x -> firstn (S i) l = firstn i l ++ [x].
Proof.
  induction l as [|a l IH]; intros [|i] x H; cbn in H; try discriminate.
  - now injection H as ->.
  - change (a :: firstn (S i) l = a :: (firstn i l ++ [x])).
    f_equal. now apply IH.
Qed.

(** The countdown loop applies the interceptors from the last to the
    first: the first one ends up outermost. *)
Lemma wrap_down_firstn (mws : list Middleware) (k : nat) :
  forall rt, (k <= List.length mws)%nat ->
             wrap_down mws k rt = fold_right (fun mw next => mw next) rt (firstn k mws).
Proof.
  induction k as [|i IH]; intros rt Hk; [reflexivity|].
  cbn [wrap_down].
  destruct (nth_error mws i) as [mw|] eqn:Hnth.
  - rewrite IH by lia. rewrite (firstn_snoc mws i mw Hnth), fold_right_app. reflexivity.
  - apply nth_error_None in Hnth. lia.
Qed.

Lemma wrap_down_all (mws : list Middleware) (rt : RoundTripper) :
  wrap_down mws (List.length mws) rt = fold_right (fun mw next => mw next) rt mws.
Proof. rewrite wrap_down_firstn by lia. now rewrite firstn_all. Qed.

Lemma add_markers_nil (req : Request) : add_markers req [] = req.
Proof. destruct req. unfold add_markers. cbn. now rewrite app_nil_r. Qed.

Lemma add_markers_cons (req : Request) (n : string) (names : list string) :
  add_markers {| Method := Method req; URL := URL req;
                 Header := Header req ++ [("X-Marker"%string, n)];
                 req_ctx := req_ctx req |} names
  = add_markers req (n :: names).
Proof. unfold add_markers. cbn. now rewrite <- app_assoc. Qed.

(** A stack of marker interceptors notes the names in declared order on the
    way in, hands the request on with the markers in that order, and notes
    the names in reverse order on the way out. *)
Lemma markers_run (inner : RoundTripper) (names : list string) :
  forall req h,
    fold_right (fun mw next => mw next) inner (map marker names) req h =
    (fst (inner (add_markers req names)
                (h ++ map (fun n => EvNote (String.append "in:" n)) names)),
     snd (inner (add_markers req names)
                (h ++ map (fun n => EvNote (String.append "in:" n)) names))
     ++ map (fun n => EvNote (String.append "out:" n)) (rev names)).
Proof.
  induction names as [|n names IH]; intros req h.
  - cbn [map fold_right rev]. rewrite add_markers_nil, !app_nil_r.
    now destruct (inner req h).
  - cbn [map fold_right]. unfold marker at 1. unfold bind, emit, ret.
    rewrite IH, add_markers_cons. cbn [fst snd rev].
    rewrite map_app, <- !app_assoc. reflexivity.
Qed.

(** C8. [buildMiddlewareChain] puts the retry executor around the base
    transport exactly when [MaxRetries > 0], as the innermost layer; wraps
    it with the interceptors so that the first declared is outermost (it
    runs first on the way in and last on the way out, and its marker comes
    first in the request the inner layer receives); and returns the result
    inside a [middlewareTransport], whose [RoundTrip] hands the request to
    the wrapped transport and returns its result unchanged. *)
Theorem buildMiddlewareChain_spec (env : Env) (base0 : RoundTripper) (opts : Options) :
  buildMiddlewareChain env base0 opts =
    middlewareTransport_RoundTrip
      {| mt_base := fold_right (fun mw next => mw next)
                               (retry_layer env base0 opts) (Middlewares opts) |} /\
  (retry_layer env base0 opts =
     if 0 <? MaxRetries opts
     then RoundTrip env {| base := base0;
                           maxRetries := MaxRetries opts;
                           minBackoff := RetryMinBackoff opts;
                           maxBackoff := RetryMaxBackoff opts;
                           retryIf := match RetryIf opts with
                                      | Some f => f
                                      | None => DefaultRetryIf
                                      end |}
     else base0) /\
  (forall (mt : middlewareTransport) req h,
      middlewareTransport_RoundTrip mt req h = mt_base mt req h) /\
  (forall (names : list string) req h,
      buildMiddlewareChain env base0 (with_middlewares opts (map marker names)) req h =
      (fst (retry_layer env base0 opts (add_markers req names)
              (h ++ map (fun n => EvNote (String.append "in:" n)) names)),
       snd (retry_layer env base0 opts (add_markers req names)
              (h ++ map (fun n => EvNote (String.append "in:" n)) names))
       ++ map (fun n => EvNote (String.append "out:" n)) (rev names))).
Proof.
  split; [|split; [|split]].
  - unfold buildMiddlewareChain. rewrite wrap_down_all. reflexivity.
  - unfold retry_layer. rewrite Z.gtb_ltb. reflexivity.
  - reflexivity.
  - intros names req h.
    unfold buildMiddlewareChain. rewrite wrap_down_all.
    unfold middlewareTransport_RoundTrip. cbn [mt_base with_middlewares Middlewares].
    apply (markers_run (retry_layer env base0 opts) names req h).
Qed.

(** C9. [TimeoutMiddleware] derives a context from the request's own, whose
    deadline is the earlier of the parent's and [now + timeout]; hands to
    the next transport a copy of the request that differs from the original
    in its context only; returns what the next transport returns, whatever
    that is; and calls the derived context's cancel function once, after the
    next transport has returned. *)
Theorem TimeoutMiddleware_spec (env : Env) (timeout : Duration) (next : RoundTripper)
        (req : Request) (h : History) :
  let now := env_now env h in
  let deadline := match Deadline (req_ctx req) with
                  | Some cur => Z.min cur (now + timeout)
                  | None => now + timeout
                  end in
  let child := {| ctx_id := S (List.length h); Deadline := Some deadline |} in
  let h1 := h ++ [EvWithTimeout (req_ctx req) timeout now child] in
  let req' := WithContext req child in
  TimeoutMiddleware env timeout next req h =
    (fst (next req' h1), snd (next req' h1) ++ [EvCancel child]) /\
  req_ctx req' = child /\
  Method req' = Method req /\ URL req' = URL req /\ Header req' = Header req.
Proof.
  cbv zeta. split; [|repeat split].
  unfold TimeoutMiddleware, RoundTripFunc_RoundTrip, bind, context_WithTimeout, emit, ret.
  assert (Hmin : forall cur d, (if cur <? d then cur else d) = Z.min cur d).
  { intros cur d. destruct (Z.ltb_spec cur d); lia. }
  destruct (Deadline (req_ctx req)) as [cur|]; rewrite ?Hmin;
    now destruct (next _ _).
Qed.

(* ================================================================== *)
(** ** retryTransport.calculateBackoff *)

Lemma min_scaled_mono (minB maxB a a' : Z) :
  0 <= minB -> 0 <= a <= a' ->
  Z.min (minB * 2 ^ a) maxB <= Z.min (minB * 2 ^ a') maxB.
Proof.
  intros Hmin Ha.
  pose proof (Z.pow_le_mono_r 2 a a' ltac:(lia) ltac:(lia)) as Hp.
  pose proof (Z.mul_le_mono_nonneg_l _ _ minB Hmin Hp). lia.
Qed.

(** With the jitter draw one half the jitter is zero and [calculateBackoff]
    returns the capped value itself. *)
Lemma calculateBackoff_half (minB maxB a : Z) :
  0 <= minB < 2 ^ 53 ->
  Z.abs maxB < 2 ^ 53 ->
  0 <= a ->
  0 < minB \/ a <= 1023 ->
  Backoff.calculateBackoff_with minB maxB a (2 ^ 62)
  = Some (Z.min (minB * 2 ^ a) maxB).
Proof.
  intros Hmin Hmax Ha Hdom.
  assert (Hbase : Z.abs (Z.min (minB * 2 ^ a) maxB) < 2 ^ 53).
  { assert (0 <= minB * 2 ^ a) by (apply Z.mul_nonneg_nonneg; [lia | apply Z.pow_nonneg; lia]).
    lia. }
  unfold Backoff.calculateBackoff_with.
  rewrite Float64Facts.capped_exact by assumption.
  rewrite Float64Facts.jitter_half by assumption.
  now apply Float64Facts.to_int64_repr.
Qed.

(** C6 (amended).  For [0 <= minBackoff < 2^53], [|maxBackoff| < 2^53] and
    attempt indices that are not negative and, when [minBackoff = 0], at
    most 1023: the value of [backoff] before the jitter is exactly the
    integer [min (minBackoff * 2^attempt) maxBackoff]; with the jitter draw
    one half (a jitter of zero) [calculateBackoff] returns that integer; it
    does not decrease when the attempt index grows and it is [maxBackoff]
    once [minBackoff * 2^attempt] has reached it.  With 100ms and 200ms,
    attempt 5 gives 200ms. *)
Theorem calculateBackoff_base (minB maxB : Z) :
  0 <= minB < 2 ^ 53 ->
  Z.abs maxB < 2 ^ 53 ->
  (forall a,
      0 <= a -> 0 < minB \/ a <= 1023 ->
      Backoff.capped minB maxB a = Float64.of_int (Z.min (minB * 2 ^ a) maxB) /\
      Float64.trunc (Backoff.capped minB maxB a) = Some (Z.min (minB * 2 ^ a) maxB) /\
      Backoff.calculateBackoff_with minB maxB a (2 ^ 62)
      = Some (Z.min (minB * 2 ^ a) maxB) /\
      (maxB <= minB * 2 ^ a -> Float64.trunc (Backoff.capped minB maxB a) = Some maxB)) /\
  (forall a a',
      0 <= a <= a' -> 0 < minB \/ a' <= 1023 ->
      exists b b',
        Float64.trunc (Backoff.capped minB maxB a) = Some b /\
        Float64.trunc (Backoff.capped minB maxB a') = Some b' /\
        b <= b' /\ b' <= maxB) /\
  Float64.trunc (Backoff.capped 100000000 200000000 5) = Some 200000000.
Proof.
  intros Hmin Hmax.
  assert (Hbase : forall a, 0 <= a -> Z.abs (Z.min (minB * 2 ^ a) maxB) < 2 ^ 53).
  { intros a Ha.
    assert (0 <= minB * 2 ^ a) by (apply Z.mul_nonneg_nonneg; [lia | apply Z.pow_nonneg; lia]).
    lia. }
  assert (Htr : forall a, 0 <= a -> 0 < minB \/ a <= 1023 ->
                          Float64.trunc (Backoff.capped minB maxB a)
                          = Some (Z.min (minB * 2 ^ a) maxB)).
  { intros a Ha Hdom.
    rewrite Float64Facts.capped_exact by assumption.
    apply Float64Facts.trunc_repr. now apply Hbase. }
  split; [|split].
  - intros a Ha Hdom. split; [|split; [|split]].
    + rewrite Float64Facts.capped_exact by assumption.
      symmetry. apply Float64Facts.of_int_repr. now apply Hbase.
    + now apply Htr.
    + now apply calculateBackoff_half.
    + intros Hsat. rewrite Htr by assumption. f_equal. lia.
  - intros a a' Ha Hdom.
    exists (Z.min (minB * 2 ^ a) maxB), (Z.min (minB * 2 ^ a') maxB).
    split; [apply Htr; lia|]. split; [apply Htr; lia|].
    split; [apply min_scaled_mono; lia | lia].
  - vm_compute. reflexivity.
Qed.

Lemma calculateBackoff_base_witness :
  Backoff.capped 100000000 200000000 0 = Float64.of_int (Z.min (100000000 * 2 ^ 0) 200000000) /\
  Backoff.calculateBackoff_with 100000000 200000000 0 (2 ^ 62)
  = Some (Z.min (100000000 * 2 ^ 0) 200000000).
Proof.
  destruct (calculateBackoff_base 100000000 200000000) as (Hall & _ & _);
    [lia | cbn; lia |].
  destruct (Hall 0) as (H1 & _ & H3 & _); [lia | lia |].
  split; [exact H1 | exact H3].
Defined.

(** C6 as stated fails outside that range: with [minBackoff = 0] at attempt
    1024 the power of two is [+Inf], the product is NaN and passes the cap;
    a [minBackoff] or a [maxBackoff] of [2^53 + 1] nanoseconds is rounded by
    the conversion to [float64]. *)
Lemma calculateBackoff_base_not_all_inputs :
  Backoff.capped 0 200000000 1024 = S754_nan /\
  Backoff.capped 0 200000000 1024 <> Float64.of_int (Z.min (0 * 2 ^ 1024) 200000000) /\
  Backoff.calculateBackoff_with 0 200000000 1024 (2 ^ 62) = None /\
  Float64.trunc (Backoff.capped 9007199254740993 (2 ^ 62) 0) = Some 9007199254740992 /\
  Z.min (9007199254740993 * 2 ^ 0) (2 ^ 62) = 9007199254740993 /\
  Float64.trunc (Backoff.capped 1 9007199254740993 60) = Some 9007199254740992 /\
  Z.min (1 * 2 ^ 60) 9007199254740993 = 9007199254740993.
Proof.
  split; [vm_compute; reflexivity|].
  split; [vm_compute; discriminate|].
  repeat split; vm_compute; reflexivity.
Qed.

(** C7 (amended).  For every [minBackoff] that is not negative,
    [0 <= maxBackoff < 2^50], attempt indices that are not negative and,
    when [minBackoff = 0], at most 1023, and every draw of the random
    source (every value of [Int63], whose quotient by [2^63] is the draw),
    [calculateBackoff] returns a duration [d] with
    [floor (0.75 * base) <= d <= 1.25 * base], where [base] is the capped
    value before the jitter; so [d] is not negative.  The result is not
    clamped again: it stays within [1.25 * maxBackoff], and reaches it (250ms
    for a cap of 200ms, with the draw [1 - 2^-53]). *)
Theorem calculateBackoff_jitter_bounds (minB maxB a draw : Z) :
  0 <= minB < 2 ^ 63 ->
  0 <= maxB < 2 ^ 50 ->
  0 <= a ->
  0 < minB \/ a <= 1023 ->
  0 <= draw < 2 ^ 63 ->
  (exists d,
      Backoff.calculateBackoff_with minB maxB a draw = Some d /\
      3 * Z.min (minB * 2 ^ a) maxB <= 4 * d + 3 /\
      4 * d <= 5 * Z.min (minB * 2 ^ a) maxB /\
      0 <= d /\
      4 * d <= 5 * maxB) /\
  (2 ^ 63 - 1024 < Float64.kept_draws /\
   Backoff.calculateBackoff_with 100000000 200000000 5 (2 ^ 63 - 1024) = Some 250000000).
Proof.
  intros Hmin Hmax Ha Hdom Hdraw.
  split; [|split; vm_compute; reflexivity].
  assert (Hnn : 0 <= minB * 2 ^ a)
    by (apply Z.mul_nonneg_nonneg; [lia | apply Z.pow_nonneg; lia]).
  destruct (Float64Facts.calculateBackoff_with_range minB maxB a draw Hmin Hmax Ha Hdom Hdraw)
    as (d & Heq & Hlo & Hhi).
  exists d. repeat split; try assumption; lia.
Qed.

Lemma calculateBackoff_jitter_bounds_witness :
  exists d,
    Backoff.calculateBackoff_with 100000000 200000000 5 0 = Some d /\
    3 * Z.min (100000000 * 2 ^ 5) 200000000 <= 4 * d + 3 /\
    4 * d <= 5 * Z.min (100000000 * 2 ^ 5) 200000000 /\
    0 <= d /\
    4 * d <= 5 * 200000000.
Proof.
  destruct (calculateBackoff_jitter_bounds 100000000 200000000 5 0) as [H _];
    try lia; exact H.
Defined.

(** C7 as stated fails: a negative [maxBackoff] caps the value below zero
    and the result is negative; the conversion to [time.Duration] drops the
    fraction, so that a base of one nanosecond gives zero, below three
    quarters of the base; with a [maxBackoff] of [2^52 + 3] nanoseconds the
    sum is rounded to an even integer above [1.25 * base]; and with
    [maxBackoff] the largest [int64] the jittered value leaves [int64],
    where the conversion has no defined result. *)
Lemma calculateBackoff_jitter_not_all_inputs :
  (exists d, Backoff.calculateBackoff_with 100 (-100) 0 (2 ^ 62) = Some d /\ d < 0) /\
  (exists d, Backoff.calculateBackoff_with 1 1000000000 0 0 = Some d /\
             4 * d < 3 * Z.min (1 * 2 ^ 0) 1000000000) /\
  (exists d, Backoff.calculateBackoff_with (2 ^ 52 + 3) (2 ^ 52 + 3) 0 (2 ^ 63 - 1024) = Some d /\
             5 * Z.min ((2 ^ 52 + 3) * 2 ^ 0) (2 ^ 52 + 3) < 4 * d) /\
  Backoff.calculateBackoff_with 1 (2 ^ 63 - 1) 63 (2 ^ 63 - 1024) = None.
Proof.
  split; [|split; [|split]].
  - exists (-100). split; [vm_compute; reflexivity | lia].
  - exists 0. split; [vm_compute; reflexivity | vm_compute; reflexivity].
  - exists 5629499534213124. split; [vm_compute; reflexivity | vm_compute; reflexivity].
  - vm_compute. reflexivity.
Qed.

(* ================================================================== *)
(** ** The retry executor: bounds, final outcomes and bodies *)

Lemma select_count_app (l1 l2 : list event) :
  select_count (l1 ++ l2) = (select_count l1 + select_count l2)%nat.
Proof. unfold select_count. now rewrite filter_app, length_app. Qed.

Lemma select_count_close_events (out : Outcome) :
  select_count (close_events out) = O.
Proof.
  unfold close_events.
  destruct (fst out) as [resp|]; [destruct (Body resp)|]; reflexivity.
Qed.

Section RunBounds.
Variables (env : Env) (rt : retryTransport) (req : Request).

Lemma run_calls_bound h a tr res :
  run env rt req h a tr res ->
  a <= maxRetries rt ->
  Z.of_nat (transport_calls tr) <= maxRetries rt - a + 1 /\
  Z.of_nat (select_count tr) <= maxRetries rt - a /\
  (select_count tr <= transport_calls tr <= select_count tr + 1)%nat.
Proof.
  induction 1 as [h a e Hc | h a out Hc Ho Hlast
                  | h a out d e Hc Ho Hr Ha Hd Hs
                  | h a out d tr res Hc Ho Hr Ha Hd Hs Hrun IH];
    intros Hle.
  - cbn. lia.
  - cbn. lia.
  - cbn. lia.
  - destruct IH as (IH1 & IH2 & IH3); [lia|].
    rewrite !transport_calls_app, !select_count_app,
      transport_calls_close_events, select_count_close_events.
    cbn [transport_calls select_count filter is_transport is_select List.length].
    lia.
Qed.

(** An outcome the predicate does not want retried ends the call at once. *)
Lemma run_no_retry_is_final h a tr res :
  run env rt req h a tr res ->
  forall pre r out post,
    tr = pre ++ EvTransport r out :: post ->
    retryIf rt (fst out) (snd out) = false ->
    post = [] /\ res = out.
Proof.
  induction 1 as [h a e Hc | h a out Hc Ho Hlast
                  | h a out d e Hc Ho Hr Ha Hd Hs
                  | h a out d tr res Hc Ho Hr Ha Hd Hs Hrun IH];
    intros pre r0 out0 post Hsplit Hno.
  - destruct pre as [|p pre]; cbn in Hsplit; [discriminate|].
    injection Hsplit as _ Hsplit. now destruct pre.
  - destruct pre as [|p pre]; cbn in Hsplit; [discriminate|].
    injection Hsplit as <- Hsplit.
    destruct pre as [|p pre]; cbn in Hsplit.
    + injection Hsplit as <- <- <-. auto.
    + injection Hsplit as _ Hsplit. now destruct pre.
  - destruct pre as [|p pre]; cbn in Hsplit; [discriminate|].
    injection Hsplit as <- Hsplit.
    destruct pre as [|p pre]; cbn in Hsplit.
    + injection Hsplit as <- <- _. congruence.
    + injection Hsplit as <- Hsplit.
      destruct pre as [|p pre]; cbn in Hsplit; [discriminate|].
      injection Hsplit as _ Hsplit. now destruct pre.
  - destruct pre as [|p pre]; cbn in Hsplit; [discriminate|].
    injection Hsplit as <- Hsplit.
    destruct pre as [|p pre]; cbn in Hsplit.
    + injection Hsplit as <- <- _. congruence.
    + injection Hsplit as <- Hsplit.
      destruct pre as [|p pre]; cbn in Hsplit; [discriminate|].
      injection Hsplit as <- Hsplit.
      apply app_split_cases in Hsplit.
      destruct Hsplit as [(post1 & Hcl & _) | (pre2 & -> & Htr)].
      * apply close_events_split in Hcl. destruct Hcl as (b & Hb & _). discriminate.
      * exact (IH _ _ _ _ Htr Hno).
Qed.

(** An outcome the predicate wants retried is only returned by the last
    attempt. *)
Lemma run_retry_outcome_last h a tr res :
  run env rt req h a tr res ->
  a <= maxRetries rt ->
  forall pre r, tr = pre ++ [EvTransport r res] ->
    retryIf rt (fst res) (snd res) = true ->
    Z.of_nat (transport_calls tr) = maxRetries rt - a + 1.
Proof.
  induction 1 as [h a e Hc | h a out Hc Ho Hlast
                  | h a out d e Hc Ho Hr Ha Hd Hs
                  | h a out d tr res Hc Ho Hr Ha Hd Hs Hrun IH];
    intros Hle pre r0 Hsplit Hyes.
  - destruct pre as [|p pre]; cbn in Hsplit; [discriminate|].
    injection Hsplit as _ Hsplit. now destruct pre.
  - destruct Hlast as [Hf | ->]; [congruence|]. cbn. lia.
  - destruct pre as [|p pre]; cbn in Hsplit; [discriminate|].
    injection Hsplit as <- Hsplit.
    destruct pre as [|p pre]; cbn in Hsplit; [discriminate|].
    injection Hsplit as <- Hsplit.
    destruct pre as [|p pre]; cbn in Hsplit; [discriminate|].
    injection Hsplit as _ Hsplit. now destruct pre.
  - destruct (run_result env rt req _ _ _ _ Hrun)
      as [(pre1 & e & Htr & ->) | [(pre1 & d1 & e & Htr & ->) | (pre1 & Htr)]].
    + exfalso. rewrite Htr in Hsplit.
      rewrite !app_assoc in Hsplit. apply app_inj_tail in Hsplit.
      destruct Hsplit as [_ Hsplit]. discriminate.
    + exfalso. rewrite Htr in Hsplit.
      rewrite !app_assoc in Hsplit. apply app_inj_tail in Hsplit.
      destruct Hsplit as [_ Hsplit]. discriminate.
    + specialize (IH ltac:(lia) _ _ Htr Hyes).
      rewrite !transport_calls_app, transport_calls_close_events.
      change (transport_calls [EvCtxErr (req_ctx req) None; EvTransport req out;
                               EvSelect d (req_ctx req) TimerFired]) with 1%nat.
      lia.
Qed.
End RunBounds.

Lemma close_events_body (out : Outcome) pre b post :
  close_events out = pre ++ EvBodyClose b :: post ->
  pre = [] /\ post = [] /\ exists resp, fst out = Some resp /\ Body resp = Some b.
Proof.
  unfold close_events.
  destruct (fst out) as [resp|]; [destruct (Body resp) as [b0|] eqn:Hb|]; intros H.
  - destruct pre as [|p pre]; cbn in H.
    + injection H as <- <-. repeat split. now exists resp.
    + injection H as _ H. now destruct pre.
  - now destruct pre.
  - now destruct pre.
Qed.

Section RunBodies.
Variables (env : Env) (rt : retryTransport) (req : Request).

Lemma run_starts_with_poll h a tr res :
  run env rt req h a tr res ->
  exists ce tr', tr = EvCtxErr (req_ctx req) ce :: tr'.
Proof. destruct 1; cbn; eauto. Qed.

(** A body is closed only right after a wait that ran to its end, and it
    is the body of the response received just before that wait; the next
    effect is the poll of the following attempt. *)
Lemma run_close_origin h a tr res :
  run env rt req h a tr res ->
  forall pre b post,
    tr = pre ++ EvBodyClose b :: post ->
    exists pre' resp err d,
      pre = pre' ++ [EvTransport req (Some resp, err);
                     EvSelect d (req_ctx req) TimerFired] /\
      Body resp = Some b /\
      exists ce post', post = EvCtxErr (req_ctx req) ce :: post'.
Proof.
  induction 1 as [h a e Hc | h a out Hc Ho Hlast
                  | h a out d e Hc Ho Hr Ha Hd Hs
                  | h a out d tr res Hc Ho Hr Ha Hd Hs Hrun IH];
    intros pre b post Hsplit.
  - destruct pre as [|p pre]; cbn in Hsplit; [discriminate|].
    injection Hsplit as _ Hsplit. now destruct pre.
  - destruct pre as [|p pre]; cbn in Hsplit; [discriminate|].
    injection Hsplit as <- Hsplit.
    destruct pre as [|p pre]; cbn in Hsplit; [discriminate|].
    injection Hsplit as _ Hsplit. now destruct pre.
  - destruct pre as [|p pre]; cbn in Hsplit; [discriminate|].
    injection Hsplit as <- Hsplit.
    destruct pre as [|p pre]; cbn in Hsplit; [discriminate|].
    injection Hsplit as <- Hsplit.
    destruct pre as [|p pre]; cbn in Hsplit; [discriminate|].
    injection Hsplit as _ Hsplit. now destruct pre.
  - destruct pre as [|p pre]; cbn in Hsplit; [discriminate|].
    injection Hsplit as <- Hsplit.
    destruct pre as [|p pre]; cbn in Hsplit; [discriminate|].
    injection Hsplit as <- Hsplit.
    destruct pre as [|p pre]; cbn in Hsplit; [discriminate|].
    injection Hsplit as <- Hsplit.
    apply app_split_cases in Hsplit.
    destruct Hsplit as [(post1 & Hcl & Hpost) | (pre2 & -> & Htr)].
    + apply close_events_body in Hcl.
      destruct Hcl as (-> & -> & resp & Hresp & Hbody).
      destruct out as [r0 err]. cbn in Hresp. subst r0.
      exists [EvCtxErr (req_ctx req) None], resp, err, d.
      split; [reflexivity|]. split; [assumption|].
      cbn in Hpost. subst post.
      exact (run_starts_with_poll _ _ _ _ Hrun).
    + destruct (IH _ _ _ Htr) as (pre' & resp & err & d' & -> & Hb & Hnext).
      exists (EvCtxErr (req_ctx req) None :: EvTransport req out
                :: EvSelect d (req_ctx req) TimerFired :: close_events out ++ pre'),
        resp, err, d'.
      split; [cbn; now rewrite <- app_assoc|]. auto.
Qed.

(** After a wait that ran to its end the response received before it is
    closed, and then the next attempt starts with a poll. *)
Lemma run_timer_then_close h a tr res :
  run env rt req h a tr res ->
  forall pre r out d c post,
    tr = pre ++ EvTransport r out :: EvSelect d c TimerFired :: post ->
    exists ce post', post = close_events out ++ EvCtxErr (req_ctx req) ce :: post'.
Proof.
  induction 1 as [h a e Hc | h a out Hc Ho Hlast
                  | h a out d e Hc Ho Hr Ha Hd Hs
                  | h a out d tr res Hc Ho Hr Ha Hd Hs Hrun IH];
    intros pre r0 out0 d0 c0 post Hsplit.
  - destruct pre as [|p pre]; cbn in Hsplit; [discriminate|].
    injection Hsplit as _ Hsplit. now destruct pre.
  - destruct pre as [|p pre]; cbn in Hsplit; [discriminate|].
    injection Hsplit as <- Hsplit.
    destruct pre as [|p pre]; cbn in Hsplit; [discriminate|].
    injection Hsplit as _ Hsplit. now destruct pre.
  - destruct pre as [|p pre]; cbn in Hsplit; [discriminate|].
    injection Hsplit as <- Hsplit.
    destruct pre as [|p pre]; cbn in Hsplit; [discriminate|].
    injection Hsplit as <- Hsplit.
    destruct pre as [|p pre]; cbn in Hsplit; [discriminate|].
    injection Hsplit as _ Hsplit. now destruct pre.
  - destruct pre as [|p pre]; cbn in Hsplit; [discriminate|].
    injection Hsplit as <- Hsplit.
    destruct pre as [|p pre]; cbn in Hsplit.
    + injection Hsplit as <- <- <- <- <-.
      destruct (run_starts_with_poll _ _ _ _ Hrun) as (ce & tr' & ->).
      now exists ce, tr'.
    + injection Hsplit as <- Hsplit.
      destruct pre as [|p pre]; cbn in Hsplit; [discriminate|].
      injection Hsplit as <- Hsplit.
      apply app_split_cases in Hsplit.
      destruct Hsplit as [(post1 & Hcl & _) | (pre2 & -> & Htr)].
      * apply close_events_split in Hcl. destruct Hcl as (b & Hb & _). discriminate.
      * exact (IH _ _ _ _ _ _ Htr).
Qed.
End RunBodies.

Section RunWaits.
Variables (env : Env) (rt : retryTransport) (req : Request).
Hypothesis min_range : 0 <= minBackoff rt < 2 ^ 63.
Hypothesis max_range : 0 <= maxBackoff rt < 2 ^ 50.
Hypothesis pow_range : 0 < minBackoff rt \/ maxRetries rt <= 1024.

Lemma backoff_at_range h a :
  0 <= a < maxRetries rt ->
  exists v, backoff_at env rt h a = Some v /\ 0 <= v /\ 4 * v <= 5 * maxBackoff rt.
Proof.
  intros Ha. unfold backoff_at.
  assert (Hdraw : 0 <= env_rand env h mod Float64.kept_draws < 2 ^ 63).
  { pose proof (Z.mod_pos_bound (env_rand env h) Float64.kept_draws
                                ltac:(unfold Float64.kept_draws; lia)) as Hd.
    assert (Float64.kept_draws < 2 ^ 63) by (unfold Float64.kept_draws; lia).
    lia. }
  destruct (Float64Facts.calculateBackoff_with_range (minBackoff rt) (maxBackoff rt) a
              (env_rand env h mod Float64.kept_draws)) as (v & Hv & Hlo & Hhi); try lia.
  assert (0 <= minBackoff rt * 2 ^ a)
    by (apply Z.mul_nonneg_nonneg; [lia | apply Z.pow_nonneg; lia]).
  exists v. split; [exact Hv | lia].
Qed.

Lemma run_waits_bounded h a tr res :
  run env rt req h a tr res ->
  0 <= a <= maxRetries rt ->
  forall pre d c w post,
    tr = pre ++ EvSelect d c w :: post ->
    exists v, d = Some v /\ 0 <= v /\ 4 * v <= 5 * maxBackoff rt.
Proof.
  induction 1 as [h a e Hc | h a out Hc Ho Hlast
                  | h a out d e Hc Ho Hr Ha Hd Hs
                  | h a out d tr res Hc Ho Hr Ha Hd Hs Hrun IH];
    intros Hle pre d0 c0 w0 post Hsplit.
  - destruct pre as [|p pre]; cbn in Hsplit; [discriminate|].
    injection Hsplit as _ Hsplit. now destruct pre.
  - destruct pre as [|p pre]; cbn in Hsplit; [discriminate|].
    injection Hsplit as <- Hsplit.
    destruct pre as [|p pre]; cbn in Hsplit; [discriminate|].
    injection Hsplit as _ Hsplit. now destruct pre.
  - destruct pre as [|p pre]; cbn in Hsplit; [discriminate|].
    injection Hsplit as <- Hsplit.
    destruct pre as [|p pre]; cbn in Hsplit; [discriminate|].
    injection Hsplit as <- Hsplit.
    destruct pre as [|p pre]; cbn in Hsplit.
    + injection Hsplit as <- _ _ _. rewrite Hd. apply backoff_at_range. lia.
    + injection Hsplit as _ Hsplit. now destruct pre.
  - destruct pre as [|p pre]; cbn in Hsplit; [discriminate|].
    injection Hsplit as <- Hsplit.
    destruct pre as [|p pre]; cbn in Hsplit; [discriminate|].
    injection Hsplit as <- Hsplit.
    destruct pre as [|p pre]; cbn in Hsplit.
    + injection Hsplit as <- _ _ _. rewrite Hd. apply backoff_at_range. lia.
    + injection Hsplit as <- Hsplit.
      apply app_split_cases in Hsplit.
      destruct Hsplit as [(post1 & Hcl & _) | (pre2 & -> & Htr)].
      * apply close_events_split in Hcl. destruct Hcl as (b & Hb & _). discriminate.
      * apply (IH ltac:(lia) _ _ _ _ _ Htr).
Qed.
End RunWaits.

(** X1. With [maxRetries = N >= 0], [RoundTrip] over the network returns
    after at most [N + 1] invocations of the transport and at most [N]
    waits, whatever the transport, the predicate, the context and the
    timer do; the invocations are as many as the waits, or one more. *)
Theorem RoundTrip_attempts_bounded (env : Env) (rt : retryTransport) (req : Request)
        (h : History) :
  0 <= maxRetries rt ->
  base rt = network env ->
  exists tr res,
    RoundTrip env rt req h = (res, h ++ tr) /\
    Z.of_nat (transport_calls tr) <= maxRetries rt + 1 /\
    Z.of_nat (select_count tr) <= maxRetries rt /\
    (select_count tr <= transport_calls tr <= select_count tr + 1)%nat.
Proof.
  intros Hpos Hbase.
  destruct (RoundTrip_run env rt req Hbase h Hpos) as (tr & res & Heq & Hrun).
  exists tr, res. split; [exact Heq|].
  destruct (run_calls_bound env rt req h 0 tr res Hrun Hpos) as (H1 & H2 & H3).
  repeat split; lia.
Qed.

Lemma RoundTrip_attempts_bounded_witness :
  exists tr res,
    RoundTrip Sample.env_503 (Sample.rt_default Sample.env_503 3) Sample.req0 []
      = (res, [] ++ tr) /\
    Z.of_nat (transport_calls tr) <= 3 + 1 /\
    Z.of_nat (select_count tr) <= 3 /\
    (select_count tr <= transport_calls tr <= select_count tr + 1)%nat.
Proof.
  apply (RoundTrip_attempts_bounded Sample.env_503 (Sample.rt_default Sample.env_503 3)
           Sample.req0 []).
  - cbn. lia.
  - reflexivity.
Defined.

(** X2. An outcome for which the predicate refuses a retry ends the call:
    its invocation is the last effect and [RoundTrip] returns it.  When
    [RoundTrip] returns a response, it is the outcome of the last
    invocation and nothing is done after it, so its body is left to the
    caller.  An outcome the predicate would retry is returned only when
    all [N + 1] attempts are used. *)
Theorem RoundTrip_returns_final_outcome (env : Env) (rt : retryTransport) (req : Request)
        (h : History) :
  0 <= maxRetries rt ->
  base rt = network env ->
  exists tr res,
    RoundTrip env rt req h = (res, h ++ tr) /\
    (forall pre r out post,
        tr = pre ++ EvTransport r out :: post ->
        retryIf rt (fst out) (snd out) = false ->
        post = [] /\ res = out) /\
    (fst res <> None -> exists pre, tr = pre ++ [EvTransport req res]) /\
    (forall pre r,
        tr = pre ++ [EvTransport r res] ->
        retryIf rt (fst res) (snd res) = true ->
        Z.of_nat (transport_calls tr) = maxRetries rt + 1).
Proof.
  intros Hpos Hbase.
  destruct (RoundTrip_run env rt req Hbase h Hpos) as (tr & res & Heq & Hrun).
  exists tr, res. split; [exact Heq|]. split; [|split].
  - exact (run_no_retry_is_final env rt req h 0 tr res Hrun).
  - intros Hresp.
    destruct (run_result env rt req h 0 tr res Hrun)
      as [(pre & e & _ & ->) | [(pre & d & e & _ & ->) | Hlast]].
    + exfalso. apply Hresp. reflexivity.
    + exfalso. apply Hresp. reflexivity.
    + exact Hlast.
  - intros pre r Htr Hretry.
    rewrite (run_retry_outcome_last env rt req h 0 tr res Hrun Hpos pre r Htr Hretry).
    lia.
Qed.

Lemma RoundTrip_returns_final_outcome_witness :
  exists tr res,
    RoundTrip SampleServer.env_404 (Sample.rt_default SampleServer.env_404 3) Sample.req0 []
      = (res, [] ++ tr) /\
    (fst res <> None -> exists pre, tr = pre ++ [EvTransport Sample.req0 res]).
Proof.
  destruct (RoundTrip_returns_final_outcome SampleServer.env_404
              (Sample.rt_default SampleServer.env_404 3) Sample.req0 [])
    as (tr & res & Heq & _ & H & _).
  - cbn. lia.
  - reflexivity.
  - exists tr, res. split; [exact Heq | exact H].
Defined.

(** X3. [RoundTrip] closes a body only of a response that an attempt
    returned and whose wait was ended by the timer, and then polls the
    context for the next attempt; after every wait ended by the timer the
    body of the outcome, if there is one, is closed and the context
    polled. *)
Theorem RoundTrip_closes_after_timer (env : Env) (rt : retryTransport) (req : Request)
        (h : History) :
  0 <= maxRetries rt ->
  base rt = network env ->
  exists tr res,
    RoundTrip env rt req h = (res, h ++ tr) /\
    (forall pre b post,
        tr = pre ++ EvBodyClose b :: post ->
        exists pre' resp err d,
          pre = pre' ++ [EvTransport req (Some resp, err);
                         EvSelect d (req_ctx req) TimerFired] /\
          Body resp = Some b /\
          exists ce post', post = EvCtxErr (req_ctx req) ce :: post') /\
    (forall pre r out d c post,
        tr = pre ++ EvTransport r out :: EvSelect d c TimerFired :: post ->
        exists ce post', post = close_events out ++ EvCtxErr (req_ctx req) ce :: post').
Proof.
  intros Hpos Hbase.
  destruct (RoundTrip_run env rt req Hbase h Hpos) as (tr & res & Heq & Hrun).
  exists tr, res. split; [exact Heq|]. split.
  - exact (run_close_origin env rt req h 0 tr res Hrun).
  - exact (run_timer_then_close env rt req h 0 tr res Hrun).
Qed.

Lemma RoundTrip_closes_after_timer_witness :
  exists tr res,
    RoundTrip Sample.env_503 (Sample.rt_default Sample.env_503 1) Sample.req0 []
      = (res, [] ++ tr) /\
    forall pre r out d c post,
      tr = pre ++ EvTransport r out :: EvSelect d c TimerFired :: post ->
      exists ce post',
        post = close_events out ++ EvCtxErr (req_ctx Sample.req0) ce :: post'.
Proof.
  destruct (RoundTrip_closes_after_timer Sample.env_503
              (Sample.rt_default Sample.env_503 1) Sample.req0 [])
    as (tr & res & Heq & _ & H).
  - cbn. lia.
  - reflexivity.
  - exists tr, res. split; [exact Heq | exact H].
Defined.

(** X4. For every [minBackoff] that is not negative,
    [0 <= maxBackoff < 2^50] ns and ([minBackoff > 0] or [N <= 1024]),
    every wait of [RoundTrip] has a duration [d] with
    [0 <= d <= 1.25 * maxBackoff], whatever [rand.Float64] draws: the
    backoff computed in float64 never leaves the integers inside the
    loop. *)
Theorem RoundTrip_waits_bounded (env : Env) (rt : retryTransport) (req : Request)
        (h : History) :
  0 <= maxRetries rt ->
  base rt = network env ->
  0 <= minBackoff rt < 2 ^ 63 ->
  0 <= maxBackoff rt < 2 ^ 50 ->
  0 < minBackoff rt \/ maxRetries rt <= 1024 ->
  exists tr res,
    RoundTrip env rt req h = (res, h ++ tr) /\
    forall pre d c w post,
      tr = pre ++ EvSelect d c w :: post ->
      exists v, d = Some v /\ 0 <= v /\ 4 * v <= 5 * maxBackoff rt.
Proof.
  intros Hpos Hbase Hmin Hmax Hpow.
  destruct (RoundTrip_run env rt req Hbase h Hpos) as (tr & res & Heq & Hrun).
  exists tr, res. split; [exact Heq|].
  apply (run_waits_bounded env rt req Hmin Hmax Hpow h 0 tr res Hrun). lia.
Qed.

Lemma RoundTrip_waits_bounded_witness :
  exists tr res,
    RoundTrip Sample.env_503 (Sample.rt_default Sample.env_503 3) Sample.req0 []
      = (res, [] ++ tr) /\
    forall pre d c w post,
      tr = pre ++ EvSelect d c w :: post ->
      exists v, d = Some v /\ 0 <= v /\ 4 * v <= 5 * (5000 * Sample.ms).
Proof.
  apply (RoundTrip_waits_bounded Sample.env_503 (Sample.rt_default Sample.env_503 3)
           Sample.req0 []).
  - cbn. lia.
  - reflexivity.
  - cbn. unfold Sample.ms. lia.
  - cbn. unfold Sample.ms. lia.
  - left. cbn. unfold Sample.ms. lia.
Defined.

(** X5. Under [DefaultRetryIf], when the context is not cancelled and the
    first attempt returns, without error, a response with a status below
    500 other than 429, [RoundTrip] returns this response after this one
    attempt, without waiting and without closing its body. *)
Theorem RoundTrip_default_policy_single_attempt (env : Env) (rt : retryTransport)
        (req : Request) (h : History) (resp : Response) :
  0 <= maxRetries rt ->
  base rt = network env ->
  retryIf rt = DefaultRetryIf ->
  env_ctx_err env h (req_ctx req) = None ->
  env_transport env (h ++ [EvCtxErr (req_ctx req) None]) req = (Some resp, None) ->
  StatusCode resp < 500 ->
  StatusCode resp <> 429 ->
  RoundTrip env rt req h
    = ((Some resp, None),
       h ++ [EvCtxErr (req_ctx req) None; EvTransport req (Some resp, None)]).
Proof.
  intros Hpos Hbase Hif Hctx Hout Hlt Hne.
  destruct (RoundTrip_run env rt req Hbase h Hpos) as (tr & res & Heq & Hrun).
  rewrite Heq.
  assert (Hno : retryIf rt (Some resp) None = false).
  { rewrite Hif. unfold DefaultRetryIf.
    apply orb_false_iff. split.
    - rewrite Z.geb_leb. apply Z.leb_gt. exact Hlt.
    - apply Z.eqb_neq. exact Hne. }
  inversion Hrun as [h0 a e Hc | h0 a out Hc Ho Hlast
                     | h0 a out d e Hc Ho Hr Ha Hd Hs
                     | h0 a out d tr0 res0 Hc Ho Hr Ha Hd Hs Hrun0]; subst.
  - congruence.
  - rewrite Hout. reflexivity.
  - rewrite Hout in Hr. cbn in Hr. congruence.
  - rewrite Hout in Hr. cbn in Hr. congruence.
Qed.

Lemma RoundTrip_default_policy_single_attempt_witness :
  transport_calls
    (snd (RoundTrip SampleServer.env_404 (Sample.rt_default SampleServer.env_404 3)
            Sample.req0 [])) = 1%nat.
Proof.
  rewrite (RoundTrip_default_policy_single_attempt SampleServer.env_404
             (Sample.rt_default SampleServer.env_404 3) Sample.req0 []
             {| StatusCode := 404; Body := Some 1%nat |}).
  - reflexivity.
  - cbn. lia.
  - reflexivity.
  - reflexivity.
  - reflexivity.
  - reflexivity.
  - cbn. lia.
  - cbn. lia.
Defined.

(* ================================================================== *)
(** ** The client and its chain *)

Lemma transport_calls_nil_outcome (out : Outcome) :
  fst out = None -> close_events out = [].
Proof. unfold close_events. now intros ->. Qed.

(** The retry loop over any wrapped transport that fails on every call and
    makes [K] calls to the network each time: without cancellation every
    iteration is used. *)
Section RetryOverFailingBase.
Variables (env : Env) (rt : retryTransport) (req : Request) (K : nat).
Hypothesis retry_errors : forall e, retryIf rt None (Some e) = true.
Hypothesis no_cancel : forall h c, env_ctx_err env h c = None.
Hypothesis timer_fires : forall h d c, env_select env h d c = TimerFired.
Hypothesis base_fails :
  forall h, exists t out,
      base rt req h = (out, h ++ t) /\ transport_calls t = K /\
      fst out = None /\ snd out <> None.

Lemma retry_loop_failing_base (n : nat) :
  forall a prev h,
    Z.of_nat n = maxRetries rt + 1 - a ->
    exists t res,
      retry_loop env rt req n a prev h = (res, h ++ t) /\
      transport_calls t = (n * K)%nat /\
      (n <> O -> fst res = None /\ snd res <> None).
Proof.
  induction n as [|n IH]; intros a prev h Hn.
  - exists [], prev. cbn. rewrite app_nil_r.
    split; [reflexivity|]. split; [reflexivity | congruence].
  - cbn [retry_loop]. unfold bind at 1. unfold ctx_Err at 1.
    rewrite no_cancel.
    unfold bind at 1.
    destruct (base_fails (h ++ [EvCtxErr (req_ctx req) None]))
      as (t & out & Hb & Hk & Hresp & Herr).
    rewrite Hb.
    destruct out as [resp err]. cbn in Hresp, Herr. subst resp.
    destruct err as [e|]; [|congruence].
    cbn [fst snd]. rewrite retry_errors. cbn [negb orb].
    destruct (Z.eqb_spec a (maxRetries rt)) as [Ha | Ha].
    + exists (EvCtxErr (req_ctx req) None :: t), (None, Some e).
      unfold ret. split; [now rewrite <- app_assoc|].
      assert (n = O) by lia. subst n.
      split; [|cbn; split; [reflexivity | discriminate]].
      change (EvCtxErr (req_ctx req) None :: t) with ([EvCtxErr (req_ctx req) None] ++ t).
      rewrite transport_calls_app, Hk. cbn. lia.
    + unfold bind at 1. unfold calculateBackoff, bind, rand_draw, ret, select_wait.
      rewrite timer_fires.
      set (d := Backoff.calculateBackoff_with _ _ a _).
      set (h3 := ((h ++ [EvCtxErr (req_ctx req) None]) ++ t)
                   ++ [EvSelect d (req_ctx req) TimerFired]).
      destruct (IH (a + 1) (None, Some e) h3) as (t' & res & Hloop & Hcalls & Hres); [lia|].
      cbn [fst]. change (ret tt h3) with (tt, h3).
      rewrite Hloop.
      exists ([EvCtxErr (req_ctx req) None] ++ t
                ++ [EvSelect d (req_ctx req) TimerFired] ++ t'), res.
      split; [unfold h3; now rewrite <- !app_assoc|].
      split.
      * rewrite !transport_calls_app, Hk, Hcalls. cbn. lia.
      * intros _. apply Hres. lia.
Qed.

Lemma RoundTrip_failing_base (h : History) :
  0 <= maxRetries rt ->
  exists t res,
    RoundTrip env rt req h = (res, h ++ t) /\
    transport_calls t = (Z.to_nat (maxRetries rt + 1) * K)%nat /\
    fst res = None /\ snd res <> None.
Proof.
  intros Hmax. unfold RoundTrip.
  destruct (retry_loop_failing_base (Z.to_nat (maxRetries rt + 1)) 0 (None, None) h)
    as (t & res & Heq & Hcalls & Hres); [lia|].
  exists t, res. split; [exact Heq|]. split; [exact Hcalls|].
  apply Hres. lia.
Qed.
End RetryOverFailingBase.

Lemma buildMiddlewareChain_transport_RoundTrip (env : Env) (b : RoundTripper) (o : Options) :
  buildMiddlewareChain env b o
  = middlewareTransport_RoundTrip (buildMiddlewareChain_transport env b o).
Proof. reflexivity. Qed.

Lemma buildMiddlewareChain_transport_base (env : Env) (b : RoundTripper) (o : Options) :
  mt_base (buildMiddlewareChain_transport env b o)
  = fold_right (fun mw next => mw next) (retry_layer env b o) (Middlewares o).
Proof.
  unfold buildMiddlewareChain_transport. cbn [mt_base].
  rewrite wrap_down_all. reflexivity.
Qed.

Lemma add_markers_app (req : Request) (a b : list string) :
  add_markers (add_markers req a) b = add_markers req (a ++ b).
Proof. unfold add_markers. cbn. now rewrite map_app, app_assoc. Qed.

Section FailingNetwork.
Variable env : Env.
Hypothesis fails : forall h r, fst (env_transport env h r) = None /\
                               snd (env_transport env h r) <> None.
Hypothesis no_cancel : forall h c, env_ctx_err env h c = None.
Hypothesis timer_fires : forall h d c, env_select env h d c = TimerFired.

Lemma network_fails (req : Request) (h : History) :
  exists t out,
    network env req h = (out, h ++ t) /\ transport_calls t = 1%nat /\
    fst out = None /\ snd out <> None.
Proof.
  exists [EvTransport req (env_transport env h req)], (env_transport env h req).
  split; [reflexivity|]. split; [reflexivity|]. apply fails.
Qed.

(** The retry executor with the default predicate, directly over the
    failing network. *)
Lemma default_retry_over_network (n lo hi : Z) (req : Request) (h : History) :
  0 <= n ->
  exists t res,
    RoundTrip env {| base := network env; maxRetries := n; minBackoff := lo;
                     maxBackoff := hi; retryIf := DefaultRetryIf |} req h
    = (res, h ++ t) /\
    transport_calls t = Z.to_nat (n + 1) /\
    fst res = None /\ snd res <> None.
Proof.
  intros Hn.
  destruct (RoundTrip_failing_base env
              {| base := network env; maxRetries := n; minBackoff := lo;
                 maxBackoff := hi; retryIf := DefaultRetryIf |} req 1
              ltac:(reflexivity) no_cancel timer_fires
              ltac:(intros h0; apply network_fails) h Hn)
    as (t & res & Heq & Hcalls & Hres).
  exists t, res. split; [exact Heq|]. split; [|exact Hres].
  rewrite Hcalls. cbn [maxRetries]. lia.
Qed.
End FailingNetwork.

(** X6. A client made by [New(WithRetry(n))] with [n > 0] retries: against
    a network that fails on every call, nothing being cancelled, a request
    makes exactly [n + 1] invocations of the transport and returns the
    error. *)
Theorem New_WithRetry_retries (env : Env) (n : Z) (req : Request) (h : History) :
  0 < n ->
  (forall h' r, fst (env_transport env h' r) = None /\
                snd (env_transport env h' r) <> None) ->
  (forall h' c, env_ctx_err env h' c = None) ->
  (forall h' d c, env_select env h' d c = TimerFired) ->
  exists t res,
    Client_RoundTrip (New env [WithRetry n]) req h = (res, h ++ t) /\
    Z.of_nat (transport_calls t) = n + 1 /\
    fst res = None /\ snd res <> None.
Proof.
  intros Hn Hfail Hctx Hsel.
  assert (Hc : Client_RoundTrip (New env [WithRetry n]) req h
               = RoundTrip env {| base := network env; maxRetries := n;
                                  minBackoff := 100 * 1000000;
                                  maxBackoff := 5 * 1000000000;
                                  retryIf := DefaultRetryIf |} req h).
  { unfold Client_RoundTrip, New, middlewareTransport_RoundTrip.
    cbn [fold_left WithRetry on_options options set_MaxRetries client_http hc_Transport
         Transport].
    rewrite buildMiddlewareChain_transport_base.
    unfold retry_layer.
    change (MaxRetries (set_MaxRetries n defaultOptions)) with n.
    destruct (Z.gtb_spec n 0); [reflexivity | lia]. }
  rewrite Hc.
  destruct (default_retry_over_network env Hfail Hctx Hsel n (100 * 1000000)
              (5 * 1000000000) req h ltac:(lia))
    as (t & res & Heq & Hcalls & Hres).
  exists t, res. split; [exact Heq|]. split; [lia | exact Hres].
Qed.

Lemma New_WithRetry_retries_witness :
  exists t res,
    Client_RoundTrip (New Sample.env_failing [WithRetry 2]) Sample.req0 [] = (res, [] ++ t) /\
    Z.of_nat (transport_calls t) = 2 + 1 /\
    fst res = None /\ snd res <> None.
Proof.
  apply (New_WithRetry_retries Sample.env_failing 2 Sample.req0 []).
  - lia.
  - intros h' r. cbn. split; [reflexivity | discriminate].
  - reflexivity.
  - reflexivity.
Defined.

(** X7. [Client.WithRetry], [Client.WithRetryBackoff] and
    [Client.WithRetryIf] record their values in the options but leave the
    chain as [New] built it: the client sends requests as before, and
    [New().WithRetry(n)] sends a request straight to the network. *)
Theorem Client_WithRetry_keeps_transport (env : Env) (os : list Option) (n lo hi : Z)
        (fn : option RetryConditionFunc) (req : Request) (h : History) :
  let c := Client_WithRetryIf (Client_WithRetryBackoff (Client_WithRetry (New env os) n) lo hi) fn in
  Client_RoundTrip c req h = Client_RoundTrip (New env os) req h /\
  MaxRetries (options (client_opts c)) = n /\
  Client_RoundTrip (Client_WithRetry (New env []) n) req h = network env req h.
Proof. cbv zeta. repeat split. Qed.

(** X8. [Client.WithMiddleware] rebuilds the chain over the previous chain,
    not over the transport [New] started from: the new chain is all
    interceptors, old and new, around a retry layer around the old chain.
    With marker interceptors [l1] given to [New] and [l2] added by
    [Client.WithMiddleware], a request passes [l1], [l2] and [l1] again. *)
Theorem Client_WithMiddleware_rewraps (env : Env) :
  (forall (c : Client) (mw : list Middleware),
      let c' := Client_WithMiddleware env c mw in
      mt_base (hc_Transport (client_http c'))
      = fold_right (fun m next => m next)
                   (retry_layer env (mt_base (hc_Transport (client_http c)))
                                (options (client_opts c')))
                   (Middlewares (options (client_opts c)) ++ mw)) /\
  (forall (l1 l2 : list string) (req : Request) (h : History),
      let c := Client_WithMiddleware env (New env [WithMiddleware (map marker l1)])
                                     (map marker l2) in
      let names := l1 ++ l2 ++ l1 in
      let h1 := h ++ map (fun n => EvNote (String.append "in:" n)) names in
      Client_RoundTrip c req h
      = (fst (network env (add_markers req names) h1),
         snd (network env (add_markers req names) h1)
         ++ map (fun n => EvNote (String.append "out:" n)) (rev names))).
Proof.
  split.
  - intros c mw. cbv zeta. unfold Client_WithMiddleware.
    cbn [client_http hc_Transport client_opts].
    rewrite buildMiddlewareChain_transport_base. reflexivity.
  - intros l1 l2 req h. cbv zeta.
    unfold Client_RoundTrip, middlewareTransport_RoundTrip, Client_WithMiddleware.
    cbn [client_http hc_Transport client_opts].
    rewrite buildMiddlewareChain_transport_base.
    unfold New.
    cbn [fold_left WithMiddleware on_options options with_middlewares Middlewares
         defaultOptions client_http hc_Transport client_opts Transport app
         MaxRetries].
    rewrite buildMiddlewareChain_transport_base.
    unfold retry_layer.
    cbn [MaxRetries Middlewares with_middlewares defaultOptions].
    change (0 >? 0) with false. cbv iota.
    rewrite <- map_app.
    rewrite (markers_run _ (l1 ++ l2) req h).
    rewrite (markers_run (defaultTransport env) l1).
    cbn [fst snd]. unfold defaultTransport.
    rewrite add_markers_app.
    rewrite <- !app_assoc, <- !map_app.
    rewrite !rev_app_distr. rewrite <- !app_assoc.
    reflexivity.
Qed.

Lemma transport_calls_notes (f : string -> string) (names : list string) :
  transport_calls (map (fun n => EvNote (f n)) names) = O.
Proof. induction names; [reflexivity | assumption]. Qed.

(** X9. After [Client.WithMiddleware] on a client made by
    [New(WithRetry(n))], [n > 0], the retry executor is nested in itself:
    against a network that fails on every call a request makes
    [(n + 1) * (n + 1)] invocations of the transport. *)
Theorem Client_WithMiddleware_nests_retry (env : Env) (n : Z) (names : list string)
        (req : Request) (h : History) :
  0 < n ->
  (forall h' r, fst (env_transport env h' r) = None /\
                snd (env_transport env h' r) <> None) ->
  (forall h' c, env_ctx_err env h' c = None) ->
  (forall h' d c, env_select env h' d c = TimerFired) ->
  exists t res,
    Client_RoundTrip (Client_WithMiddleware env (New env [WithRetry n]) (map marker names))
                     req h = (res, h ++ t) /\
    Z.of_nat (transport_calls t) = (n + 1) * (n + 1) /\
    fst res = None /\ snd res <> None.
Proof.
  intros Hn Hfail Hctx Hsel.
  set (inner := {| base := network env; maxRetries := n;
                   minBackoff := 100 * 1000000; maxBackoff := 5 * 1000000000;
                   retryIf := DefaultRetryIf |}).
  set (outer := {| base := RoundTrip env inner; maxRetries := n;
                   minBackoff := 100 * 1000000; maxBackoff := 5 * 1000000000;
                   retryIf := DefaultRetryIf |}).
  assert (Hc : Client_RoundTrip
                 (Client_WithMiddleware env (New env [WithRetry n]) (map marker names)) req h
               = fold_right (fun m next => m next) (RoundTrip env outer)
                            (map marker names) req h).
  { unfold Client_RoundTrip, middlewareTransport_RoundTrip, Client_WithMiddleware.
    cbn [client_http hc_Transport client_opts].
    rewrite buildMiddlewareChain_transport_base.
    unfold New.
    cbn [fold_left WithRetry WithMiddleware on_options options client_http hc_Transport
         client_opts Transport].
    rewrite buildMiddlewareChain_transport_base.
    unfold retry_layer.
    change (MaxRetries (with_middlewares (set_MaxRetries n defaultOptions)
                          (Middlewares (set_MaxRetries n defaultOptions) ++ map marker names)))
      with n.
    change (MaxRetries (set_MaxRetries n defaultOptions)) with n.
    destruct (Z.gtb_spec n 0); [reflexivity | lia]. }
  rewrite Hc, markers_run.
  set (req' := add_markers req names).
  set (h1 := h ++ map (fun n0 => EvNote (String.append "in:" n0)) names).
  assert (Hinner : forall h0, exists t out,
               base outer req' h0 = (out, h0 ++ t) /\
               transport_calls t = Z.to_nat (n + 1) /\
               fst out = None /\ snd out <> None).
  { intros h0. apply (default_retry_over_network env Hfail Hctx Hsel); lia. }
  destruct (RoundTrip_failing_base env outer req' (Z.to_nat (n + 1))
              ltac:(reflexivity) Hctx Hsel Hinner h1 ltac:(cbn; lia))
    as (t & res & Heq & Hcalls & Hres).
  rewrite Heq. cbn [fst snd].
  exists (map (fun n0 => EvNote (String.append "in:" n0)) names ++ t
            ++ map (fun n0 => EvNote (String.append "out:" n0)) (rev names)), res.
  split; [unfold h1; now rewrite <- !app_assoc|].
  split; [|exact Hres].
  rewrite !transport_calls_app, !transport_calls_notes, Hcalls.
  cbn [maxRetries outer]. lia.
Qed.

Lemma Client_WithMiddleware_nests_retry_witness :
  exists t res,
    Client_RoundTrip
      (Client_WithMiddleware Sample.env_failing (New Sample.env_failing [WithRetry 2])
                             (map marker ["A"%string]))
      Sample.req0 [] = (res, [] ++ t) /\
    Z.of_nat (transport_calls t) = (2 + 1) * (2 + 1) /\
    fst res = None /\ snd res <> None.
Proof.
  apply (Client_WithMiddleware_nests_retry Sample.env_failing 2 ["A"%string] Sample.req0 []).
  - lia.
  - intros h' r. cbn. split; [reflexivity | discriminate].
  - reflexivity.
  - reflexivity.
Defined.

(** X10. [Client.WithTimeout] makes a new client through [New] from a copy
    of the options: the base URL is not carried over, the client's timeout
    is the new one, and the chain is built from the options as they are
    now, so that the retries recorded by [Client.WithRetry], which the old
    client does not perform, are performed by the new one. *)
Theorem Client_WithTimeout_rebuilds (env : Env) (n d : Z) (req : Request) (h : History) :
  0 < n ->
  (forall h' r, fst (env_transport env h' r) = None /\
                snd (env_transport env h' r) <> None) ->
  (forall h' c, env_ctx_err env h' c = None) ->
  (forall h' d' c, env_select env h' d' c = TimerFired) ->
  (forall c u, baseURL (Client_WithTimeout env (Client_WithBaseURL c u) d) = EmptyString /\
               hc_Timeout (client_http (Client_WithTimeout env c d)) = d) /\
  Client_RoundTrip (Client_WithRetry (New env []) n) req h = network env req h /\
  exists t res,
    Client_RoundTrip (Client_WithTimeout env (Client_WithRetry (New env []) n) d) req h
    = (res, h ++ t) /\
    Z.of_nat (transport_calls t) = n + 1 /\
    fst res = None /\ snd res <> None.
Proof.
  intros Hn Hfail Hctx Hsel.
  split; [intros c u; split; reflexivity|].
  split; [reflexivity|].
  assert (Hc : Client_RoundTrip (Client_WithTimeout env (Client_WithRetry (New env []) n) d) req h
               = RoundTrip env {| base := network env; maxRetries := n;
                                  minBackoff := 100 * 1000000;
                                  maxBackoff := 5 * 1000000000;
                                  retryIf := DefaultRetryIf |} req h).
  { unfold Client_RoundTrip, Client_WithTimeout, New, middlewareTransport_RoundTrip.
    cbn [fold_left client_http hc_Transport].
    rewrite buildMiddlewareChain_transport_base.
    unfold retry_layer.
    change (MaxRetries _) with n.
    destruct (Z.gtb_spec n 0); [reflexivity | lia]. }
  rewrite Hc.
  destruct (default_retry_over_network env Hfail Hctx Hsel n (100 * 1000000)
              (5 * 1000000000) req h ltac:(lia))
    as (t & res & Heq & Hcalls & Hres).
  exists t, res. split; [exact Heq|]. split; [lia | exact Hres].
Qed.

Lemma Client_WithTimeout_rebuilds_witness :
  exists t res,
    Client_RoundTrip
      (Client_WithTimeout Sample.env_failing
         (Client_WithRetry (New Sample.env_failing []) 2) (3 * 1000000000))
      Sample.req0 [] = (res, [] ++ t) /\
    Z.of_nat (transport_calls t) = 2 + 1 /\
    fst res = None /\ snd res <> None.
Proof.
  apply (Client_WithTimeout_rebuilds Sample.env_failing 2 (3 * 1000000000) Sample.req0 []).
  - lia.
  - intros h' r. cbn. split; [reflexivity | discriminate].
  - reflexivity.
  - reflexivity.
Defined.

Lemma MetricsMiddleware_next (env : Env) (name : string) (next : RoundTripper)
      (req : Request) (h : History) :
  MetricsMiddleware env name next req h = next req h.
Proof.
  unfold MetricsMiddleware, RoundTripFunc_RoundTrip, bind, time_Now, time_Since, ret.
  destruct (next req h) as [out h']. reflexivity.
Qed.

Lemma MetricsMiddleware_fold (env : Env) (names : list string) (rt : RoundTripper)
      (req : Request) (h : History) :
  fold_right (fun mw next => mw next) rt (map (MetricsMiddleware env) names) req h
  = rt req h.
Proof.
  induction names as [|n names IH]; cbn [map fold_right]; [reflexivity|].
  rewrite MetricsMiddleware_next. exact IH.
Qed.

(** X11. [MetricsMiddleware] changes neither the outcome nor the effects:
    a chain whose interceptors are all metrics interceptors behaves as its
    innermost layer, the retry executor or the base. *)
Theorem MetricsMiddleware_transparent (env : Env) (names : list string)
        (base0 : RoundTripper) (opts : Options) (req : Request) (h : History) :
  Middlewares opts = map (MetricsMiddleware env) names ->
  buildMiddlewareChain env base0 opts req h = retry_layer env base0 opts req h.
Proof.
  intros Hm. unfold buildMiddlewareChain, middlewareTransport_RoundTrip. cbn [mt_base].
  rewrite wrap_down_all, Hm, MetricsMiddleware_fold. reflexivity.
Qed.

Lemma MetricsMiddleware_transparent_witness :
  buildMiddlewareChain Sample.env_503 (network Sample.env_503)
    (with_middlewares defaultOptions
       (map (MetricsMiddleware Sample.env_503) ["users"%string; "orders"%string]))
    Sample.req0 []
  = network Sample.env_503 Sample.req0 [].
Proof.
  rewrite (MetricsMiddleware_transparent Sample.env_503 ["users"%string; "orders"%string]).
  - reflexivity.
  - reflexivity.
Defined.

(** X12. A [SetDefault] made before the default client is first used is
    lost: the first [getDefaultClient] runs the [sync.Once], which
    overwrites the variable by [New()]; a [SetDefault] made after that is
    kept. *)
Theorem SetDefault_before_first_use (env : Env) (g : Globals)
        (client later : option Client) :
  defaultClientOnce g = false ->
  fst (getDefaultClient env (SetDefault client g)) = Some (New env [])
  /\ fst (getDefaultClient env
            (SetDefault later (snd (getDefaultClient env (SetDefault client g))))) = later.
Proof.
  intros Honce. unfold getDefaultClient, SetDefault. cbn. rewrite Honce. cbn. auto.
Qed.

Lemma SetDefault_before_first_use_witness :
  fst (getDefaultClient Sample.env_503
         (SetDefault (Some (New Sample.env_503 [WithRetry 3])) initial_globals))
  = Some (New Sample.env_503 []).
Proof.
  apply (SetDefault_before_first_use Sample.env_503 initial_globals
           (Some (New Sample.env_503 [WithRetry 3])) None).
  reflexivity.
Defined.

(* ================================================================== *)
(** ** Errors, response handler and request builder *)

(* ------------------------------------------------------------------ *)
(** ** Error helpers *)

Lemma as_HTTPError_wraps msgs e :
  as_HTTPError (fold_right ErrWrap e msgs) = as_HTTPError e.
Proof. induction msgs as [|m msgs IH]; cbn; auto. Qed.

Lemma as_timeout_wraps nt msgs e :
  as_timeout nt (fold_right ErrWrap e msgs) = as_timeout nt e.
Proof. induction msgs as [|m msgs IH]; cbn; auto. Qed.

(** X13. The helpers of errors.go agree: [IsHTTPError] is the flag of
    [GetHTTPError]; [IsStatusCode] holds exactly when [GetHTTPError] finds
    an [HTTPError] with this code; wrapping with [%w] does not change what
    [GetHTTPError] finds; in an error that unwraps to several errors the
    first [HTTPError] in order is the one found.  Being an [HTTPError] and
    being a timeout are independent: [errors.Join] of an [HTTPError] and a
    deadline that was exceeded is both. *)
Theorem error_helpers_agree (err : option Err) (code : Z) :
  IsHTTPError err = snd (GetHTTPError err)
  /\ (IsStatusCode err code = true <->
      exists h, GetHTTPError err = (Some h, true) /\ err_StatusCode h = code)
  /\ (forall msgs e,
        err = Some (fold_right ErrWrap e msgs) ->
        GetHTTPError err = GetHTTPError (Some e))
  /\ (forall n t x rest,
        err = Some (ErrOther n None t (x :: rest)) ->
        GetHTTPError err =
          match as_HTTPError x with
          | Some h => (Some h, true)
          | None => GetHTTPError (Some (ErrOther n None t rest))
          end)
  /\ (forall nt n h,
        let joined := Some (ErrOther n None None
                                     [ErrHTTP h; ErrBase (CtxError DeadlineExceeded)]) in
        IsHTTPError joined = true /\ IsStatusCode joined (err_StatusCode h) = true /\
        IsTimeout nt joined = true).
Proof.
  split; [|split; [|split; [|split]]].
  - destruct err as [e|]; cbn; [|reflexivity].
    destruct (as_HTTPError e); reflexivity.
  - unfold IsStatusCode. destruct err as [e|]; cbn.
    + destruct (as_HTTPError e) as [h|]; cbn.
      * split.
        -- intros H. exists h. split; [reflexivity|]. apply Z.eqb_eq; exact H.
        -- intros [h' [Heq Hc]]. injection Heq as <-. apply Z.eqb_eq; exact Hc.
      * split; [discriminate|]. intros [h' [Heq _]]. discriminate.
    + split; [discriminate|]. intros [h' [Heq _]]. discriminate.
  - intros msgs e ->. cbn. rewrite as_HTTPError_wraps. reflexivity.
  - intros n t x rest ->. cbn. destruct (as_HTTPError x); reflexivity.
  - intros nt n h. cbv zeta. unfold IsStatusCode. cbn.
    rewrite Z.eqb_refl. repeat split.
Qed.

(** X14. [IsTimeout] looks through wrapping with [%w]: a deadline that was
    exceeded is a timeout at any depth; a cancellation, an [HTTPError] and
    the nil error are not. *)
Theorem IsTimeout_through_wraps (nt : nat -> option bool) (msgs : list string) :
  (forall e, IsTimeout nt (Some (fold_right ErrWrap e msgs)) = IsTimeout nt (Some e))
  /\ IsTimeout nt (Some (fold_right ErrWrap (ErrBase (CtxError DeadlineExceeded)) msgs)) = true
  /\ IsTimeout nt (Some (fold_right ErrWrap (ErrBase (CtxError Canceled)) msgs)) = false
  /\ (forall h, IsTimeout nt (Some (fold_right ErrWrap (ErrHTTP h) msgs)) = false)
  /\ IsTimeout nt None = false.
Proof.
  repeat split; intros; cbn; rewrite ?as_timeout_wraps; reflexivity.
Qed.

(* ------------------------------------------------------------------ *)
(** ** Response handler *)

(** X15. [Into], [Bytes] and [String] have the same effects: they close the
    body of the response once when the handler holds no error, for every
    status and also when decoding fails, and do nothing when it holds an
    error. *)
Theorem handler_closes_body (lib : GoLib) (rh : ResponseHandler) (h : History) :
  snd (Into lib rh h) =
    h ++ match rh_err rh, rh_resp rh with
         | None, Some resp => match Body (response resp) with
                              | Some b => [EvBodyClose b]
                              | None => []
                              end
         | _, _ => []
         end
  /\ snd (Bytes lib rh h) = snd (Into lib rh h)
  /\ snd (ResponseHandler_String lib rh h) = snd (Into lib rh h).
Proof.
  unfold ResponseHandler_String, Into, Bytes.
  destruct (rh_err rh) as [e|]; cbn.
  { rewrite app_nil_r. auto. }
  destruct (rh_resp rh) as [resp|]; cbn; [|rewrite app_nil_r; auto].
  destruct (Body (response resp)) as [b|]; cbn; [|rewrite app_nil_r; auto].
  destruct ((StatusCode (response resp) <? 200) || (StatusCode (response resp) >=? 300)); cbn.
  { auto. }
  destruct (snd (json_Decode lib b)); cbn; auto.
Qed.

(** X16. For a handler without error: when the status is outside
    [200..299], [Into] and [Bytes] return the same [HTTPError], which
    carries the status code, the status line and the body that was read,
    and [IsStatusCode] recognises exactly this code; when the status is
    inside, [Into] leaves in [v] what the decoder stored and returns an
    error exactly when the decoder does, the decoder's error wrapped with
    [%w], so that [GetHTTPError] and [IsTimeout] say of it what they say
    of the decoder's error; and [Bytes] returns what [io.ReadAll]
    returns. *)
Theorem handler_status_check (lib : GoLib) (rh : ResponseHandler) (h : History)
    (resp : FullResponse) (b : nat)
    (Herr : rh_err rh = None)
    (Hresp : rh_resp rh = Some resp)
    (Hbody : Body (response resp) = Some b) :
  let code := StatusCode (response resp) in
  (code < 200 \/ 300 <= code ->
     exists e,
       fst (Into lib rh h) = Returns (None, Some e)
       /\ fst (Bytes lib rh h) = Returns (None, Some e)
       /\ GetHTTPError (Some e) =
            (Some {| err_StatusCode := code; err_Status := Status resp;
                     err_Body := fst (io_ReadAll lib b) |}, true)
       /\ forall c, IsStatusCode (Some e) c = true <-> c = code)
  /\ (200 <= code < 300 ->
     exists err,
       fst (Into lib rh h) = Returns (fst (json_Decode lib b), err)
       /\ (err = None <-> snd (json_Decode lib b) = None)
       /\ (forall e, snd (json_Decode lib b) = Some e ->
                     err = Some (ErrWrap "decode json response" e))
       /\ GetHTTPError err = GetHTTPError (snd (json_Decode lib b))
       /\ (forall nt, IsTimeout nt err = IsTimeout nt (snd (json_Decode lib b)))
       /\ fst (Bytes lib rh h) =
            Returns (Some (fst (io_ReadAll lib b)), snd (io_ReadAll lib b))).
Proof.
  intros code. unfold Into, Bytes. rewrite Herr, Hresp, Hbody. fold code.
  split.
  - intros Hc.
    assert (Hb : (code <? 200) || (code >=? 300) = true).
    { apply orb_true_iff. destruct Hc as [Hc|Hc]; [left | right].
      - apply Z.ltb_lt; exact Hc.
      - rewrite Z.geb_leb. apply Z.leb_le; exact Hc. }
    rewrite Hb. exists (http_error lib resp b). cbn.
    repeat split; try reflexivity.
    + unfold IsStatusCode. cbn. fold code. intros H. symmetry. apply Z.eqb_eq; exact H.
    + unfold IsStatusCode. cbn. fold code. intros ->. apply Z.eqb_refl.
  - intros Hc.
    assert (Hb : (code <? 200) || (code >=? 300) = false).
    { apply orb_false_iff. split.
      - apply Z.ltb_ge; lia.
      - rewrite Z.geb_leb. apply Z.leb_gt; lia. }
    rewrite Hb. destruct (snd (json_Decode lib b)) as [e|]; cbn.
    + exists (Some (ErrWrap "decode json response" e)).
      split; [reflexivity|]. split; [split; discriminate|].
      split; [intros e' He'; injection He' as <-; reflexivity|].
      repeat split.
    + exists None. split; [reflexivity|]. split; [split; reflexivity|].
      split; [intros e' He'; discriminate|]. repeat split.
Qed.

Lemma handler_status_check_witness :
  exists e,
    fst (Into SampleLib.lib {| rh_resp := Some SampleLib.resp404; rh_err := None |} [])
      = Returns (None, Some e)
    /\ IsStatusCode (Some e) 404 = true.
Proof.
  destruct (handler_status_check SampleLib.lib
              {| rh_resp := Some SampleLib.resp404; rh_err := None |} []
              SampleLib.resp404 7%nat eq_refl eq_refl eq_refl) as [H _].
  destruct H as [e [Hi [_ [_ Hs]]]]; [right; cbn; lia|].
  exists e. split; [exact Hi|]. apply Hs. reflexivity.
Defined.

(* ------------------------------------------------------------------ *)
(** ** Request builder *)

(** X17. If [Do] of [http.Client] keeps its contract (a nil error comes
    with a response that has a body), then [Do] followed by [Into] or by
    [Bytes] never dereferences nil, whatever the builder holds. *)
Theorem Do_Into_never_panics (lib : GoLib)
    (contract : forall hc req body h,
        snd (fst (http_Client_Do lib hc req body h)) = None ->
        exists resp b,
          fst (fst (http_Client_Do lib hc req body h)) = Some resp
          /\ Body (response resp) = Some b)
    (rb : RequestBuilder) (ctx : Context) (h : History) :
  fst ((rh <- Do lib rb ctx ;; Into lib rh) h) <> Panics
  /\ fst ((rh <- Do lib rb ctx ;; Bytes lib rh) h) <> Panics.
Proof.
  unfold Do, bind.
  destruct (rb_err rb) as [e|]; [cbn; split; discriminate|].
  match goal with
  | |- context [match ?q with inl _ => _ | inr _ => _ end] =>
      destruct q as [u|e]; [|cbn; split; discriminate]
  end.
  destruct (http_NewRequestWithContext lib ctx (rb_method rb) u (rb_body rb)) as [req|e];
    [|cbn; split; discriminate].
  match goal with
  | |- context [http_Client_Do lib ?hc ?r ?b h] =>
      pose proof (contract hc r b h) as Hc;
      destruct (http_Client_Do lib hc r b h) as [[resp err] h1]
  end.
  cbn in Hc. cbn [ret fst snd].
  destruct err as [e|].
  - unfold Into, Bytes; cbn. split; discriminate.
  - destruct (Hc eq_refl) as [r [b [-> Hb]]].
    unfold Into, Bytes. cbn [rh_err rh_resp]. rewrite Hb.
    destruct ((StatusCode (response r) <? 200) || (StatusCode (response r) >=? 300)).
    + cbn. split; discriminate.
    + destruct (snd (json_Decode lib b)); cbn; split; discriminate.
Qed.

Lemma Do_Into_never_panics_witness :
  fst (GetJSON SampleLib.lib (New Sample.env_failing []) Sample.ctx0 "/users" [])
    <> Panics.
Proof.
  apply (Do_Into_never_panics SampleLib.lib).
  intros hc req body h _. exists SampleLib.resp404, 7%nat. split; reflexivity.
Defined.

(** The builder's fields that a call leaves alone. *)
Lemma rb_Headers_fields lib l rb :
  rb_err (rb_Headers lib rb l) = rb_err rb
  /\ rb_client (rb_Headers lib rb l) = rb_client rb
  /\ rb_queries (rb_Headers lib rb l) = rb_queries rb.
Proof.
  unfold rb_Headers. revert rb.
  induction l as [|kv l IH]; intros rb; cbn [fold_left]; [auto|].
  destruct (IH (rb_Header lib rb (fst kv) (snd kv))) as [-> [-> ->]]. auto.
Qed.

Lemma rb_QueryParams_fields l rb :
  rb_err (rb_QueryParams rb l) = rb_err rb
  /\ rb_client (rb_QueryParams rb l) = rb_client rb
  /\ rb_headers (rb_QueryParams rb l) = rb_headers rb.
Proof.
  unfold rb_QueryParams. revert rb.
  induction l as [|kv l IH]; intros rb; cbn [fold_left]; [auto|].
  destruct (IH (rb_Query rb (fst kv) (snd kv))) as [-> [-> ->]]. auto.
Qed.

Lemma marshal_error_weaken lib (P Q : GoValue -> Prop) e :
  (forall v, P v -> Q v) -> marshal_error lib P e -> marshal_error lib Q e.
Proof.
  intros HPQ (v & inner & HP & Hm & He). exists v, inner. auto.
Qed.

Lemma apply_call_marshal_error lib (P : GoValue -> Prop) rb c :
  marshal_error lib P (rb_err rb) ->
  marshal_error lib (fun v => P v \/ c = CallJSONBody v) (rb_err (apply_call lib rb c)).
Proof.
  intros H.
  assert (H' : marshal_error lib (fun v => P v \/ c = CallJSONBody v) (rb_err rb))
    by (apply (marshal_error_weaken lib P); [intros v0 Hv0; left; exact Hv0 | exact H]).
  destruct c; cbn; try exact H'.
  - destruct (rb_Headers_fields lib l rb) as [-> _]. exact H'.
  - destruct (rb_QueryParams_fields l rb) as [-> _]. exact H'.
  - unfold rb_JSONBody. destruct (json_Marshal lib v) as [d|e] eqn:Hm; cbn; [exact H'|].
    exists v, e. split; [right; reflexivity|]. split; [exact Hm | reflexivity].
Qed.

Lemma apply_calls_marshal_error lib calls (P : GoValue -> Prop) rb :
  marshal_error lib P (rb_err rb) ->
  marshal_error lib (fun v => P v \/ In (CallJSONBody v) calls)
                (rb_err (fold_left (apply_call lib) calls rb)).
Proof.
  revert P rb. induction calls as [|c calls IH]; intros P rb H; cbn [fold_left].
  - apply (marshal_error_weaken lib P); [intros v Hv; left; exact Hv | exact H].
  - apply (marshal_error_weaken lib
             (fun v => (P v \/ c = CallJSONBody v) \/ In (CallJSONBody v) calls)).
    + intros v [[Hv | Hv] | Hv]; [left; exact Hv | right; left; exact Hv
                                 | right; right; exact Hv].
    + apply IH. apply apply_call_marshal_error. exact H.
Qed.

(** X18. A failure of [JSONBody] is never forgotten: whatever calls on the
    builder follow, [Do] sends nothing and returns a handler whose error
    is the error of [json.Marshal], wrapped with [%w], for a value given
    to [JSONBody] (the first one or a later one); [Into] and [Bytes]
    return this error as it is, and [GetHTTPError] and [IsTimeout] say of
    it what they say of the error of [json.Marshal]. *)
Theorem JSONBody_failure_sticks (lib : GoLib)
    (rb : RequestBuilder) (v : GoValue)
    (e0 : Err) (calls : list builder_call) (ctx : Context) (h : History)
    (Hfail : json_Marshal lib v = inr e0) :
  exists v' inner,
    (v' = v \/ In (CallJSONBody v') calls)
    /\ json_Marshal lib v' = inr inner
    /\ let e := ErrWrap "marshal json body" inner in
       Do lib (fold_left (apply_call lib) calls (rb_JSONBody lib rb v)) ctx h
         = ({| rh_resp := None; rh_err := Some e |}, h)
       /\ Into lib {| rh_resp := None; rh_err := Some e |} h = (Returns (None, Some e), h)
       /\ Bytes lib {| rh_resp := None; rh_err := Some e |} h = (Returns (None, Some e), h)
       /\ GetHTTPError (Some e) = GetHTTPError (Some inner)
       /\ (forall nt, IsTimeout nt (Some e) = IsTimeout nt (Some inner)).
Proof.
  destruct (apply_calls_marshal_error lib calls (fun v' => v' = v) (rb_JSONBody lib rb v))
    as (v' & inner & HP & Hm & He).
  { unfold rb_JSONBody. rewrite Hfail. exists v, e0.
    split; [reflexivity|]. split; [exact Hfail | reflexivity]. }
  exists v', inner. split; [exact HP|]. split; [exact Hm|].
  cbv zeta. unfold Do. rewrite He. cbn. repeat split.
Qed.

Lemma JSONBody_failure_sticks_witness :
  exists e,
    Do SampleLib.lib
       (fold_left (apply_call SampleLib.lib)
                  [CallHeader "Accept" "text/plain"; CallJSONBody 1%nat]
                  (rb_JSONBody SampleLib.lib
                     (rb_Post (NewRequest (New Sample.env_failing [])) "/users")
                     0%nat))
       Sample.ctx0 []
      = ({| rh_resp := None; rh_err := Some e |}, []).
Proof.
  destruct (JSONBody_failure_sticks SampleLib.lib
              (rb_Post (NewRequest (New Sample.env_failing [])) "/users")
              0%nat (ErrOther 0 None None [])
              [CallHeader "Accept" "text/plain"; CallJSONBody 1%nat]
              Sample.ctx0 [] eq_refl) as (v' & inner & _ & _ & H & _).
  exists (ErrWrap "marshal json body" inner). exact H.
Defined.

(** X19. [PostJSON] and [PutJSON] with a body that cannot be marshalled
    return the marshal error and have no effect: nothing is sent. *)
Theorem PostJSON_marshal_failure (lib : GoLib) (c : Client) (ctx : Context)
    (url : string) (reqBody : GoValue) (e : Err) (h : History)
    (Hfail : json_Marshal lib reqBody = inr e) :
  PostJSON lib c ctx url reqBody h
    = (Returns (None, Some (ErrWrap "marshal json body" e)), h)
  /\ PutJSON lib c ctx url reqBody h
    = (Returns (None, Some (ErrWrap "marshal json body" e)), h).
Proof.
  unfold PostJSON, PutJSON, bind, Do, rb_JSONBody. rewrite Hfail. cbn. split; reflexivity.
Qed.

Lemma PostJSON_marshal_failure_witness :
  snd (PostJSON SampleLib.lib (New Sample.env_failing []) Sample.ctx0 "/users" 0%nat []) = [].
Proof.
  rewrite (proj1 (PostJSON_marshal_failure SampleLib.lib (New Sample.env_failing [])
                    Sample.ctx0 "/users" 0%nat (ErrOther 0 None None []) [] eq_refl)).
  reflexivity.
Defined.

(* association lists *)
Lemma assoc_get_filter_other {A} (k k' : string) (m : list (string * A)) :
  k <> k' ->
  assoc_get k' (filter (fun kv => negb (String.eqb (fst kv) k)) m) = assoc_get k' m.
Proof.
  intros Hne. induction m as [|[k0 v0] m IH]; cbn; [reflexivity|].
  destruct (String.eqb_spec k0 k) as [->|Hk0]; cbn.
  - destruct (String.eqb_spec k k'); [contradiction | exact IH].
  - destruct (String.eqb_spec k0 k'); [reflexivity | exact IH].
Qed.

Lemma assoc_get_put_same {A} (k : string) (v : A) m :
  assoc_get k (assoc_put k v m) = Some v.
Proof. unfold assoc_put. cbn. rewrite String.eqb_refl. reflexivity. Qed.

Lemma assoc_get_put_other {A} (k k' : string) (v : A) m :
  k <> k' -> assoc_get k' (assoc_put k v m) = assoc_get k' m.
Proof.
  intros Hne. unfold assoc_put. cbn.
  destruct (String.eqb_spec k k'); [contradiction|].
  apply assoc_get_filter_other; exact Hne.
Qed.

Lemma assoc_get_None {A} (k : string) (m : list (string * A)) :
  ~ In k (map fst m) -> assoc_get k m = None.
Proof.
  induction m as [|[k0 v0] m IH]; cbn; [reflexivity|].
  intros Hn. destruct (String.eqb_spec k0 k) as [->|Hk0].
  - exfalso. apply Hn. left; reflexivity.
  - apply IH. intros Hin. apply Hn. right; exact Hin.
Qed.

Lemma assoc_put_NoDup {A} (k : string) (v : A) m :
  NoDup (map fst m) -> NoDup (map fst (assoc_put k v m)).
Proof.
  intros Hnd. unfold assoc_put. cbn. constructor.
  - intros Hin. apply in_map_iff in Hin. destruct Hin as [[k0 v0] [Hk Hin]].
    apply filter_In in Hin. destruct Hin as [_ Hf]. cbn in Hk, Hf. subst k0.
    rewrite String.eqb_refl in Hf. discriminate.
  - induction m as [|[k0 v0] m IH]; cbn; [constructor|].
    inversion Hnd as [|? ? Hni Hnd']; subst.
    destruct (String.eqb k0 k); cbn; [apply IH; exact Hnd'|].
    constructor; [|apply IH; exact Hnd'].
    intros Hin. apply Hni. apply in_map_iff in Hin.
    destruct Hin as [[k1 v1] [Hk Hin]]. apply filter_In in Hin.
    apply in_map_iff. exists (k1, v1). split; [exact Hk | apply Hin].
Qed.

Lemma assoc_get_fold_put {A} (k : string) (l acc : list (string * A)) :
  NoDup (map fst l) ->
  assoc_get k (fold_left (fun acc kv => assoc_put (fst kv) (snd kv) acc) l acc)
  = match assoc_get k l with
    | Some v => Some v
    | None => assoc_get k acc
    end.
Proof.
  revert acc. induction l as [|[k1 v1] l IH]; intros acc Hnd; cbn [fold_left];
    [reflexivity|].
  inversion Hnd as [|? ? Hni Hnd']; subst.
  rewrite (IH _ Hnd'). cbn [assoc_get fst snd].
  destruct (String.eqb_spec k1 k) as [->|Hne].
  - rewrite (assoc_get_None k l Hni). apply assoc_get_put_same.
  - destruct (assoc_get k l); [reflexivity|].
    apply assoc_get_put_other; exact Hne.
Qed.

(** Header maps of a builder keep one entry per key. *)
Lemma rb_Headers_NoDup lib l rb :
  NoDup (map fst (rb_headers rb)) -> NoDup (map fst (rb_headers (rb_Headers lib rb l))).
Proof.
  unfold rb_Headers. revert rb.
  induction l as [|kv l IH]; intros rb H; cbn [fold_left]; [exact H|].
  apply IH. unfold rb_Header, set_headers, header_Set. cbn [rb_headers].
  apply assoc_put_NoDup; exact H.
Qed.

Lemma apply_call_invariant lib rb c :
  NoDup (map fst (rb_headers rb)) ->
  NoDup (map fst (rb_headers (apply_call lib rb c)))
  /\ rb_client (apply_call lib rb c) = rb_client rb.
Proof.
  intros H.
  destruct c; cbn [apply_call];
    unfold rb_Method, rb_Get, rb_Post, rb_Put, rb_Delete, rb_URL, rb_Header, rb_Query,
           rb_Body, set_method_url, set_headers, set_queries, set_body, header_Set;
    cbn [rb_headers rb_client];
    try (split; [exact H | reflexivity]).
  - split; [apply assoc_put_NoDup; exact H | reflexivity].
  - split; [apply rb_Headers_NoDup; exact H|].
    apply (rb_Headers_fields lib l rb).
  - destruct (rb_QueryParams_fields l rb) as [_ [-> ->]]. split; [exact H | reflexivity].
  - unfold rb_JSONBody, set_headers, set_body, set_err, header_Set.
    destruct (json_Marshal lib v); cbn [rb_headers rb_client].
    + split; [apply assoc_put_NoDup; exact H | reflexivity].
    + split; [exact H | reflexivity].
Qed.

Lemma apply_calls_invariant lib calls rb :
  NoDup (map fst (rb_headers rb)) ->
  NoDup (map fst (rb_headers (fold_left (apply_call lib) calls rb)))
  /\ rb_client (fold_left (apply_call lib) calls rb) = rb_client rb.
Proof.
  revert rb. induction calls as [|c calls IH]; intros rb H; cbn [fold_left];
    [split; [exact H | reflexivity]|].
  destruct (apply_call_invariant lib rb c H) as [H1 H2].
  destruct (IH _ H1) as [H3 H4]. split; [exact H3|]. rewrite H4. exact H2.
Qed.

(** X20. For a builder obtained from [NewRequest] by any calls, [Do]
    either returns a handler with an error and has no effect, or sends the
    request made by [http.NewRequestWithContext] with its method, URL and
    context, in which every header key carries the builder's value if the
    builder has one, else the client's, else the one of the new
    request. *)
Theorem Do_merges_headers (lib : GoLib) (c : Client) (calls : list builder_call)
    (ctx : Context) (h : History)
    (Hclient : NoDup (map fst (Headers (options (client_opts c))))) :
  let rb := fold_left (apply_call lib) calls (NewRequest c) in
  (exists e, Do lib rb ctx h = ({| rh_resp := None; rh_err := Some e |}, h))
  \/ (exists u req0 req,
        http_NewRequestWithContext lib ctx (rb_method rb) u (rb_body rb) = inl req0
        /\ Do lib rb ctx h =
             (let out := http_Client_Do lib (client_http c) req (rb_body rb) h in
              ({| rh_resp := fst (fst out); rh_err := snd (fst out) |}, snd out))
        /\ Method req = Method req0 /\ URL req = URL req0 /\ req_ctx req = req_ctx req0
        /\ forall k,
             assoc_get k (Header req) =
               match assoc_get k (rb_headers rb) with
               | Some v => Some v
               | None =>
                 match assoc_get k (Headers (options (client_opts c))) with
                 | Some v => Some v
                 | None => assoc_get k (Header req0)
                 end
               end).
Proof.
  intros rb.
  destruct (apply_calls_invariant lib calls (NewRequest c)) as [Hnd Hcl];
    [constructor|].
  fold rb in Hnd, Hcl. cbn in Hcl.
  unfold Do. destruct (rb_err rb) as [e|]; [left; eexists; reflexivity|].
  match goal with
  | |- context [match ?q with inl _ => _ | inr _ => _ end] =>
      destruct q as [u|e]; [|left; eexists; reflexivity]
  end.
  destruct (http_NewRequestWithContext lib ctx (rb_method rb) u (rb_body rb))
    as [req0|e] eqn:Hreq; [|left; eexists; reflexivity].
  right. exists u, req0.
  exists (merge_headers req0 (Headers (options (client_opts c))) (rb_headers rb)).
  split; [exact Hreq|].
  rewrite Hcl. split.
  - unfold bind, ret.
    match goal with
    | |- context [http_Client_Do lib ?hc ?r ?b h] =>
        destruct (http_Client_Do lib hc r b h) as [[resp err] h1]
    end. reflexivity.
  - cbn [merge_headers Method URL req_ctx Header].
    repeat (split; [reflexivity|]).
    intros k. rewrite (assoc_get_fold_put k _ _ Hnd).
    destruct (assoc_get k (rb_headers rb)); [reflexivity|].
    apply (assoc_get_fold_put k _ _ Hclient).
Qed.

Lemma Do_merges_headers_witness :
  exists req,
    Do SampleLib.lib
       (fold_left (apply_call SampleLib.lib)
                  [CallGet "/users"; CallHeader "X-Trace" "request"]
                  (NewRequest (New Sample.env_failing [WithHeader SampleLib.lib "X-Trace" "client"])))
       Sample.ctx0 []
    = ({| rh_resp := fst (fst (http_Client_Do SampleLib.lib
                                 (client_http (New Sample.env_failing
                                    [WithHeader SampleLib.lib "X-Trace" "client"]))
                                 req None []));
          rh_err := None |}, [])
    /\ assoc_get "X-Trace" (Header req) = Some "request"%string.
Proof.
  destruct (Do_merges_headers SampleLib.lib
              (New Sample.env_failing [WithHeader SampleLib.lib "X-Trace" "client"])
              [CallGet "/users"; CallHeader "X-Trace" "request"]
              Sample.ctx0 [])
    as [[e He] | [u [req0 [req [_ [Hdo [_ [_ [_ Hk]]]]]]]]].
  - cbn. constructor; [intros []|constructor].
  - cbn in He. discriminate.
  - exists req. split; [exact Hdo|]. rewrite Hk. reflexivity.
Defined.

Lemma rb_Query_step (rb : RequestBuilder) (k1 v1 k : string) :
  (forall k', assoc_get k' (rb_queries rb) <> Some []) ->
  (forall k', assoc_get k' (rb_queries (rb_Query rb k1 v1)) <> Some [])
  /\ query_values k (rb_queries (rb_Query rb k1 v1))
     = query_values k (rb_queries rb) ++ (if String.eqb k1 k then [v1] else []).
Proof.
  intros Hinv. unfold rb_Query, set_queries, query_values. cbn [rb_queries]. split.
  - intros k'. destruct (String.eqb_spec k1 k') as [->|Hne].
    + rewrite assoc_get_put_same. intros H. injection H as H.
      apply app_eq_nil in H. destruct H as [_ H]. discriminate.
    + rewrite (assoc_get_put_other k1 k' _ _ Hne). apply Hinv.
  - destruct (String.eqb_spec k1 k) as [->|Hne].
    + rewrite assoc_get_put_same. reflexivity.
    + rewrite (assoc_get_put_other k1 k _ _ Hne). rewrite app_nil_r. reflexivity.
Qed.

Lemma rb_QueryParams_values (l : list (string * string)) (rb : RequestBuilder) (k : string) :
  (forall k', assoc_get k' (rb_queries rb) <> Some []) ->
  (forall k', assoc_get k' (rb_queries (rb_QueryParams rb l)) <> Some [])
  /\ query_values k (rb_queries (rb_QueryParams rb l))
     = query_values k (rb_queries rb)
       ++ map snd (filter (fun kv => String.eqb (fst kv) k) l).
Proof.
  unfold rb_QueryParams. revert rb.
  induction l as [|[k1 v1] l IH]; intros rb Hinv; cbn [fold_left filter fst snd].
  - split; [exact Hinv|]. cbn. rewrite app_nil_r. reflexivity.
  - destruct (rb_Query_step rb k1 v1 k Hinv) as [Hinv' Hv].
    destruct (IH _ Hinv') as [H1 H2]. split; [exact H1|].
    rewrite H2, Hv, <- app_assoc. f_equal.
    destruct (String.eqb k1 k); reflexivity.
Qed.

(** X21. In a chain of [Query] calls ([QueryParams] is such a chain, in the
    order the map is ranged over) the values given for a key accumulate in
    the order of the calls, and a key never given is absent. *)
Theorem Query_accumulates (c : Client) (params : list (string * string)) (k : string) :
  assoc_get k (rb_queries (fold_left (fun rb kv => rb_Query rb (fst kv) (snd kv))
                                     params (NewRequest c)))
  = match map snd (filter (fun kv => String.eqb (fst kv) k) params) with
    | [] => None
    | vs => Some vs
    end.
Proof.
  change (fold_left (fun rb kv => rb_Query rb (fst kv) (snd kv)) params (NewRequest c))
    with (rb_QueryParams (NewRequest c) params).
  destruct (rb_QueryParams_values params (NewRequest c) k) as [Hinv Hv].
  { intros k'. cbn. discriminate. }
  unfold query_values in Hv. cbn [NewRequest rb_queries assoc_get app] in Hv.
  specialize (Hinv k).
  destruct (assoc_get k (rb_queries (rb_QueryParams (NewRequest c) params))) as [vs|].
  - subst vs. destruct (map snd (filter (fun kv => String.eqb (fst kv) k) params));
      [contradiction | reflexivity].
  - rewrite <- Hv. reflexivity.
Qed.
